(** * Source Pattern Compliance Engine: a shallow embedding

    The development follows [src/tools/validationChecker.ts] (the scanner:
    detector table, [checkFile], [getSuggestion], [runValidationCheckerTool]),
    [src/tools/fileAnalyzer.ts] ([analyzeValidationUsage], [analyzeImports],
    [analyzeExports], [runFileAnalyzerTool]) and, of the documentation
    helper, [extractSnippet].

    JavaScript strings are sequences of UTF-16 code units; they are modelled
    as lists of [N].  The regular expressions of the two files are kept as
    data (an abstract syntax that mirrors each literal) and run by a
    backtracking matcher with the priorities of the ECMAScript semantics
    (leftmost start, alternatives left to right, greedy and lazy stars). *)

From Stdlib Require Import Ascii String.
From Stdlib Require Import List NArith ZArith Bool Arith Lia.
From Stdlib Require Import Permutation Sorted.
Import ListNotations.
Open Scope list_scope.

(* ================================================================== *)
(** ** JavaScript strings *)
(* ================================================================== *)

Module JS.

Definition char := N.
Definition jsstring := list char.

(** Code units of an ASCII literal of the source. *)
Definition js (s : string) : jsstring :=
  map N_of_ascii (list_ascii_of_string s).
Arguments js s%_string.

Definition LF : char := 10%N.

Fixpoint str_eqb (a b : jsstring) : bool :=
  match a, b with
  | [], [] => true
  | x :: a', y :: b' => N.eqb x y && str_eqb a' b'
  | _, _ => false
  end.

(** [LineTerminator] of ECMAScript: LF, CR, LS, PS. *)
Definition isLineTerminator (c : char) : bool :=
  (N.eqb c 10 || N.eqb c 13 || N.eqb c 8232 || N.eqb c 8233)%N.

(** [WhiteSpace] or [LineTerminator]: what [\s] matches and what
    [String.prototype.trim] strips. *)
Definition isSpace (c : char) : bool :=
  (N.eqb c 9 || N.eqb c 11 || N.eqb c 12 || N.eqb c 32 || N.eqb c 160
   || N.eqb c 5760 || (N.leb 8192 c && N.leb c 8202) || N.eqb c 8239
   || N.eqb c 8287 || N.eqb c 12288 || N.eqb c 65279
   || isLineTerminator c)%N.

(** [\w]: ASCII letters, digits and the underscore. *)
Definition isWordChar (c : char) : bool :=
  ((N.leb 97 c && N.leb c 122) || (N.leb 65 c && N.leb c 90)
   || (N.leb 48 c && N.leb c 57) || N.eqb c 95)%N.

(** [Canonicalize] without the [u] flag, on the code units that can equal
    the canonical form of an ASCII pattern character: a code unit of 128 or
    more never canonicalizes to an ASCII one, so only ASCII letters fold. *)
Definition canonicalize (c : char) : char :=
  if (N.leb 97 c && N.leb c 122)%N then (c - 32)%N else c.

(** [hay.startsWith(needle)] *)
Fixpoint starts_with (needle hay : jsstring) : bool :=
  match needle, hay with
  | [], _ => true
  | _ :: _, [] => false
  | x :: needle', y :: hay' => N.eqb x y && starts_with needle' hay'
  end.

(** [hay.includes(needle)] for a string argument. *)
Fixpoint includes (hay needle : jsstring) : bool :=
  starts_with needle hay
  || match hay with
     | [] => false
     | _ :: hay' => includes hay' needle
     end.

(** [s.split('\n')] *)
Fixpoint split_nl (s : jsstring) : list jsstring :=
  match s with
  | [] => [[]]
  | c :: t =>
      if N.eqb c LF then [] :: split_nl t
      else match split_nl t with
           | l :: ls => (c :: l) :: ls
           | [] => [[c]]
           end
  end.

Fixpoint dropWhile {A} (p : A -> bool) (l : list A) : list A :=
  match l with
  | [] => []
  | x :: t => if p x then dropWhile p t else l
  end.

(** [s.trim()] *)
Definition trim (s : jsstring) : jsstring :=
  rev (dropWhile isSpace (rev (dropWhile isSpace s))).

(** [arr.findIndex(p)]: [None] stands for the result [-1]. *)
Fixpoint findIndex {A} (p : A -> bool) (l : list A) : option nat :=
  match l with
  | [] => None
  | x :: t => if p x then Some 0
              else match findIndex p t with
                   | Some i => Some (S i)
                   | None => None
                   end
  end.

(** Number of line feeds of a text. *)
Definition count_nl (s : jsstring) : nat :=
  length (filter (N.eqb LF) s).

(* ------------------------------------------------------------------ *)
(** *** Regular expressions *)

(** One-character atoms. *)
Inductive cclass :=
| CChar (c : char)            (* a literal character *)
| CAny                        (* [.] *)
| CSpace                      (* [\s] *)
| CWord                       (* [\w] *)
| COneOf (cs : list char)     (* [[...]] *)
| CNoneOf (cs : list char).   (* [[^...]] *)

(** The constructs used by the patterns of the two source files.  Stars
    and plus only occur over one-character atoms there. *)
Inductive regex :=
| REmpty
| RChar (c : cclass)
| RSeq (r1 r2 : regex)
| RAlt (r1 r2 : regex)
| RStar (c : cclass)          (* greedy  [c*]  *)
| RLazyStar (c : cclass)      (* lazy    [c*?] *)
| RPlus (c : cclass)          (* greedy  [c+]  *)
| RGroup (n : nat) (r : regex)  (* the n-th capturing group *)
| RWordB.                     (* [\b] *)

Fixpoint RLit (s : jsstring) : regex :=
  match s with
  | [] => REmpty
  | [c] => RChar (CChar c)
  | c :: t => RSeq (RChar (CChar c)) (RLit t)
  end.

Definition RStr (s : string) : regex := RLit (js s).
Arguments RStr s%_string.

Fixpoint RSeqs (rs : list regex) : regex :=
  match rs with
  | [] => REmpty
  | [r] => r
  | r :: t => RSeq r (RSeqs t)
  end.

Fixpoint RAlts (rs : list regex) : regex :=
  match rs with
  | [] => REmpty
  | [r] => r
  | r :: t => RAlt r (RAlts t)
  end.

Fixpoint ngroups (r : regex) : nat :=
  match r with
  | RSeq a b | RAlt a b => ngroups a + ngroups b
  | RGroup _ a => S (ngroups a)
  | _ => 0
  end.

Record RegExp := {
  re : regex;
  ignoreCase : bool;      (* flag [i] *)
  global : bool;          (* flag [g] *)
  source : jsstring       (* the text between the slashes *)
}.

(** [RegExp.prototype.toString] *)
Definition toString (p : RegExp) : jsstring :=
  js "/" ++ source p ++ js "/"
  ++ (if global p then js "g" else []) ++ (if ignoreCase p then js "i" else []).

Definition mem (c : char) (cs : list char) : bool := existsb (N.eqb c) cs.

Definition cmatch (ic : bool) (cl : cclass) (x : char) : bool :=
  match cl with
  | CChar c => if ic then N.eqb (canonicalize c) (canonicalize x) else N.eqb c x
  | CAny => negb (isLineTerminator x)
  | CSpace => isSpace x
  | CWord => isWordChar x
  | COneOf cs => mem x cs
  | CNoneOf cs => negb (mem x cs)
  end.

Definition captures := list (nat * jsstring).

Fixpoint capture (n : nat) (cs : captures) : option jsstring :=
  match cs with
  | [] => None
  | (m, s) :: t => if Nat.eqb m n then Some s else capture n t
  end.

Section Matcher.
Context {R : Type}.
Variable ic : bool.

(** A continuation receives the character before the current position,
    the rest of the input and the captures made so far. *)
Definition cont := option char -> jsstring -> captures -> option R.

Definition orElse (a : option R) (b : unit -> option R) : option R :=
  match a with
  | Some r => Some r
  | None => b tt
  end.

Fixpoint star_greedy (c : cclass) (k : cont)
    (prev : option char) (rest : jsstring) (cs : captures) : option R :=
  match rest with
  | x :: xs =>
      if cmatch ic c x
      then orElse (star_greedy c k (Some x) xs cs) (fun _ => k prev rest cs)
      else k prev rest cs
  | [] => k prev rest cs
  end.

Fixpoint star_lazy (c : cclass) (k : cont)
    (prev : option char) (rest : jsstring) (cs : captures) : option R :=
  orElse (k prev rest cs)
    (fun _ => match rest with
              | x :: xs => if cmatch ic c x then star_lazy c k (Some x) xs cs
                           else None
              | [] => None
              end).

Definition isWordOpt (o : option char) : bool :=
  match o with
  | Some c => isWordChar c
  | None => false
  end.

Fixpoint matcher (r : regex) (k : cont)
    (prev : option char) (rest : jsstring) (cs : captures) : option R :=
  match r with
  | REmpty => k prev rest cs
  | RChar c =>
      match rest with
      | x :: xs => if cmatch ic c x then k (Some x) xs cs else None
      | [] => None
      end
  | RSeq r1 r2 => matcher r1 (matcher r2 k) prev rest cs
  | RAlt r1 r2 =>
      orElse (matcher r1 k prev rest cs) (fun _ => matcher r2 k prev rest cs)
  | RStar c => star_greedy c k prev rest cs
  | RLazyStar c => star_lazy c k prev rest cs
  | RPlus c =>
      match rest with
      | x :: xs => if cmatch ic c x then star_greedy c k (Some x) xs cs
                   else None
      | [] => None
      end
  | RGroup n r1 =>
      matcher r1
        (fun prev' rest' cs' =>
           k prev' rest'
             ((n, firstn (length rest - length rest') rest) :: cs'))
        prev rest cs
  | RWordB =>
      if xorb (isWordOpt prev) (isWordOpt (hd_error rest))
      then k prev rest cs else None
  end.
End Matcher.

(** The result of one successful match: where it starts, the matched text,
    the capture groups ([None] is JavaScript's [undefined]) and the
    position right after the match. *)
Record MatchResult := {
  m_index : nat;
  m_text : jsstring;
  m_groups : list (option jsstring);
  m_prev : option char;
  m_rest : jsstring
}.

Definition match_here (p : RegExp) (idx : nat) (prev : option char)
    (rest : jsstring) : option MatchResult :=
  matcher (ignoreCase p) (re p)
    (fun prev' rest' cs' =>
       Some {| m_index := idx;
               m_text := firstn (length rest - length rest') rest;
               m_groups := map (fun n => capture n cs') (seq 1 (ngroups (re p)));
               m_prev := prev';
               m_rest := rest' |})
    prev rest [].

(** The search of [RegExpBuiltinExec]: the first start index, from the
    current one on, at which the pattern matches. *)
Fixpoint search (p : RegExp) (idx : nat) (prev : option char)
    (rest : jsstring) : option MatchResult :=
  match match_here p idx prev rest with
  | Some r => Some r
  | None =>
      match rest with
      | [] => None
      | x :: xs => search p (S idx) (Some x) xs
      end
  end.

(** [p.test(s)] for a pattern whose [lastIndex] is 0: any pattern without
    the [g] flag, a fresh one with it.  It tells whether the pattern matches
    somewhere in [s]. *)
Definition test (p : RegExp) (s : jsstring) : bool :=
  match search p 0 None s with
  | Some _ => true
  | None => false
  end.

(** [s.match(p)] for a pattern without the [g] flag: [null] ([None]) or the
    array of the first match, that is the matched text followed by one
    entry per capture group. *)
Definition match_first (p : RegExp) (s : jsstring)
    : option (list (option jsstring)) :=
  match search p 0 None s with
  | Some r => Some (Some (m_text r) :: m_groups r)
  | None => None
  end.

(** The successive matches of a pattern with the [g] flag: each search
    starts where the previous match ended, one further after an empty
    match ([AdvanceStringIndex]); the fuel bounds the number of matches. *)
Fixpoint exec_all (fuel : nat) (p : RegExp) (idx : nat)
    (prev : option char) (rest : jsstring) : list MatchResult :=
  match fuel with
  | 0 => []
  | S fuel' =>
      match search p idx prev rest with
      | None => []
      | Some r =>
          let e := m_index r + length (m_text r) in
          r :: match m_text r, m_rest r with
               | [], x :: xs => exec_all fuel' p (S e) (Some x) xs
               | [], [] => []
               | _ :: _, _ => exec_all fuel' p e (m_prev r) (m_rest r)
               end
      end
  end.

Definition matches_g (p : RegExp) (s : jsstring) : list MatchResult :=
  exec_all (S (length s)) p 0 None s.

(** [s.match(p)] for a pattern with the [g] flag: [null] or the texts of
    all matches. *)
Definition match_global (p : RegExp) (s : jsstring) : option (list jsstring) :=
  match matches_g p s with
  | [] => None
  | l => Some (map m_text l)
  end.

(** [s.split(sep)] for a separator of one character. *)
Fixpoint split_on (sep : char) (s : jsstring) : list jsstring :=
  match s with
  | [] => [[]]
  | c :: t =>
      if N.eqb c sep then [] :: split_on sep t
      else match split_on sep t with
           | l :: ls => (c :: l) :: ls
           | [] => [[c]]
           end
  end.

(** [parts.join(sep)] *)
Fixpoint join_with (sep : jsstring) (parts : list jsstring) : jsstring :=
  match parts with
  | [] => []
  | [x] => x
  | x :: t => x ++ sep ++ join_with sep t
  end.

(** The characters of a class range such as [A-Z]. *)
Definition char_range (a b : char) : list char :=
  map N.of_nat (seq (N.to_nat a) (S (N.to_nat b) - N.to_nat a)).

(** [s.match(p)] for a pattern of the form [^r$] without flags, [p]
    holding [r]: the match starts at index 0 and must end at the end of
    the input. *)
Definition match_whole (p : RegExp) (s : jsstring)
    : option (list (option jsstring)) :=
  matcher (ignoreCase p) (re p)
    (fun prev' rest' cs' =>
       match rest' with
       | [] => Some (Some s
                     :: map (fun n => capture n cs') (seq 1 (ngroups (re p))))
       | _ :: _ => None
       end)
    None s [].

(** [r?], the greedy option. *)
Definition ROpt (r : regex) : regex := RAlt r REmpty.

End JS.

(* ================================================================== *)
(** ** JSON values and [JSON.stringify(value, null, 2)] *)
(* ================================================================== *)

Module Json.
Import JS.

Set Warnings "-register-all".

Inductive json :=
| JNull
| JBool (b : bool)
| JNum (n : nat)
| JStr (s : jsstring)
| JArr (items : list json)
| JObj (fields : list (jsstring * json)).

Fixpoint uint_chars (u : Decimal.uint) : jsstring :=
  match u with
  | Decimal.Nil => []
  | Decimal.D0 u' => 48%N :: uint_chars u'
  | Decimal.D1 u' => 49%N :: uint_chars u'
  | Decimal.D2 u' => 50%N :: uint_chars u'
  | Decimal.D3 u' => 51%N :: uint_chars u'
  | Decimal.D4 u' => 52%N :: uint_chars u'
  | Decimal.D5 u' => 53%N :: uint_chars u'
  | Decimal.D6 u' => 54%N :: uint_chars u'
  | Decimal.D7 u' => 55%N :: uint_chars u'
  | Decimal.D8 u' => 56%N :: uint_chars u'
  | Decimal.D9 u' => 57%N :: uint_chars u'
  end.

(** [Number.prototype.toString] on a non-negative integer. *)
Definition number_chars (n : nat) : jsstring := uint_chars (Nat.to_uint n).

Definition hex_digit (d : N) : char :=
  if N.ltb d 10 then (48 + d)%N else (87 + d)%N.

(** [UnicodeEscape]: a backslash, [u] and four lowercase hexadecimal digits. *)
Definition unicode_escape (c : char) : jsstring :=
  [92%N; 117%N;
   hex_digit (N.modulo (N.div c 4096) 16); hex_digit (N.modulo (N.div c 256) 16);
   hex_digit (N.modulo (N.div c 16) 16); hex_digit (N.modulo c 16)].

Definition isHighSurrogate (c : char) : bool := (N.leb 55296 c && N.leb c 56319)%N.
Definition isLowSurrogate (c : char) : bool := (N.leb 56320 c && N.leb c 57343)%N.

Definition escape_unit (c : char) : jsstring :=
  if N.eqb c 8 then js "\b"
  else if N.eqb c 9 then js "\t"
  else if N.eqb c 10 then js "\n"
  else if N.eqb c 12 then js "\f"
  else if N.eqb c 13 then js "\r"
  else if N.eqb c 34 then [92%N; 34%N]
  else if N.eqb c 92 then js "\\"
  else if N.ltb c 32 || isHighSurrogate c || isLowSurrogate c
       then unicode_escape c
  else [c].

(** The body of [QuoteJSONString]: a surrogate pair is kept as it is, a
    lone surrogate is escaped.  [paired] tells that the previous unit was
    the first half of a pair. *)
Fixpoint escape_units (paired : bool) (s : jsstring) : jsstring :=
  match s with
  | [] => []
  | c :: t =>
      if isHighSurrogate c
         && match t with
            | d :: _ => isLowSurrogate d
            | [] => false
            end
      then c :: escape_units true t
      else if isLowSurrogate c && paired then c :: escape_units false t
      else escape_unit c ++ escape_units false t
  end.

Definition quote (s : jsstring) : jsstring :=
  [34%N] ++ escape_units false s ++ [34%N].

Fixpoint join (sep : jsstring) (parts : list jsstring) : jsstring :=
  match parts with
  | [] => []
  | [x] => x
  | x :: t => x ++ sep ++ join sep t
  end.

(** [SerializeJSONProperty] with a gap of two spaces; [ind] is the current
    indentation. *)
Fixpoint stringify (ind : jsstring) (v : json) : jsstring :=
  let stepback := ind in
  let ind' := ind ++ js "  " in
  match v with
  | JNull => js "null"
  | JBool true => js "true"
  | JBool false => js "false"
  | JNum n => number_chars n
  | JStr s => quote s
  | JArr [] => js "[]"
  | JArr items =>
      js "[" ++ [LF] ++ ind'
      ++ join (js "," ++ [LF] ++ ind') (map (stringify ind') items)
      ++ [LF] ++ stepback ++ js "]"
  | JObj [] => js "{}"
  | JObj fields =>
      js "{" ++ [LF] ++ ind'
      ++ join (js "," ++ [LF] ++ ind')
           (map (fun kv => quote (fst kv) ++ js ": " ++ stringify ind' (snd kv))
              fields)
      ++ [LF] ++ stepback ++ js "}"
  end.

(** [JSON.stringify(v, null, 2)] *)
Definition JSON_stringify (v : json) : jsstring := stringify [] v.

End Json.

(* ================================================================== *)
(** ** [src/tools/validationChecker.ts] *)
(* ================================================================== *)

Module Checker.
Import JS Json.

Inductive Severity := low | medium | high.

Definition severity_eqb (a b : Severity) : bool :=
  match a, b with
  | low, low | medium, medium | high, high => true
  | _, _ => false
  end.

Definition severity_text (s : Severity) : jsstring :=
  match s with
  | low => js "low"
  | medium => js "medium"
  | high => js "high"
  end.

(** An entry of [VALIDATION_ISSUES]. *)
Record Detector := {
  pattern : RegExp;
  message : jsstring;
  severity : Severity
}.

Definition field_names : regex :=
  RAlts [RStr "email"; RStr "password"; RStr "phone"; RStr "name";
         RStr "address"; RStr "zip"; RStr "postal"; RStr "code";
         RStr "username"; RStr "url"].

Definition validation_words : regex :=
  RAlts [RStr "validate"; RStr "validation"; RStr "valid"; RStr "invalid";
         RStr "pattern"; RStr "regex"; RStr "match"; RStr "test"].

Definition string_methods : regex :=
  RAlts [RStr "substring"; RStr "substr"; RStr "slice"; RStr "trim";
         RStr "replace"; RStr "replaceAll"; RStr "padStart"; RStr "padEnd";
         RStr "toLowerCase"; RStr "toUpperCase"].

Definition validator_names : regex :=
  RAlts [RStr "validation"; RStr "validator"; RStr "validate";
         RStr "validateField"; RStr "isValid"].

Definition slash : char := 47%N.

Definition field_validation : Detector :=
  {| pattern :=
       {| re := RSeqs [RWordB; RGroup 1 field_names; RWordB; RLazyStar CAny;
                       RGroup 2 validation_words];
          ignoreCase := true; global := false;
          source := js "\b(email|password|phone|name|address|zip|postal|code|username|url)\b.*?(validate|validation|valid|invalid|pattern|regex|match|test)" |};
     message := js "Contains field validation that might need ValidationService";
     severity := medium |}.

Definition regex_test : Detector :=
  {| pattern :=
       {| re := RSeqs [RStr ".test("; RStar CSpace; RChar (CChar slash);
                       RPlus (CNoneOf [slash]); RChar (CChar slash);
                       RStar CSpace; RStr ")"];
          ignoreCase := false; global := false;
          source := js "\.test\(\s*\/[^/]+\/\s*\)" |};
     message := js "Using regex test() directly instead of ValidationService";
     severity := high |}.

Definition regex_match : Detector :=
  {| pattern :=
       {| re := RSeqs [RStr ".match("; RStar CSpace; RChar (CChar slash);
                       RPlus (CNoneOf [slash]); RChar (CChar slash);
                       RStar CSpace; RStr ")"];
          ignoreCase := false; global := false;
          source := js "\.match\(\s*\/[^/]+\/\s*\)" |};
     message := js "Using regex match() directly instead of ValidationService";
     severity := high |}.

Definition new_regexp : Detector :=
  {| pattern :=
       {| re := RStr "new RegExp(";
          ignoreCase := false; global := false;
          source := js "new RegExp\(" |};
     message := js "Creating RegExp directly instead of using ValidationService";
     severity := high |}.

Definition string_manipulation : Detector :=
  {| pattern :=
       {| re := RSeqs [RStr "."; RGroup 1 string_methods; RStr "("];
          ignoreCase := false; global := false;
          source := js "\.(substring|substr|slice|trim|replace|replaceAll|padStart|padEnd|toLowerCase|toUpperCase)\(" |};
     message := js "String manipulation that might need FormatterService";
     severity := low |}.

Definition custom_validation : Detector :=
  {| pattern :=
       {| re := RAlt
                  (RSeqs [RWordB; RGroup 1 validator_names; RStar CSpace;
                          RStr "="; RStar CSpace; RStr "function"])
                  (RSeqs [RStr "=>"; RStar CSpace; RStr "{"]);
          ignoreCase := false; global := false;
          source := js "\b(validation|validator|validate|validateField|isValid)\s*=\s*function|=>\s*{" |};
     message := js "Custom validation function that might duplicate ValidationService functionality";
     severity := medium |}.

Definition VALIDATION_ISSUES : list Detector :=
  [field_validation; regex_test; regex_match; new_regexp;
   string_manipulation; custom_validation].

(** A thrown [Error]: its name and its message. *)
Record exn := { err_name : jsstring; err_message : jsstring }.

Definition result (A : Type) := (exn + A)%type.

Definition bind {A B} (m : result A) (f : A -> result B) : result B :=
  match m with
  | inl e => inl e
  | inr a => f a
  end.

Notation "x <- m ;; k" := (bind m (fun x => k))
  (at level 61, m at next level, right associativity).

(** The error V8 raises for [undefined.includes(...)]. *)
Definition undefined_includes : exn :=
  {| err_name := js "TypeError";
     err_message := js "Cannot read properties of undefined (reading 'includes')" |}.

(** [ToString] of an array entry of [String.prototype.match]. *)
Definition to_search_string (x : option jsstring) : jsstring :=
  match x with
  | Some t => t
  | None => js "undefined"
  end.

(** The branches of [getSuggestion] for a [match] that is a string. *)
Definition suggestionFor (mtch : jsstring)
    (usesValidationService usesFormatterService : bool) : jsstring :=
  if includes mtch (js ".test(") then
    js "Use ValidationService.createValidator() or a specific validator from @/lib/validation instead of regex tests"
  else if includes mtch (js ".match(") then
    js "Use ValidationService.createValidator() or a specific validator from @/lib/validation instead of regex matching"
  else if includes mtch (js "trim") || includes mtch (js "replace")
          || includes mtch (js "substring") then
    js "Consider using FormatterService.formatValue() for consistent string formatting"
  else
    js "Consider using the appropriate method from "
    ++ (if usesValidationService then [] else js "ValidationService or ")
    ++ (if usesFormatterService then [] else js "FormatterService ")
    ++ js "instead".

(** [getSuggestion(match, issue, usesValidationService, usesFormatterService)]:
    on [undefined] the first [match.includes] throws. *)
Definition getSuggestion (mtch : option jsstring) (issue : Detector)
    (usesValidationService usesFormatterService : bool) : result jsstring :=
  match mtch with
  | None => inl undefined_includes
  | Some m => inr (suggestionFor m usesValidationService usesFormatterService)
  end.

Record Issue := {
  i_pattern : jsstring;
  i_message : jsstring;
  i_severity : Severity;
  i_line : nat;
  i_content : jsstring;
  i_suggestion : jsstring
}.

(** One round of the inner loop of [checkFile]: [mtch] is the current
    entry of the array returned by [content.match(issue.pattern)]. *)
Definition checkMatch (content : jsstring)
    (usesValidationService usesFormatterService : bool) (issue : Detector)
    (issues : list Issue) (mtch : option jsstring) : result (list Issue) :=
  let lines := split_nl content in
  let lineIndex :=
    findIndex (fun line => includes line (to_search_string mtch)) lines in
  match lineIndex with
  | Some lineIndex =>
      suggestion <- getSuggestion mtch issue
                      usesValidationService usesFormatterService ;;
      inr (issues ++
           [{| i_pattern := toString (pattern issue);
               i_message := message issue;
               i_severity := severity issue;
               i_line := lineIndex + 1;
               i_content := trim (nth lineIndex lines []);
               i_suggestion := suggestion |}])
  | None => inr issues
  end.

(** A [for ... of] loop whose body may throw. *)
Fixpoint forOf {A S} (body : S -> A -> result S) (l : list A) (s : S)
    : result S :=
  match l with
  | [] => inr s
  | x :: t => s' <- body s x ;; forOf body t s'
  end.

(** One round of the outer loop of [checkFile]. *)
Definition checkDetector (content : jsstring)
    (usesValidationService usesFormatterService : bool)
    (issues : list Issue) (issue : Detector) : result (list Issue) :=
  match match_first (pattern issue) content with
  | Some matches =>
      forOf (checkMatch content usesValidationService usesFormatterService issue)
        matches issues
  | None => inr issues
  end.

(** The object [checkFile] returns when nothing was thrown. *)
Record FileReport := {
  path : jsstring;
  usesValidationImport : bool;
  usesValidationService : bool;
  usesFormatterService : bool;
  issueCount : nat;
  issues : list Issue;
  suggestedFix : option jsstring
}.

Inductive CheckResult :=
| Report (r : FileReport)
| CheckError (path : jsstring) (error : jsstring).

Definition suggested_import : jsstring :=
  js "import { ValidationService, FormatterService } from "
  ++ [34%N] ++ js "@/lib/validation" ++ [34%N] ++ js ";".

(** The [try] block of [checkFile], after the file was read. *)
Definition checkContent (filePath content : jsstring) : result FileReport :=
  let usesValidationImport := includes content (js "@/lib/validation") in
  let usesValidationService := includes content (js "ValidationService") in
  let usesFormatterService := includes content (js "FormatterService") in
  issues <- forOf (checkDetector content usesValidationService usesFormatterService)
              VALIDATION_ISSUES [] ;;
  inr {| path := filePath;
         usesValidationImport := usesValidationImport;
         usesValidationService := usesValidationService;
         usesFormatterService := usesFormatterService;
         issueCount := length issues;
         issues := issues;
         suggestedFix :=
           if Nat.ltb 0 (length issues) && negb usesValidationImport
           then Some suggested_import else None |}.

(** [checkFile(filePath)], the outcome of the read being given. *)
Definition checkFile (read : jsstring -> result jsstring) (filePath : jsstring)
    : CheckResult :=
  match (content <- read filePath ;; checkContent filePath content) with
  | inr r => Report r
  | inl error =>
      CheckError filePath (js "Error checking file: " ++ err_message error)
  end.

(* ------------------------------------------------------------------ *)
(** *** The scan: [runValidationCheckerTool] *)

(** What the tool sees of the outside world. *)
Record Env := {
  projectRoot : jsstring;     (* [path.join(process.cwd(), '..')] *)
  path_join : jsstring -> jsstring -> jsstring;
  path_relative : jsstring -> jsstring -> jsstring;
  existsSync : jsstring -> bool;
  statIsDirectory : jsstring -> result bool;  (* [fs.statSync(p).isDirectory()] *)
  globSync : jsstring -> result (list jsstring);
  readFile : jsstring -> result jsstring      (* [fs.promises.readFile(p, 'utf-8')] *)
}.

Record Args := {
  target : option jsstring;
  fix_ : option bool
}.

Record ContentBlock := { c_type : jsstring; c_text : jsstring }.

(** The [content] array of a tool response. *)
Definition Response := list ContentBlock.

Definition text_response (t : jsstring) : Response :=
  [{| c_type := js "text"; c_text := t |}].

(** [l[i] = v] for an index inside the array. *)
Fixpoint update {A} (i : nat) (v : A) (l : list A) : list A :=
  match l, i with
  | [], _ => []
  | _ :: t, 0 => v :: t
  | x :: t, S i' => x :: update i' v t
  end.

Fixpoint all_settled {A} (slots : list (option A)) : option (list A) :=
  match slots with
  | [] => Some []
  | None :: _ => None
  | Some v :: t =>
      match all_settled t with
      | Some l => Some (v :: l)
      | None => None
      end
  end.

(** [Promise.all(tasks)] for promises that never reject: the promise of
    index [i] fulfils with [nth i values] and stores it in slot [i] of the
    result array; [order] is the order in which the promises complete.  The
    result is [None] as long as a slot is empty. *)
Definition settle {A} (values : list A) (slots : list (option A)) (i : nat)
    : list (option A) :=
  match nth_error values i with
  | Some v => update i (Some v) slots
  | None => slots
  end.

Definition Promise_all {A} (order : list nat) (values : list A)
    : option (list A) :=
  all_settled (fold_left (settle values) order (repeat None (length values))).

(** [results.filter(result => result.issueCount > 0)]: an error object has
    no [issueCount], and [undefined > 0] is false. *)
Definition withIssues (results : list CheckResult) : list FileReport :=
  flat_map (fun r => match r with
                     | Report f => if Nat.ltb 0 (issueCount f) then [f] else []
                     | CheckError _ _ => []
                     end) results.

(** [Array.prototype.sort(cmp)], a stable sort: an element is placed before
    the first later element it does not have to follow. *)
Fixpoint insert_by {A} (cmp : A -> A -> Z) (x : A) (l : list A) : list A :=
  match l with
  | [] => [x]
  | y :: t => if Z.leb (cmp x y) 0 then x :: l else y :: insert_by cmp x t
  end.

Fixpoint sort_by {A} (cmp : A -> A -> Z) (l : list A) : list A :=
  match l with
  | [] => []
  | x :: t => insert_by cmp x (sort_by cmp t)
  end.

(** [(a, b) => b.issueCount - a.issueCount] *)
Definition byIssueCount (a b : FileReport) : Z :=
  (Z.of_nat (issueCount b) - Z.of_nat (issueCount a))%Z.

Record Offender := { o_path : jsstring; o_issueCount : nat }.

Record Detail := {
  d_path : jsstring;
  d_issues : list Issue;
  d_suggestedFix : option jsstring
}.

Record Summary := {
  filesScanned : nat;
  filesWithIssues : nat;
  totalIssues : nat;
  highSeverityIssues : nat;
  mostProblematicFiles : list Offender;
  detail : list Detail
}.

Definition summarize (env : Env) (files : list jsstring)
    (results : list CheckResult) : Summary :=
  let filesWithIssues := withIssues results in
  let totalIssues :=
    fold_left (fun total file => total + issueCount file) filesWithIssues 0 in
  let filesWithIssues := sort_by byIssueCount filesWithIssues in
  {| filesScanned := length files;
     filesWithIssues := length filesWithIssues;
     totalIssues := totalIssues;
     highSeverityIssues :=
       fold_left
         (fun count file =>
            count + length (filter (fun issue => severity_eqb (i_severity issue) high)
                              (issues file)))
         filesWithIssues 0;
     mostProblematicFiles :=
       map (fun file =>
              {| o_path := path_relative env (projectRoot env) (path file);
                 o_issueCount := issueCount file |})
         (firstn 5 filesWithIssues);
     detail :=
       map (fun file =>
              {| d_path := path_relative env (projectRoot env) (path file);
                 d_issues := issues file;
                 d_suggestedFix := suggestedFix file |})
         filesWithIssues |}.

Definition json_of_issue (i : Issue) : json :=
  JObj [(js "pattern", JStr (i_pattern i));
        (js "message", JStr (i_message i));
        (js "severity", JStr (severity_text (i_severity i)));
        (js "line", JNum (i_line i));
        (js "content", JStr (i_content i));
        (js "suggestion", JStr (i_suggestion i))].

Definition json_of_summary (s : Summary) : json :=
  JObj [(js "filesScanned", JNum (filesScanned s));
        (js "filesWithIssues", JNum (filesWithIssues s));
        (js "totalIssues", JNum (totalIssues s));
        (js "highSeverityIssues", JNum (highSeverityIssues s));
        (js "mostProblematicFiles",
         JArr (map (fun o => JObj [(js "path", JStr (o_path o));
                                   (js "issueCount", JNum (o_issueCount o))])
                 (mostProblematicFiles s)));
        (js "detail",
         JArr (map (fun d => JObj [(js "path", JStr (d_path d));
                                   (js "issues", JArr (map json_of_issue (d_issues d)));
                                   (js "suggestedFix",
                                    match d_suggestedFix d with
                                    | Some t => JStr t
                                    | None => JNull
                                    end)])
                 (detail s)))].

(** The file list of a scan: [inl] is the early "Target not found" return. *)
Definition selectFiles (env : Env) (tgt targetPath : jsstring)
    : result (Response + list jsstring) :=
  isDirectory <- (if existsSync env targetPath
                  then statIsDirectory env targetPath else inr false) ;;
  if isDirectory : bool then
    files <- globSync env (targetPath ++ js "/**/*.{tsx,jsx,ts,js}") ;;
    inr (inr files)
  else if existsSync env targetPath then inr (inr [targetPath])
  else inr (inl (text_response (js "Target not found: " ++ tgt))).

(** [error.message || error] inside a template literal. *)
Definition error_text (e : exn) : jsstring :=
  match err_message e with
  | [] => err_name e
  | m => m
  end.

(** [args.target || 'src/components']: the empty string is falsy. *)
Definition targetOf (args : Args) : jsstring :=
  match target args with
  | Some (c :: t) => c :: t
  | _ => js "src/components"
  end.

(** [runValidationCheckerTool(args)].  [order] is the order in which the
    [checkFile] promises complete; the result is [None] when
    [Promise.all] never settles. *)
Definition runValidationCheckerTool (env : Env) (order : list nat) (args : Args)
    : option Response :=
  let tgt := targetOf args in
  let fix_ := match fix_ args with
              | Some b => b
              | None => false
              end in
  let targetPath := path_join env (projectRoot env) tgt in
  match selectFiles env tgt targetPath with
  | inl error =>
      Some (text_response
              (js "Error scanning for validation issues: " ++ error_text error))
  | inr (inl notFound) => Some notFound
  | inr (inr files) =>
      match Promise_all order (map (checkFile (readFile env)) files) with
      | None => None
      | Some results =>
          Some (text_response (JSON_stringify (json_of_summary (summarize env files results))))
      end
  end.

End Checker.

(* ================================================================== *)
(** ** [src/tools/fileAnalyzer.ts]: [analyzeValidationUsage] *)
(* ================================================================== *)

Module Analyzer.
Import JS.

Record Analysis := {
  usesValidationService : bool;
  usesFormatterService : bool;
  validationImports : list jsstring;
  validationMethods : list (option jsstring);
  formatterMethods : list (option jsstring);
  potentialIssues : list jsstring
}.

Definition quotes : list char := [39%N; 34%N].

(** [/import\s+.*from\s+['"]@\/lib\/validation['"]/g] *)
Definition validationImportRegex : RegExp :=
  {| re := RSeqs [RStr "import"; RPlus CSpace; RStar CAny; RStr "from";
                  RPlus CSpace; RChar (COneOf quotes); RStr "@/lib/validation";
                  RChar (COneOf quotes)];
     ignoreCase := false; global := true;
     source := js "import\s+.*from\s+['" ++ [34%N] ++ js "]@\/lib\/validation['"
               ++ [34%N] ++ js "]" |}.

(** [/ValidationService\.([\w]+)/g] *)
Definition validationMethodRegex : RegExp :=
  {| re := RSeqs [RStr "ValidationService."; RGroup 1 (RPlus CWord)];
     ignoreCase := false; global := true;
     source := js "ValidationService\.([\w]+)" |}.

(** [/FormatterService\.([\w]+)/g] *)
Definition formatterMethodRegex : RegExp :=
  {| re := RSeqs [RStr "FormatterService."; RGroup 1 (RPlus CWord)];
     ignoreCase := false; global := true;
     source := js "FormatterService\.([\w]+)" |}.

Definition inlineValidationPatterns : list RegExp :=
  [ {| re := RStr ".test("; ignoreCase := false; global := false;
       source := js "\.test\(" |};
    {| re := RStr ".match("; ignoreCase := false; global := false;
       source := js "\.match\(" |};
    {| re := RStr ".replace("; ignoreCase := false; global := false;
       source := js "\.replace\(" |} ].

Definition opt_eqb (a b : option jsstring) : bool :=
  match a, b with
  | Some x, Some y => str_eqb x y
  | None, None => true
  | _, _ => false
  end.

(** The [while ((match = regex.exec(content)) !== null)] loops: [match[1]]
    is pushed unless the array already has it.  Neither pattern matches the
    empty string, so [lastIndex] always moves forward. *)
Definition collectMethods (p : RegExp) (content : jsstring)
    : list (option jsstring) :=
  fold_left
    (fun methods m =>
       let m1 := nth 0 (m_groups m) None in
       if existsb (opt_eqb m1) methods then methods else methods ++ [m1])
    (matches_g p content) [].

Definition analyzeValidationUsage (content : jsstring) : Analysis :=
  let validationImportMatches :=
    match match_global validationImportRegex content with
    | Some l => l
    | None => []
    end in
  if Nat.ltb 0 (length validationImportMatches) then
    let usesV := includes content (js "ValidationService") in
    let usesF := includes content (js "FormatterService") in
    {| usesValidationService := usesV;
       usesFormatterService := usesF;
       validationImports := validationImportMatches;
       validationMethods :=
         if usesV then collectMethods validationMethodRegex content else [];
       formatterMethods :=
         if usesF then collectMethods formatterMethodRegex content else [];
       potentialIssues :=
         if existsb (fun p => test p content) inlineValidationPatterns
         then [js "Possibly contains inline validation/formatting that could be moved to centralized services"]
         else [] |}
  else
    {| usesValidationService := false;
       usesFormatterService := false;
       validationImports := [];
       validationMethods := [];
       formatterMethods := [];
       potentialIssues := [] |}.

(* ------------------------------------------------------------------ *)
(** *** [analyzeImports] and [analyzeExports] *)

(** The text of the capture group [n] of a match.  In the patterns below
    every group read this way takes part in every match, so the branch for
    [undefined] is never taken. *)
Definition group (n : nat) (m : MatchResult) : jsstring :=
  match nth (n - 1) (m_groups m) None with
  | Some t => t
  | None => js "undefined"
  end.

Definition isEmpty (t : jsstring) : bool :=
  match t with
  | [] => true
  | _ :: _ => false
  end.

(** [str.split(',').map(s => s.trim()).filter(s => s !== '')] *)
Definition splitList (str : jsstring) : list jsstring :=
  filter (fun t => negb (isEmpty t)) (map trim (split_on 44%N str)).

Definition quoteChars : list char := [39%N; 34%N].
Definition closeBrace : char := 125%N.

(** [/import\s+{([^}]+)}\s+from\s+Q([^Q]+)Q/g], where [Q] stands for
    the class of the two quote characters. *)
Definition importRegex : RegExp :=
  {| re := RSeqs [RStr "import"; RPlus CSpace; RStr "{";
                  RGroup 1 (RPlus (CNoneOf [closeBrace])); RStr "}";
                  RPlus CSpace; RStr "from"; RPlus CSpace;
                  RChar (COneOf quoteChars);
                  RGroup 2 (RPlus (CNoneOf quoteChars));
                  RChar (COneOf quoteChars)];
     ignoreCase := false; global := true;
     source := js "import\s+{([^}]+)}\s+from\s+['" ++ [34%N] ++ js "]([^'"
               ++ [34%N] ++ js "]+)['" ++ [34%N] ++ js "]" |}.

(** [/import\s+(\w+)\s+from\s+Q([^Q]+)Q/g], with [Q] as above. *)
Definition defaultImportRegex : RegExp :=
  {| re := RSeqs [RStr "import"; RPlus CSpace; RGroup 1 (RPlus CWord);
                  RPlus CSpace; RStr "from"; RPlus CSpace;
                  RChar (COneOf quoteChars);
                  RGroup 2 (RPlus (CNoneOf quoteChars));
                  RChar (COneOf quoteChars)];
     ignoreCase := false; global := true;
     source := js "import\s+(\w+)\s+from\s+['" ++ [34%N] ++ js "]([^'"
               ++ [34%N] ++ js "]+)['" ++ [34%N] ++ js "]" |}.

Record ImportEntry := {
  imp_source : jsstring;
  imp_specifiers : list jsstring
}.

(** [analyzeImports(content)]: the [imports] array. *)
Definition analyzeImports (content : jsstring) : list ImportEntry :=
  map (fun m => {| imp_source := group 2 m;
                   imp_specifiers := splitList (group 1 m) |})
      (matches_g importRegex content)
  ++ map (fun m => {| imp_source := group 2 m;
                      imp_specifiers := [group 1 m ++ js " (default)"] |})
       (matches_g defaultImportRegex content).

(** [/export\s+(?:const|function|class|let|var|type|interface|enum)\s+(\w+)/g] *)
Definition exportRegex : RegExp :=
  {| re := RSeqs [RStr "export"; RPlus CSpace;
                  RAlts [RStr "const"; RStr "function"; RStr "class";
                         RStr "let"; RStr "var"; RStr "type";
                         RStr "interface"; RStr "enum"];
                  RPlus CSpace; RGroup 1 (RPlus CWord)];
     ignoreCase := false; global := true;
     source := js "export\s+(?:const|function|class|let|var|type|interface|enum)\s+(\w+)" |}.

(** [/export\s+{([^}]+)}/g] *)
Definition exportFromPatternRegex : RegExp :=
  {| re := RSeqs [RStr "export"; RPlus CSpace; RStr "{";
                  RGroup 1 (RPlus (CNoneOf [closeBrace])); RStr "}"];
     ignoreCase := false; global := true;
     source := js "export\s+{([^}]+)}" |}.

(** [/export\s+default\s+(?:function|class)?\s*(\w+)?/] *)
Definition defaultExportRegex : RegExp :=
  {| re := RSeqs [RStr "export"; RPlus CSpace; RStr "default"; RPlus CSpace;
                  ROpt (RAlts [RStr "function"; RStr "class"]);
                  RStar CSpace; ROpt (RGroup 1 (RPlus CWord))];
     ignoreCase := false; global := false;
     source := js "export\s+default\s+(?:function|class)?\s*(\w+)?" |}.

Record ExportsAnalysis := {
  exports : list jsstring;
  defaultExport : option jsstring
}.

(** [defaultMatch[1] || 'anonymous'] *)
Definition nameOrAnonymous (g : option jsstring) : jsstring :=
  match g with
  | Some (c :: t) => c :: t
  | _ => js "anonymous"
  end.

(** [analyzeExports(content)] *)
Definition analyzeExports (content : jsstring) : ExportsAnalysis :=
  {| exports :=
       map (group 1) (matches_g exportRegex content)
       ++ flat_map (fun m => splitList (group 1 m))
            (matches_g exportFromPatternRegex content);
     defaultExport :=
       match match_first defaultExportRegex content with
       | Some defaultMatch => Some (nameOrAnonymous (nth 1 defaultMatch None))
       | None => None
       end |}.

(* ------------------------------------------------------------------ *)
(** *** [runFileAnalyzerTool] *)

Inductive AnalysisKind := basic | validation | imports | exports_ | dependencies.

Record AnalyzerArgs := {
  filePath : jsstring;
  analysis : option AnalysisKind
}.

(** [path.extname] and [path.basename] of Node. *)
Record PathLib := {
  path_extname : jsstring -> jsstring;
  path_basename : jsstring -> jsstring
}.

Definition upper : list char := char_range 65%N 90%N.
Definition alnum : list char :=
  char_range 97%N 122%N ++ char_range 65%N 90%N ++ char_range 48%N 57%N.

(** The pattern of component file names: a group holding an upper-case
    letter and any number of letters and digits, then [.ts] and an optional
    [x], between the anchors [^] and [$] (see [source]); [re] is the pattern
    without the anchors. *)
Definition componentFileRegex : RegExp :=
  {| re := RSeqs [RGroup 1 (RSeq (RChar (COneOf upper)) (RStar (COneOf alnum)));
                  RStr ".ts"; ROpt (RChar (CChar 120%N))];
     ignoreCase := false; global := false;
     source := js "^([A-Z][a-zA-Z0-9]*)\.tsx?$" |}.

(** [/interface\s+([A-Z][a-zA-Z0-9]*Props)/] *)
Definition propsInterfaceRegex : RegExp :=
  {| re := RSeqs [RStr "interface"; RPlus CSpace;
                  RGroup 1 (RSeqs [RChar (COneOf upper); RStar (COneOf alnum);
                                   RStr "Props"])];
     ignoreCase := false; global := false;
     source := js "interface\s+([A-Z][a-zA-Z0-9]*Props)" |}.

(** The [result] object; a field that was not assigned is [None]. *)
Record FileAnalysis := {
  r_filePath : jsstring;
  r_size : nat;
  r_lines : nat;
  r_preview : option jsstring;
  r_extension : option jsstring;
  r_imports : option (list ImportEntry);
  r_exports : option ExportsAnalysis;
  r_isReactComponent : option bool;
  r_componentName : option (option jsstring);
  r_propsInterface : option (option jsstring);
  r_usesValidation : option bool;
  r_validation : option Analysis
}.

(** The body of the [try] block once the file was read. *)
Definition analyzeContent (lib : PathLib) (args : AnalyzerArgs)
    (content : jsstring) : FileAnalysis :=
  let result :=
    {| r_filePath := filePath args;
       r_size := length content;
       r_lines := length (split_nl content);
       r_preview := None; r_extension := None; r_imports := None;
       r_exports := None; r_isReactComponent := None;
       r_componentName := None; r_propsInterface := None;
       r_usesValidation := None; r_validation := None |} in
  let set_base (preview extension : option jsstring)
               (imps : option (list ImportEntry)) (exps : option ExportsAnalysis)
               (react : option (option jsstring * option (option jsstring)))
               (valid : option Analysis) (uses : option bool) :=
    {| r_filePath := r_filePath result; r_size := r_size result;
       r_lines := r_lines result;
       r_preview := preview; r_extension := extension; r_imports := imps;
       r_exports := exps;
       r_isReactComponent := match react with
                             | Some _ => Some true
                             | None => None
                             end;
       r_componentName := option_map fst react;
       r_propsInterface := match react with
                           | Some (_, p) => p
                           | None => None
                           end;
       r_usesValidation := uses; r_validation := valid |} in
  match analysis args with
  | Some validation =>
      set_base None None None None None (Some (analyzeValidationUsage content)) None
  | Some imports =>
      set_base None None (Some (analyzeImports content)) None None None None
  | Some exports_ =>
      set_base None None None (Some (analyzeExports content)) None None None
  | Some dependencies =>
      set_base None None (Some (analyzeImports content)) None None
        (Some (analyzeValidationUsage content)) None
  | Some basic | None =>
      let lines := split_nl content in
      let preview := join_with [LF] (firstn (Nat.min 20 (length lines)) lines) in
      let react :=
        if includes content (js "import React")
           || includes content (js "from 'react'")
        then match match_whole componentFileRegex
                     (path_basename lib (filePath args)) with
             | Some componentNameMatch =>
                 Some (nth 1 componentNameMatch None,
                       match match_first propsInterfaceRegex content with
                       | Some propsTypeMatch => Some (nth 1 propsTypeMatch None)
                       | None => None
                       end)
             | None => None
             end
        else None in
      let usesValidation :=
        includes content (js "ValidationService")
        || includes content (js "FormatterService") in
      set_base (Some preview) (Some (path_extname lib (filePath args)))
        (Some (analyzeImports content)) None react
        (if usesValidation then Some (analyzeValidationUsage content) else None)
        (if usesValidation then Some true else None)
  end.

Import Json.

Definition json_strings (l : list jsstring) : json := JArr (map JStr l).

(** An array entry or a property value that may be [undefined]. *)
Definition json_entry (x : option jsstring) : json :=
  match x with
  | Some t => JStr t
  | None => JNull
  end.

Definition json_of_validation (a : Analysis) : json :=
  JObj [(js "usesValidationService", JBool (usesValidationService a));
        (js "usesFormatterService", JBool (usesFormatterService a));
        (js "validationImports", json_strings (validationImports a));
        (js "validationMethods", JArr (map json_entry (validationMethods a)));
        (js "formatterMethods", JArr (map json_entry (formatterMethods a)));
        (js "potentialIssues", json_strings (potentialIssues a))].

Definition json_of_imports (l : list ImportEntry) : json :=
  JObj [(js "imports",
         JArr (map (fun e => JObj [(js "source", JStr (imp_source e));
                                   (js "specifiers", json_strings (imp_specifiers e))])
                 l))].

Definition json_of_exports (e : ExportsAnalysis) : json :=
  JObj [(js "exports", json_strings (exports e));
        (js "defaultExport", json_entry (defaultExport e))].

(** A property is written only when it has a value. *)
Definition property {A} (key : string) (f : A -> json) (x : option A)
    : list (jsstring * json) :=
  match x with
  | Some v => [(js key, f v)]
  | None => []
  end.

Definition property_opt (key : string) (x : option (option jsstring))
    : list (jsstring * json) :=
  match x with
  | Some (Some t) => [(js key, JStr t)]
  | _ => []
  end.

Definition json_of_result (r : FileAnalysis) : json :=
  JObj ([(js "filePath", JStr (r_filePath r));
         (js "size", JNum (r_size r));
         (js "lines", JNum (r_lines r))]
        ++ property "preview" JStr (r_preview r)
        ++ property "extension" JStr (r_extension r)
        ++ property "imports" json_of_imports (r_imports r)
        ++ property "exports" json_of_exports (r_exports r)
        ++ property "isReactComponent" JBool (r_isReactComponent r)
        ++ property_opt "componentName" (r_componentName r)
        ++ property_opt "propsInterface" (r_propsInterface r)
        ++ property "usesValidation" JBool (r_usesValidation r)
        ++ property "validation" json_of_validation (r_validation r)).

(** [runFileAnalyzerTool(args)] *)
Definition runFileAnalyzerTool (env : Checker.Env) (lib : PathLib)
    (args : AnalyzerArgs) : Checker.Response :=
  let projectRoot := Checker.projectRoot env in
  let fullPath := Checker.path_join env projectRoot (filePath args) in
  if negb (Checker.existsSync env fullPath) then
    Checker.text_response (js "File not found: " ++ filePath args)
  else
    match Checker.readFile env fullPath with
    | inr content =>
        Checker.text_response
          (JSON_stringify (json_of_result (analyzeContent lib args content)))
    | inl error =>
        Checker.text_response
          (js "Error analyzing file " ++ filePath args ++ js ": "
           ++ Checker.error_text error)
    end.

End Analyzer.

(* ================================================================== *)
(** ** The documentation search: [extractSnippet] *)
(* ================================================================== *)

Module Docs.
Import JS.

Definition maxSnippetLength : nat := 200.

(** [arr.slice(a, b)] for indices inside the array. *)
Definition slice {A} (a b : nat) (l : list A) : list A :=
  firstn (b - a) (skipn a l).

(** The snippet built around the line of index [i]. *)
Definition snippetAt (lines : list jsstring) (i : nat) : jsstring :=
  let start := Nat.max 0 (i - 1) in
  let end_ := Nat.min (length lines - 1) (i + 1) in
  let snippet := join_with [LF] (slice start (end_ + 1) lines) in
  if Nat.ltb maxSnippetLength (length snippet)
  then firstn (maxSnippetLength - 3) snippet ++ js "..."
  else snippet.

(** The [for] loop of [extractSnippet] from the index [i] on.
    [toLowerCase] is [String.prototype.toLowerCase]; the fuel bounds the
    number of rounds, and the index grows at every round. *)
Fixpoint snippetLoop (fuel : nat) (toLowerCase : jsstring -> jsstring)
    (lines : list jsstring) (searchTerms : list jsstring) (i : nat)
    : list jsstring :=
  match fuel with
  | 0 => []
  | S fuel' =>
      if Nat.ltb i (length lines) then
        let line := toLowerCase (nth i lines []) in
        if existsb (fun term => includes line term) searchTerms
        then snippetAt lines i
             :: snippetLoop fuel' toLowerCase lines searchTerms (i + 1 + 1)
        else snippetLoop fuel' toLowerCase lines searchTerms (i + 1)
      else []
  end.

(** [extractSnippet(content, searchTerms)] *)
Definition extractSnippet (toLowerCase : jsstring -> jsstring)
    (content : jsstring) (searchTerms : list jsstring) : list jsstring :=
  let lines := split_nl content in
  snippetLoop (length lines) toLowerCase lines searchTerms 0.

End Docs.

(* ================================================================== *)
(** ** Vocabulary of the statements, and sample file trees *)
(* ================================================================== *)

Module Props.
Import JS Json Checker.

(** The Issue [checkFile] builds for the text [m] of a match-array entry
    found on the line of index [k]. *)
Definition issueAt (content : jsstring) (uv uf : bool) (d : Detector)
    (m : jsstring) (k : nat) : Issue :=
  {| i_pattern := toString (pattern d);
     i_message := message d;
     i_severity := severity d;
     i_line := k + 1;
     i_content := trim (nth k (split_nl content) []);
     i_suggestion := suggestionFor m uv uf |}.

(** [line] is the line of index [k] of [content]: it lies between two line
    feeds (or the ends of the text), has none itself, and exactly [k] line
    feeds come before it. *)
Definition line_at (content : jsstring) (k : nat) (line : jsstring) : Prop :=
  exists pre post,
    content = pre ++ line ++ post
    /\ count_nl pre = k
    /\ (pre = [] \/ exists pre', pre = pre' ++ [LF])
    /\ (post = [] \/ exists post', post = LF :: post')
    /\ count_nl line = 0.

(** [line], of index [k], is the first element of [content.split('\n')]
    that contains [m]. *)
Definition first_line_with (content m : jsstring) (k : nat) (line : jsstring)
    : Prop :=
  nth_error (split_nl content) k = Some line
  /\ includes line m = true
  /\ forall j l, j < k -> nth_error (split_nl content) j = Some l ->
                 includes l m = false.

(** The Issue [i] was built from a string entry of the match array [ms]
    of detector [d], at the line [findIndex] returned for it. *)
Definition from_match (content : jsstring) (uv uf : bool) (d : Detector)
    (ms : list (option jsstring)) (i : Issue) : Prop :=
  exists m k,
    In (Some m) ms
    /\ findIndex (fun line => includes line m) (split_nl content) = Some k
    /\ i = issueAt content uv uf d m k.

(** The Issue [i] comes from one of the detectors [ds]. *)
Definition from_detectors (content : jsstring) (uv uf : bool)
    (ds : list Detector) (i : Issue) : Prop :=
  exists d ms,
    In d ds /\ match_first (pattern d) content = Some ms
    /\ from_match content uv uf d ms i.

(** The capture groups that every successful match of [r] has set. *)
Fixpoint always_sets (r : regex) : list nat :=
  match r with
  | RSeq a b => always_sets a ++ always_sets b
  | RAlt a b =>
      filter (fun n => existsb (Nat.eqb n) (always_sets b)) (always_sets a)
  | RGroup n a => n :: always_sets a
  | _ => []
  end.

(** No capture group of the pattern can be left [undefined]. *)
Definition groups_always_set (p : RegExp) : bool :=
  forallb (fun n => existsb (Nat.eqb n) (always_sets (re p)))
    (seq 1 (ngroups (re p))).

Definition has (n : nat) (cs : captures) : bool :=
  match capture n cs with
  | Some _ => true
  | None => false
  end.

Definition defined (x : option jsstring) : Prop := x <> None.

(** The texts of all the matches of a pattern in a text, left to right,
    and the distinct ones among them. *)
Definition all_matches (p : RegExp) (content : jsstring) : list jsstring :=
  map m_text (matches_g p content).

Definition distinct_matches (p : RegExp) (content : jsstring) : list jsstring :=
  nodup (list_eq_dec N.eq_dec) (all_matches p content).

(** The Issues one detector adds to a file's list. *)
Definition detectorIssues (content : jsstring) (d : Detector)
    : result (list Issue) :=
  checkDetector content (includes content (js "ValidationService"))
    (includes content (js "FormatterService")) [] d.

(** An order of completion in which each of [n] promises completes once. *)
Definition complete_order (n : nat) (order : list nat) : Prop :=
  Permutation order (seq 0 n).

(** The files a call scans, when it gets as far as scanning. *)
Definition scannedFiles (env : Env) (args : Args) : option (list jsstring) :=
  match selectFiles env (targetOf args)
          (path_join env (projectRoot env) (targetOf args)) with
  | inr (inr files) => Some files
  | _ => None
  end.

(** [s] occurs in [t]. *)
Definition substring (s t : jsstring) : Prop := exists a b, t = a ++ s ++ b.

(** No atom of the pattern accepts a line feed: a match cannot span two
    lines. *)
Fixpoint lf_free (ic : bool) (r : regex) : bool :=
  match r with
  | REmpty | RWordB => true
  | RChar c | RStar c | RLazyStar c | RPlus c => negb (cmatch ic c LF)
  | RSeq a b | RAlt a b => lf_free ic a && lf_free ic b
  | RGroup _ a => lf_free ic a
  end.

Definition one_line (p : RegExp) : bool := lf_free (ignoreCase p) (re p).

(** The number of entries of the array [content.match(p)] returns for a
    pattern without the [g] flag that matches. *)
Definition match_array_length (p : RegExp) : nat := S (ngroups (re p)).

(** No white space at either end. *)
Definition trimmed (t : jsstring) : Prop :=
  match t with
  | [] => True
  | c :: _ => isSpace c = false /\ isSpace (last t c) = false
  end.

(** The last detector matched through its second alternative, the arrow
    [=> {], which leaves its capture group [undefined], and the text
    contains the word [undefined]. *)
Definition arrow_and_undefined_word (content : jsstring) : bool :=
  match match_first (pattern custom_validation) content with
  | Some [_; None] => includes content (js "undefined")
  | _ => false
  end.

(** The message of the error object [checkFile] returns when
    [getSuggestion] was called on [undefined]. *)
Definition undefined_match_error : jsstring :=
  js "Error checking file: Cannot read properties of undefined (reading 'includes')".

Definition isHigh (i : Issue) : bool := severity_eqb (i_severity i) high.

(** The text of a pattern made of literal characters only. *)
Fixpoint lit_of (r : regex) : option jsstring :=
  match r with
  | REmpty => Some []
  | RChar (CChar c) => Some [c]
  | RSeq a b =>
      match lit_of a, lit_of b with
      | Some s, Some t => Some (s ++ t)
      | _, _ => None
      end
  | _ => None
  end.

(** Literal texts that every match of the pattern contains (for a pattern
    without the [i] flag). *)
Fixpoint must_contain (r : regex) : list jsstring :=
  match lit_of r with
  | Some s => [s]
  | None =>
      match r with
      | RSeq a b => must_contain a ++ must_contain b
      | RGroup _ a => must_contain a
      | _ => []
      end
  end.

(** The value of the analysis of a text that does not import the helper
    module. *)
Definition no_usage : Analyzer.Analysis :=
  {| Analyzer.usesValidationService := false;
     Analyzer.usesFormatterService := false;
     Analyzer.validationImports := [];
     Analyzer.validationMethods := [];
     Analyzer.formatterMethods := [];
     Analyzer.potentialIssues := [] |}.

(** The method names of the string-method detector, in the order of the
    pattern. *)
Definition string_method_names : list jsstring :=
  [js "substring"; js "substr"; js "slice"; js "trim"; js "replace";
   js "replaceAll"; js "padStart"; js "padEnd"; js "toLowerCase";
   js "toUpperCase"].

(** The names for which [getSuggestion] proposes the formatting service. *)
Definition formatter_names : list jsstring :=
  [js "substring"; js "trim"; js "replace"; js "replaceAll"].

(** [t] is [line] without the white space at its two ends. *)
Definition trim_of (line t : jsstring) : Prop :=
  exists a b,
    line = a ++ t ++ b
    /\ Forall (fun c => isSpace c = true) a
    /\ Forall (fun c => isSpace c = true) b
    /\ trimmed t.

(** No line of [content] contains [m]. *)
Definition no_line_contains (content m : jsstring) : Prop :=
  forall j l, line_at content j l -> ~ substring m l.

(** [line], of index [k], is the first line of [content] in which [m]
    occurs. *)
Definition first_line_containing (content m : jsstring) (k : nat)
    (line : jsstring) : Prop :=
  line_at content k line
  /\ substring m line
  /\ forall j l, j < k -> line_at content j l -> ~ substring m l.

(** [i] is the Issue of detector [d] for the text [m]: it reports the
    first line that contains [m], by its number and by its trimmed text. *)
Definition issue_for (content : jsstring) (uv uf : bool) (d : Detector)
    (m : jsstring) (i : Issue) : Prop :=
  exists k line,
    first_line_containing content m k line
    /\ i_line i = k + 1
    /\ trim_of line (i_content i)
    /\ i_pattern i = toString (pattern d)
    /\ i_message i = message d
    /\ i_severity i = severity d
    /\ getSuggestion (Some m) d uv uf = inr (i_suggestion i).

(** The Issues emitted for a sequence of match-array entries, each with
    its detector: in the order of the entries, one Issue for an entry that
    some line contains, none for an entry that no line contains. *)
Inductive emitted (content : jsstring) (uv uf : bool)
    : list (Detector * option jsstring) -> list Issue -> Prop :=
| emitted_nil : emitted content uv uf [] []
| emitted_issue d m es i is_ :
    issue_for content uv uf d m i ->
    emitted content uv uf es is_ ->
    emitted content uv uf ((d, Some m) :: es) (i :: is_)
| emitted_none d o es is_ :
    no_line_contains content (to_search_string o) ->
    emitted content uv uf es is_ ->
    emitted content uv uf ((d, o) :: es) is_.

(** The entries of the array [content.match(issue.pattern)] returns for
    one detector, and for all of them in the order in which the two loops
    of [checkFile] visit them. *)
Definition detector_entries (content : jsstring) (d : Detector)
    : list (Detector * option jsstring) :=
  match match_first (pattern d) content with
  | Some ms => map (pair d) ms
  | None => []
  end.

Definition match_entries (content : jsstring)
    : list (Detector * option jsstring) :=
  flat_map (detector_entries content) VALIDATION_ISSUES.

(** The reports of [results] that have [c] Issues, in the order of
    [results], which is the order of the file list. *)
Definition reports_with_count (c : nat) (results : list CheckResult)
    : list FileReport :=
  flat_map (fun res => match res with
                       | Report f => if issueCount f =? c then [f] else []
                       | CheckError _ _ => []
                       end) results.

(** The environment [env] with another outcome of [statSync], of
    [globSync] and of [readFile]. *)
Definition with_files (env : Env) (stat : jsstring -> result bool)
    (glob : jsstring -> result (list jsstring))
    (read : jsstring -> result jsstring) : Env :=
  {| projectRoot := projectRoot env;
     path_join := path_join env;
     path_relative := path_relative env;
     existsSync := existsSync env;
     statIsDirectory := stat;
     globSync := glob;
     readFile := read |}.

End Props.

Module Fixtures.
Import JS Json Checker.

Definition tree := list (jsstring * result jsstring).

Fixpoint lookup (t : tree) (p : jsstring) : option (result jsstring) :=
  match t with
  | [] => None
  | (q, r) :: t' => if str_eqb q p then Some r else lookup t' p
  end.

Definition ENOENT : exn :=
  {| err_name := js "Error"; err_message := js "ENOENT: no such file or directory" |}.

Definition EACCES : exn :=
  {| err_name := js "Error"; err_message := js "EACCES: permission denied" |}.

(** A project rooted at [/proj] whose directory [/proj/src/components]
    holds the files of [t] (absolute paths). *)
Definition env_of (t : tree) : Env :=
  {| projectRoot := js "/proj";
     path_join := fun a b => a ++ js "/" ++ b;
     path_relative := fun root p =>
       if starts_with (root ++ js "/") p then skipn (length root + 1) p else p;
     existsSync := fun p =>
       str_eqb p (js "/proj/src/components")
       || match lookup t p with
          | Some _ => true
          | None => false
          end;
     statIsDirectory := fun p => inr (str_eqb p (js "/proj/src/components"));
     globSync := fun _ => inr (map fst t);
     readFile := fun p =>
       match lookup t p with
       | Some r => r
       | None => inl ENOENT
       end |}.

Definition lines_of (ls : list jsstring) : jsstring := join [LF] ls.

Definition a_ts : jsstring := js "/proj/src/a.ts".

(** The project whose only file is [/proj/src/a.ts], with the given text. *)
Definition one_file (content : jsstring) : Env := env_of [(a_ts, inr content)].

(** The same project when the file cannot be read. *)
Definition unreadable : Env := env_of [(a_ts, inl EACCES)].

Definition scan_default : Args := {| target := None; fix_ := None |}.

Definition scan_file (p : string) : Args :=
  {| target := Some (js p); fix_ := None |}.

(** A file with one [.match(/x/)] call and one [.trim()] call. *)
Definition match_and_trim : jsstring :=
  lines_of [js "const a = s.match(/x/)"; js "const b = s.trim()"].

Definition one_test : jsstring := js "if (x.test(/^[a-z]+$/)) {}".

(** A call of [.test] whose argument starts on the next line. *)
Definition test_over_two_lines : jsstring :=
  lines_of [js "ok = x.test("; js "  /a/)"].

Definition two_tests : jsstring :=
  lines_of [js "a.test(/a/)"; js "b.test(/b/)"].

Definition one_trim : jsstring := js "s.trim()".

Definition arrow_and_undefined : jsstring :=
  lines_of [js "const f = () => {"; js "  return undefined"; js "}"].

(** The field-name detector matches on the third line; the second line,
    indented and with white space at its end, contains the matched text. *)
Definition earlier_line : jsstring :=
  lines_of [js "import x"; js "  // myemail valid  "; js "email valid"].

(** The same call of [.test] on two lines. *)
Definition same_test_twice : jsstring :=
  lines_of [js "a.test(/x/)"; js "b.test(/x/)"].

Definition b_ts : jsstring := js "/proj/src/components/b.ts".

Definition c_ts : jsstring := js "/proj/src/components/c.ts".

(** A components directory with two files. *)
Definition two_files : Env :=
  env_of [(b_ts, inr match_and_trim); (c_ts, inr one_test)].

Definition d_ts : jsstring := js "/proj/src/components/d.ts".

(** A components directory with three files, the first and the last with
    one Issue each, the second with three. *)
Definition three_files : Env :=
  env_of [(b_ts, inr one_test); (c_ts, inr match_and_trim);
          (d_ts, inr one_test)].

(** The formatting service is named, the helper module is not imported. *)
Definition token_without_import : jsstring :=
  js "const t = FormatterService.pad(s.padEnd(3))".

(** Where the first match of the field-name detector starts. *)
Definition m_index_of_first (content : jsstring) : option nat :=
  option_map m_index (search (pattern field_validation) 0 None content).

(** A file on which every detector matches and every entry of every match
    array is found on a line. *)
Definition every_detector : jsstring :=
  lines_of [js "email is valid";
            js "a.test(/x/)";
            js "b.match(/y/)";
            js "new RegExp(z)";
            js "c.slice(1)";
            js "validate = function () {}"].

Definition grouped_import : jsstring := js "import { a, b as c , } from './x'".

(** Node's [path.extname] and [path.basename] for paths whose last segment
    has one dot at most, which is all the samples need: a segment without
    dot, or whose only dot is its first character (a dot file), has no
    extension. *)
Definition after_last (sep : char) (p : jsstring) : jsstring :=
  last (split_on sep p) [].

Definition sample_paths : Analyzer.PathLib :=
  {| Analyzer.path_extname := fun p =>
       match split_on 46%N (after_last 47%N p) with
       | [_ :: _; ext] => 46%N :: ext
       | _ => []
       end;
     Analyzer.path_basename := after_last 47%N |}.

Definition button_tsx : jsstring :=
  lines_of [js "import React from 'react'";
            js "interface ButtonProps {}";
            js "export const Button = () => FormatterService.x()"].

Definition analyze_basic (p : string) : Analyzer.AnalyzerArgs :=
  {| Analyzer.filePath := js p; Analyzer.analysis := None |}.

End Fixtures.

(* ================================================================== *)
(** ** Facts about the string and array operations *)
(* ================================================================== *)

Module Facts.
Import JS Json Checker Props.

Lemma findIndex_Some {A} (p : A -> bool) (l : list A) (k : nat) :
  findIndex p l = Some k ->
  exists x, nth_error l k = Some x /\ p x = true
            /\ forall j y, j < k -> nth_error l j = Some y -> p y = false.
Proof.
  revert k. induction l as [|a l IH]; simpl; intros k H; [discriminate|].
  destruct (p a) eqn:Ha.
  - injection H as <-. exists a. repeat split; auto. intros j y Hj. lia.
  - destruct (findIndex p l) as [i|] eqn:Hi; [|discriminate].
    injection H as <-. destruct (IH i eq_refl) as (x & Hx & Hp & Hlt).
    exists x. repeat split; auto.
    intros [|j] y Hj Hy; simpl in Hy.
    + injection Hy as <-. exact Ha.
    + apply (Hlt j); auto. lia.
Qed.

Lemma findIndex_None {A} (p : A -> bool) (l : list A) :
  findIndex p l = None <-> (forall x, In x l -> p x = false).
Proof.
  induction l as [|a l IH]; simpl.
  - split; auto. intros _ x [].
  - destruct (p a) eqn:Ha.
    + split; [discriminate|]. intros H. rewrite (H a) in Ha; auto. discriminate.
    + destruct (findIndex p l) eqn:Hi.
      * split; [discriminate|]. intros H.
        assert (Hn : Some n = None) by (apply IH; intros x Hx; apply H; auto).
        discriminate.
      * split; auto. intros _ x [<-|Hx]; auto. apply IH; auto.
Qed.

Lemma findIndex_nth {A} (p : A -> bool) (l : list A) (k : nat) (d : A) :
  findIndex p l = Some k -> nth_error l k = Some (nth k l d).
Proof.
  intros H. destruct (findIndex_Some _ _ _ H) as (x & Hx & _).
  rewrite Hx. f_equal. symmetry. apply nth_error_nth. exact Hx.
Qed.

Lemma split_nl_nonempty (s : jsstring) : split_nl s <> [].
Proof.
  destruct s as [|c t]; simpl; [discriminate|].
  destruct (N.eqb c LF); [discriminate|].
  destruct (split_nl t); discriminate.
Qed.

Lemma count_nl_cons (c : char) (s : jsstring) :
  count_nl (c :: s) = (if N.eqb LF c then 1 else 0) + count_nl s.
Proof. unfold count_nl. cbn [filter]. destruct (N.eqb LF c); reflexivity. Qed.

Lemma count_nl_app (a b : jsstring) :
  count_nl (a ++ b) = count_nl a + count_nl b.
Proof. unfold count_nl. rewrite filter_app, length_app. reflexivity. Qed.

(** Every element of [s.split('\n')] is a line of [s], at its index. *)
Lemma split_nl_line_at (s : jsstring) :
  forall k line, nth_error (split_nl s) k = Some line -> line_at s k line.
Proof.
  induction s as [|c t IH]; intros k line H.
  - simpl in H. destruct k as [|[|k]]; simpl in H; try discriminate.
    injection H as <-. exists [], []. repeat split; auto.
  - simpl in H. destruct (N.eqb c LF) eqn:Hc.
    + apply N.eqb_eq in Hc. subst c. destruct k as [|k]; simpl in H.
      * injection H as <-. exists [], (LF :: t). repeat split; auto.
        right. eauto.
      * destruct (IH k line H) as (pre & post & E & Hn & Hpre & Hpost & Hl).
        exists (LF :: pre), post. repeat split; auto.
        -- rewrite E at 1. reflexivity.
        -- rewrite count_nl_cons, Hn. reflexivity.
        -- right. destruct Hpre as [->|(pre' & ->)].
           ++ exists []. reflexivity.
           ++ exists (LF :: pre'). reflexivity.
    + destruct (split_nl t) as [|l ls] eqn:Hs.
      * exfalso. apply (split_nl_nonempty t). exact Hs.
      * assert (HcLF : N.eqb LF c = false) by (rewrite N.eqb_sym; exact Hc).
        destruct k as [|k]; simpl in H.
        -- injection H as <-.
           destruct (IH 0 l eq_refl) as (pre & post & E & Hn & Hpre & Hpost & Hl).
           assert (pre = []) as ->.
           { destruct Hpre as [->|(pre' & ->)]; auto.
             rewrite count_nl_app in Hn. unfold count_nl at 2 in Hn.
             simpl in Hn. lia. }
           exists [], post. repeat split; auto.
           ++ simpl. f_equal. exact E.
           ++ rewrite count_nl_cons, HcLF, Hl. reflexivity.
        -- destruct (IH (S k) line H) as (pre & post & E & Hn & Hpre & Hpost & Hl).
           exists (c :: pre), post. repeat split; auto.
           ++ simpl. f_equal. exact E.
           ++ rewrite count_nl_cons, HcLF, Hn. reflexivity.
           ++ right. destruct Hpre as [->|(pre' & ->)].
              ** unfold count_nl in Hn. simpl in Hn. discriminate.
              ** exists (c :: pre'). reflexivity.
Qed.

(* ------------------------------------------------------------------ *)
(** *** The matcher: a result comes from the continuation *)

Section MatcherFacts.
Context {R : Type}.
Variable ic : bool.

Lemma star_greedy_inv c (k : cont) rest :
  forall prev cs (res : R),
    star_greedy ic c k prev rest cs = Some res ->
    exists prev' rest', k prev' rest' cs = Some res.
Proof.
  induction rest as [|x xs IH]; simpl; intros prev cs res H; eauto.
  destruct (cmatch ic c x); eauto.
  unfold orElse in H.
  destruct (star_greedy ic c k (Some x) xs cs) eqn:E; eauto.
  injection H as <-. eauto.
Qed.

Lemma star_lazy_inv c (k : cont) rest :
  forall prev cs (res : R),
    star_lazy ic c k prev rest cs = Some res ->
    exists prev' rest', k prev' rest' cs = Some res.
Proof.
  induction rest as [|x xs IH]; simpl; intros prev cs res H;
    unfold orElse in H; destruct (k prev _ cs) eqn:E.
  - injection H as <-. eauto.
  - discriminate.
  - injection H as <-. eauto.
  - destruct (cmatch ic c x); [eauto|discriminate].
Qed.

Lemma has_cons n m s cs : has n cs = true -> has n ((m, s) :: cs) = true.
Proof. unfold has. simpl. destruct (Nat.eqb m n); auto. Qed.

Lemma has_here n s cs : has n ((n, s) :: cs) = true.
Proof. unfold has. simpl. rewrite Nat.eqb_refl. reflexivity. Qed.

Lemma matcher_inv (r : regex) :
  forall (k : cont) prev rest cs (res : R),
    matcher ic r k prev rest cs = Some res ->
    exists prev' rest' cs',
      k prev' rest' cs' = Some res
      /\ forall n, In n (always_sets r) \/ has n cs = true -> has n cs' = true.
Proof.
  induction r as [|c|r1 IH1 r2 IH2|r1 IH1 r2 IH2|c|c|c|g r1 IH1|];
    intros k prev rest cs res H; simpl in H.
  - exists prev, rest, cs. split; auto. intros n [[]|Hn]; auto.
  - destruct rest as [|x xs]; [discriminate|].
    destruct (cmatch ic c x); [|discriminate].
    exists (Some x), xs, cs. split; auto. intros n [[]|Hn]; auto.
  - destruct (IH1 _ _ _ _ _ H) as (p1 & t1 & c1 & H1 & M1).
    destruct (IH2 _ _ _ _ _ H1) as (p2 & t2 & c2 & H2 & M2).
    exists p2, t2, c2. split; auto. simpl. intros n [Hn|Hn].
    + apply in_app_or in Hn. destruct Hn as [Hn|Hn]; auto.
    + auto.
  - unfold orElse in H. destruct (matcher ic r1 k prev rest cs) eqn:E.
    + injection H as <-.
      destruct (IH1 _ _ _ _ _ E) as (p1 & t1 & c1 & H1 & M1).
      exists p1, t1, c1. split; auto. simpl. intros n [Hn|Hn]; auto.
      apply filter_In in Hn. apply M1. left. apply Hn.
    + destruct (IH2 _ _ _ _ _ H) as (p2 & t2 & c2 & H2 & M2).
      exists p2, t2, c2. split; auto. simpl. intros n [Hn|Hn]; auto.
      apply filter_In in Hn. destruct Hn as [_ Hn].
      apply existsb_exists in Hn. destruct Hn as (m & Hm & Em).
      apply Nat.eqb_eq in Em. subst m. auto.
  - destruct (star_greedy_inv _ _ _ _ _ _ H) as (p' & t' & H').
    exists p', t', cs. split; auto. intros n [[]|Hn]; auto.
  - destruct (star_lazy_inv _ _ _ _ _ _ H) as (p' & t' & H').
    exists p', t', cs. split; auto. intros n [[]|Hn]; auto.
  - destruct rest as [|x xs]; [discriminate|].
    destruct (cmatch ic c x); [|discriminate].
    destruct (star_greedy_inv _ _ _ _ _ _ H) as (p' & t' & H').
    exists p', t', cs. split; auto. intros n [[]|Hn]; auto.
  - destruct (IH1 _ _ _ _ _ H) as (p1 & t1 & c1 & H1 & M1).
    eexists p1, t1, _. split; [exact H1|]. simpl.
    intros n [[<-|Hn]|Hn].
    + apply has_here.
    + apply has_cons. auto.
    + apply has_cons. auto.
  - destruct (xorb _ _); [|discriminate].
    exists prev, rest, cs. split; auto. intros n [[]|Hn]; auto.
Qed.

End MatcherFacts.

(** The continuation is entered on a suffix of the input. *)
Lemma star_greedy_length {R} ic c (k : @cont R) rest :
  forall prev cs res,
    star_greedy ic c k prev rest cs = Some res ->
    exists prev' rest', k prev' rest' cs = Some res
                        /\ length rest' <= length rest.
Proof.
  induction rest as [|x xs IH]; simpl; intros prev cs res H; eauto.
  destruct (cmatch ic c x); eauto.
  unfold orElse in H.
  destruct (star_greedy ic c k (Some x) xs cs) eqn:E; eauto.
  injection H as <-. destruct (IH _ _ _ E) as (p' & t' & Hk & Hl).
  exists p', t'. split; auto.
Qed.

Lemma star_lazy_length {R} ic c (k : @cont R) rest :
  forall prev cs res,
    star_lazy ic c k prev rest cs = Some res ->
    exists prev' rest', k prev' rest' cs = Some res
                        /\ length rest' <= length rest.
Proof.
  induction rest as [|x xs IH]; simpl; intros prev cs res H;
    unfold orElse in H; destruct (k prev _ cs) eqn:E.
  - injection H as <-. eauto.
  - discriminate.
  - injection H as <-. eauto.
  - destruct (cmatch ic c x); [|discriminate].
    destruct (IH _ _ _ H) as (p' & t' & Hk & Hl).
    exists p', t'. split; auto.
Qed.

Lemma matcher_length {R} ic (r : regex) :
  forall (k : @cont R) prev rest cs res,
    matcher ic r k prev rest cs = Some res ->
    exists prev' rest' cs',
      k prev' rest' cs' = Some res /\ length rest' <= length rest.
Proof.
  induction r as [|c|r1 IH1 r2 IH2|r1 IH1 r2 IH2|c|c|c|g r1 IH1|];
    intros k prev rest cs res H; simpl in H.
  - eauto.
  - destruct rest as [|x xs]; [discriminate|].
    destruct (cmatch ic c x); [|discriminate].
    exists (Some x), xs, cs. simpl. auto.
  - destruct (IH1 _ _ _ _ _ H) as (p1 & t1 & c1 & H1 & L1).
    destruct (IH2 _ _ _ _ _ H1) as (p2 & t2 & c2 & H2 & L2).
    exists p2, t2, c2. split; auto. lia.
  - unfold orElse in H. destruct (matcher ic r1 k prev rest cs) eqn:E.
    + injection H as <-. eauto.
    + eauto.
  - destruct (star_greedy_length _ _ _ _ _ _ _ H) as (p' & t' & H' & L). eauto.
  - destruct (star_lazy_length _ _ _ _ _ _ _ H) as (p' & t' & H' & L). eauto.
  - destruct rest as [|x xs]; [discriminate|].
    destruct (cmatch ic c x); [|discriminate].
    destruct (star_greedy_length _ _ _ _ _ _ _ H) as (p' & t' & H' & L).
    exists p', t', cs. simpl. split; auto.
  - destruct (IH1 _ _ _ _ _ H) as (p1 & t1 & c1 & H1 & L1). eauto.
  - destruct (xorb _ _); [|discriminate]. eauto.
Qed.

(** A match ends inside the input it started on, and a match of a
    non-empty text ends further than it started. *)
Lemma match_here_rest p idx prev rest r :
  match_here p idx prev rest = Some r ->
  length (m_rest r) <= length rest
  /\ (m_text r <> [] -> length (m_rest r) < length rest).
Proof.
  unfold match_here. intros H.
  destruct (matcher_length _ _ _ _ _ _ _ H) as (p' & t' & c' & Hk & L).
  injection Hk as <-. simpl. split; auto.
  intros Hne. destruct (Nat.eq_dec (length t') (length rest)) as [E|E]; [|lia].
  exfalso. apply Hne. rewrite E, Nat.sub_diag. reflexivity.
Qed.

Lemma search_rest p rest :
  forall idx prev r,
    search p idx prev rest = Some r ->
    length (m_rest r) <= length rest
    /\ (m_text r <> [] -> length (m_rest r) < length rest).
Proof.
  induction rest as [|x xs IH]; simpl; intros idx prev r H.
  - destruct (match_here p idx prev []) eqn:E; [|discriminate].
    injection H as <-. apply (match_here_rest _ _ _ _ _ E).
  - destruct (match_here p idx prev (x :: xs)) eqn:E.
    + injection H as <-. apply (match_here_rest _ _ _ _ _ E).
    + destruct (IH _ _ _ H) as [L1 L2]. simpl. split; [lia|].
      intros Hne. specialize (L2 Hne). lia.
Qed.

(** The fuel of [matches_g] is enough: more fuel finds no more matches. *)
Lemma exec_all_fuel p :
  forall fuel1 fuel2 idx prev rest,
    length rest < fuel1 -> length rest < fuel2 ->
    exec_all fuel1 p idx prev rest = exec_all fuel2 p idx prev rest.
Proof.
  induction fuel1 as [|f1 IH]; intros fuel2 idx prev rest H1 H2; [lia|].
  destruct fuel2 as [|f2]; [lia|]. simpl.
  destruct (search p idx prev rest) as [r|] eqn:Hs; auto.
  destruct (search_rest _ _ _ _ _ Hs) as [L1 L2]. f_equal.
  destruct (m_text r) as [|c t] eqn:Ht.
  - destruct (m_rest r) as [|x xs] eqn:Hr; auto.
    simpl in L1. apply IH; lia.
  - assert (L : length (m_rest r) < length rest) by (apply L2; discriminate).
    apply IH; lia.
Qed.

Lemma matches_g_fuel p s extra :
  exec_all (S (length s) + extra) p 0 None s = matches_g p s.
Proof. unfold matches_g. apply exec_all_fuel; lia. Qed.

Lemma match_here_groups p idx prev rest r :
  groups_always_set p = true ->
  match_here p idx prev rest = Some r -> Forall defined (m_groups r).
Proof.
  unfold match_here, groups_always_set. intros Hg H.
  destruct (matcher_inv _ _ _ _ _ _ _ H) as (p' & t' & c' & Hk & M).
  injection Hk as <-. simpl. apply Forall_map. apply Forall_forall.
  intros n Hn. rewrite forallb_forall in Hg. specialize (Hg n Hn).
  apply existsb_exists in Hg. destruct Hg as (m & Hm & Em).
  apply Nat.eqb_eq in Em. subst m.
  assert (Hh : has n c' = true) by (apply M; left; exact Hm).
  unfold has in Hh. unfold defined. destruct (capture n c'); congruence.
Qed.

Lemma search_groups p rest :
  forall idx prev r,
    groups_always_set p = true ->
    search p idx prev rest = Some r -> Forall defined (m_groups r).
Proof.
  induction rest as [|x xs IH]; simpl; intros idx prev r Hg H.
  - destruct (match_here p idx prev []) eqn:E; [|discriminate].
    injection H as <-. eapply match_here_groups; eauto.
  - destruct (match_here p idx prev (x :: xs)) eqn:E.
    + injection H as <-. eapply match_here_groups; eauto.
    + eapply IH; eauto.
Qed.

(** For such a pattern every entry of the array of [match] is a string. *)
Lemma match_first_defined p content ms :
  groups_always_set p = true ->
  match_first p content = Some ms -> Forall defined ms.
Proof.
  unfold match_first. intros Hg H.
  destruct (search p 0 None content) as [r|] eqn:E; [|discriminate].
  injection H as <-. constructor; [discriminate|].
  eapply search_groups; eauto.
Qed.

(* ------------------------------------------------------------------ *)
(** *** The loops of [checkFile] *)

Lemma checkMatch_inv content uv uf d acc mtch out :
  checkMatch content uv uf d acc mtch = inr out ->
  (findIndex (fun line => includes line (to_search_string mtch))
     (split_nl content) = None /\ out = acc)
  \/ (exists m k, mtch = Some m
        /\ findIndex (fun line => includes line m) (split_nl content) = Some k
        /\ out = acc ++ [issueAt content uv uf d m k]).
Proof.
  unfold checkMatch.
  destruct (findIndex _ (split_nl content)) as [k|] eqn:Hk.
  - destruct mtch as [m|]; simpl; [|discriminate].
    intros H. injection H as <-. right. exists m, k. auto.
  - intros H. injection H as <-. left. auto.
Qed.

Lemma from_match_cons content uv uf d x ms i :
  from_match content uv uf d ms i -> from_match content uv uf d (x :: ms) i.
Proof. intros (m & k & Hin & H). exists m, k. split; [right|]; auto. Qed.

Lemma forOf_checkMatch content uv uf d ms :
  forall acc out,
    forOf (checkMatch content uv uf d) ms acc = inr out ->
    exists added, out = acc ++ added /\ length added <= length ms
                  /\ Forall (from_match content uv uf d ms) added.
Proof.
  induction ms as [|x ms IH]; simpl; intros acc out H.
  - injection H as <-. exists []. rewrite app_nil_r. auto.
  - destruct (checkMatch content uv uf d acc x) as [e|acc'] eqn:Hx;
      simpl in H; [discriminate|].
    destruct (IH _ _ H) as (added & -> & Hlen & Hall).
    assert (Hall' : Forall (from_match content uv uf d (x :: ms)) added).
    { eapply Forall_impl; [|exact Hall]. intros i. apply from_match_cons. }
    destruct (checkMatch_inv _ _ _ _ _ _ _ Hx) as [[_ ->]|(m & k & -> & Hk & ->)].
    + exists added. repeat split; auto.
    + exists (issueAt content uv uf d m k :: added).
      rewrite <- app_assoc. repeat split; simpl; auto; [lia|].
      constructor; auto. exists m, k. split; [left|]; auto.
Qed.

Lemma checkMatch_defined content uv uf d acc m :
  checkMatch content uv uf d acc (Some m)
  = inr (acc ++ match findIndex (fun line => includes line m) (split_nl content) with
                | Some k => [issueAt content uv uf d m k]
                | None => []
                end).
Proof.
  unfold checkMatch. simpl.
  destruct (findIndex _ (split_nl content)); simpl; auto.
  rewrite app_nil_r. reflexivity.
Qed.

(** The loop over the match array only throws for an [undefined] entry. *)
Lemma forOf_checkMatch_total content uv uf d ms :
  Forall defined ms ->
  forall acc, exists out, forOf (checkMatch content uv uf d) ms acc = inr out.
Proof.
  induction 1 as [|x ms Hx Hms IH]; intros acc; simpl; eauto.
  destruct x as [m|]; [|exfalso; apply Hx; reflexivity].
  rewrite checkMatch_defined. simpl. apply IH.
Qed.

Lemma checkMatch_throw content uv uf d acc mtch e :
  checkMatch content uv uf d acc mtch = inl e -> e = undefined_includes.
Proof.
  unfold checkMatch. destruct (findIndex _ (split_nl content)); [|discriminate].
  destruct mtch; simpl; [discriminate|]. congruence.
Qed.

Lemma forOf_checkMatch_throw content uv uf d ms :
  forall acc e,
    forOf (checkMatch content uv uf d) ms acc = inl e -> e = undefined_includes.
Proof.
  induction ms as [|x ms IH]; simpl; intros acc e H; [discriminate|].
  destruct (checkMatch content uv uf d acc x) as [e'|acc'] eqn:Hx; simpl in H.
  - injection H as <-. eapply checkMatch_throw; eauto.
  - eapply IH; eauto.
Qed.

Lemma checkDetector_inv content uv uf d acc out :
  checkDetector content uv uf acc d = inr out ->
  exists added, out = acc ++ added
                /\ Forall (from_detectors content uv uf [d]) added.
Proof.
  unfold checkDetector.
  destruct (match_first (pattern d) content) as [ms|] eqn:Hm.
  - intros H. destruct (forOf_checkMatch _ _ _ _ _ _ _ H) as (added & -> & _ & Hall).
    exists added. split; auto. eapply Forall_impl; [|exact Hall].
    intros i Hi. exists d, ms. simpl. auto.
  - intros H. injection H as <-. exists []. rewrite app_nil_r. auto.
Qed.

Lemma from_detectors_incl content uv uf ds ds' i :
  incl ds ds' -> from_detectors content uv uf ds i ->
  from_detectors content uv uf ds' i.
Proof. intros Hi (d & ms & Hd & H). exists d, ms. split; auto. Qed.

Lemma forOf_checkDetector content uv uf ds :
  forall acc out,
    forOf (checkDetector content uv uf) ds acc = inr out ->
    exists added, out = acc ++ added
                  /\ Forall (from_detectors content uv uf ds) added.
Proof.
  induction ds as [|d ds IH]; simpl; intros acc out H.
  - injection H as <-. exists []. rewrite app_nil_r. auto.
  - destruct (checkDetector content uv uf acc d) as [e|acc'] eqn:Hd;
      simpl in H; [discriminate|].
    destruct (checkDetector_inv _ _ _ _ _ _ Hd) as (a1 & -> & H1).
    destruct (IH _ _ H) as (a2 & -> & H2).
    exists (a1 ++ a2). rewrite app_assoc. split; auto.
    apply Forall_app. split.
    + eapply Forall_impl; [|exact H1]. intros i.
      apply from_detectors_incl. intros x [<-|[]]. left. reflexivity.
    + eapply Forall_impl; [|exact H2]. intros i.
      apply from_detectors_incl. intros x Hx. right. exact Hx.
Qed.

(** What a successful [checkFile] returns, field by field. *)
Lemma checkFile_Report read p r :
  checkFile read p = Report r ->
  exists content,
    read p = inr content
    /\ path r = p
    /\ usesValidationImport r = includes content (js "@/lib/validation")
    /\ usesValidationService r = includes content (js "ValidationService")
    /\ usesFormatterService r = includes content (js "FormatterService")
    /\ issueCount r = length (issues r)
    /\ forOf (checkDetector content (usesValidationService r)
                (usesFormatterService r)) VALIDATION_ISSUES [] = inr (issues r).
Proof.
  unfold checkFile. destruct (read p) as [e|content]; simpl; [discriminate|].
  unfold checkContent.
  destruct (forOf _ VALIDATION_ISSUES []) as [e|l] eqn:Hl; simpl; [discriminate|].
  intros H. injection H as <-. exists content. simpl. repeat split; auto.
Qed.

Lemma checkFile_issue_origin read p r i :
  checkFile read p = Report r -> In i (issues r) ->
  exists content,
    read p = inr content
    /\ from_detectors content (includes content (js "ValidationService"))
         (includes content (js "FormatterService")) VALIDATION_ISSUES i.
Proof.
  intros H Hi.
  destruct (checkFile_Report _ _ _ H) as (content & Hr & _ & _ & Hv & Hf & _ & Hl).
  exists content. split; auto. rewrite <- Hv, <- Hf.
  destruct (forOf_checkDetector _ _ _ _ _ _ Hl) as (added & E & Hall).
  simpl in E. rewrite E in Hi. rewrite Forall_forall in Hall. auto.
Qed.

(** A failed read makes [checkFile] return the error object. *)
Lemma checkFile_read_error read p e :
  read p = inl e ->
  checkFile read p = CheckError p (js "Error checking file: " ++ err_message e).
Proof. unfold checkFile. intros ->. reflexivity. Qed.

End Facts.

(* ================================================================== *)
(** ** The Rule Engine: the line [findIndex] returns *)
(* ================================================================== *)

Import JS Json Checker Props Fixtures Facts.

Lemma from_match_first_line content uv uf d ms i :
  from_match content uv uf d ms i ->
  exists m k line,
    In (Some m) ms /\ first_line_with content m k line
    /\ i = issueAt content uv uf d m k
    /\ nth k (split_nl content) [] = line.
Proof.
  intros (m & k & Hin & Hk & ->).
  destruct (findIndex_Some _ _ _ Hk) as (line & Hn & Hinc & Hlt).
  exists m, k, line. repeat split; auto.
  apply nth_error_nth. exact Hn.
Qed.

(* ================================================================== *)
(** ** The Aggregator: the sort and the most problematic files *)
(* ================================================================== *)

Section Sorting.
Context {A : Type}.
Variable key : A -> nat.

(** The comparator of the source, for any record with a count. *)
Let cmp (a b : A) : Z := (Z.of_nat (key b) - Z.of_nat (key a))%Z.

Let desc (a b : A) : Prop := key b <= key a.

Lemma insert_by_perm (x : A) (l : list A) :
  Permutation (insert_by cmp x l) (x :: l).
Proof.
  induction l as [|y t IH]; simpl; auto.
  destruct (Z.leb (cmp x y) 0); auto.
  rewrite IH. apply perm_swap.
Qed.

Lemma sort_by_perm (l : list A) : Permutation (sort_by cmp l) l.
Proof.
  induction l as [|x t IH]; simpl; auto.
  rewrite insert_by_perm. auto.
Qed.

Lemma insert_by_sorted (x : A) (l : list A) :
  StronglySorted desc l -> StronglySorted desc (insert_by cmp x l).
Proof.
  induction 1 as [|y t Ht IH Hy]; simpl.
  - constructor; constructor.
  - destruct (Z.leb (cmp x y) 0) eqn:E.
    + apply Z.leb_le in E. unfold cmp in E.
      constructor; [constructor; auto|].
      constructor; [unfold desc; lia|].
      eapply Forall_impl; [|exact Hy]. unfold desc. intros a Ha. lia.
    + apply Z.leb_gt in E. unfold cmp in E.
      constructor; auto.
      rewrite (insert_by_perm x t). constructor; auto. unfold desc. lia.
Qed.

Lemma sort_by_sorted (l : list A) : StronglySorted desc (sort_by cmp l).
Proof.
  induction l as [|x t IH]; simpl; [constructor|].
  apply insert_by_sorted. exact IH.
Qed.

Lemma insert_by_stable (c : nat) (x : A) (l : list A) :
  filter (fun a => key a =? c) (insert_by cmp x l)
  = filter (fun a => key a =? c) (x :: l).
Proof.
  induction l as [|y t IH]; simpl; auto.
  destruct (Z.leb (cmp x y) 0) eqn:E; simpl; auto.
  apply Z.leb_gt in E. unfold cmp in E.
  simpl in IH. rewrite IH.
  destruct (key x =? c) eqn:Ex; destruct (key y =? c) eqn:Ey; auto.
  apply Nat.eqb_eq in Ex, Ey. lia.
Qed.

(** Elements with equal counts keep their relative order. *)
Lemma sort_by_stable (c : nat) (l : list A) :
  filter (fun a => key a =? c) (sort_by cmp l) = filter (fun a => key a =? c) l.
Proof.
  induction l as [|x t IH]; simpl; auto.
  rewrite insert_by_stable. simpl. rewrite IH. reflexivity.
Qed.

(** Sortedness and stability leave no choice: any stable sort returns the
    list [sort_by] returns. *)
Lemma stable_sorted_unique (l1 l2 : list A) :
  StronglySorted desc l1 -> StronglySorted desc l2 ->
  (forall c, filter (fun a => key a =? c) l1 = filter (fun a => key a =? c) l2) ->
  l1 = l2.
Proof.
  intros S1. revert l2. induction S1 as [|a t1 St1 IH Ha]; intros l2 S2 HF.
  - destruct l2 as [|b t2]; auto.
    specialize (HF (key b)). simpl in HF. rewrite Nat.eqb_refl in HF. discriminate.
  - destruct S2 as [|b t2 St2 Hb].
    + specialize (HF (key a)). simpl in HF. rewrite Nat.eqb_refl in HF. discriminate.
    + assert (Hab : key a <= key b).
      { pose proof (HF (key a)) as H. simpl in H. rewrite Nat.eqb_refl in H.
        destruct (key b =? key a) eqn:E; [apply Nat.eqb_eq in E; lia|].
        assert (Hin : In a (filter (fun x => key x =? key a) t2)).
        { rewrite <- H. left. reflexivity. }
        apply filter_In in Hin. destruct Hin as [Hin _].
        rewrite Forall_forall in Hb. apply (Hb a Hin). }
      assert (Hba : key b <= key a).
      { pose proof (HF (key b)) as H. simpl in H. rewrite Nat.eqb_refl in H.
        destruct (key a =? key b) eqn:E; [apply Nat.eqb_eq in E; lia|].
        assert (Hin : In b (filter (fun x => key x =? key b) t1)).
        { rewrite H. left. reflexivity. }
        apply filter_In in Hin. destruct Hin as [Hin _].
        rewrite Forall_forall in Ha. apply (Ha b Hin). }
      assert (Hk : key a = key b) by lia.
      pose proof (HF (key a)) as H. simpl in H.
      rewrite Nat.eqb_refl, <- Hk, Nat.eqb_refl in H.
      injection H as <- Ht. f_equal. apply IH; auto.
      intros c. specialize (HF c). simpl in HF.
      destruct (key a =? c); [injection HF; auto | exact HF].
Qed.

End Sorting.

Lemma withIssues_In (results : list CheckResult) (f : FileReport) :
  In f (withIssues results) <-> In (Report f) results /\ 0 < issueCount f.
Proof.
  unfold withIssues. rewrite in_flat_map. split.
  - intros ([g|q e] & Hin & Hf); [|destruct Hf].
    destruct (Nat.ltb 0 (issueCount g)) eqn:E; [|destruct Hf].
    destruct Hf as [<-|[]]. apply Nat.ltb_lt in E. auto.
  - intros [Hin Hpos]. exists (Report f). split; auto.
    apply Nat.ltb_lt in Hpos. rewrite Hpos. left. reflexivity.
Qed.

Lemma firstn_min {A} (n : nat) (l : list A) :
  firstn n l = firstn (min n (length l)) l.
Proof.
  destruct (Nat.le_gt_cases n (length l)) as [H|H].
  - rewrite Nat.min_l; auto.
  - rewrite Nat.min_r by lia. rewrite firstn_all. apply firstn_all2. lia.
Qed.

Lemma firstn_In {A} (n : nat) (l : list A) (x : A) :
  In x (firstn n l) -> In x l.
Proof.
  intros H. rewrite <- (firstn_skipn n l). apply in_or_app. left. exact H.
Qed.

Lemma mostProblematicFiles_summarize env files results :
  mostProblematicFiles (summarize env files results)
  = map (fun f => {| o_path := path_relative env (projectRoot env) (path f);
                     o_issueCount := issueCount f |})
      (firstn 5 (sort_by byIssueCount (withIssues results))).
Proof. reflexivity. Qed.

(** The files with issues that have a given count are the reports with
    that count, in the order of the results. *)
Lemma withIssues_with_count (c : nat) (results : list CheckResult) :
  filter (fun f => issueCount f =? S c) (withIssues results)
  = reports_with_count (S c) results.
Proof.
  unfold withIssues, reports_with_count.
  induction results as [|res t IH]; simpl; auto.
  rewrite filter_app, IH. f_equal.
  destruct res as [f|q e]; auto.
  destruct (issueCount f) as [|n] eqn:E; simpl; auto.
  rewrite E. reflexivity.
Qed.

(** C5. [mostProblematicFiles] (the spec's topOffenders) is the prefix of
    length [min 5 n] of the [n] files with issues, sorted by decreasing
    issue count, each entry reduced to the relative path and the count; no
    entry has a count of zero.  Ties keep the scan order: for every count,
    the sorted files with that count are the reports of [results] with that
    count, in the order of [results], which is the order of the file
    list. *)
Theorem C5_most_problematic_files env files results :
  let s := summarize env files results in
  let fwi := withIssues results in
  exists sorted,
    Permutation sorted fwi
    /\ StronglySorted (fun a b => issueCount b <= issueCount a) sorted
    /\ (forall c, filter (fun f => issueCount f =? c) sorted
                  = filter (fun f => issueCount f =? c) fwi)
    /\ mostProblematicFiles s
       = map (fun f => {| o_path := path_relative env (projectRoot env) (path f);
                          o_issueCount := issueCount f |})
           (firstn (min 5 (length fwi)) sorted)
    /\ length (mostProblematicFiles s) = min 5 (length fwi)
    /\ Forall (fun o => 0 < o_issueCount o) (mostProblematicFiles s)
    /\ (forall f, In f fwi <-> In (Report f) results /\ 0 < issueCount f)
    /\ (forall c, filter (fun f => issueCount f =? S c) sorted
                  = reports_with_count (S c) results).
Proof.
  intros s fwi. exists (sort_by byIssueCount fwi).
  pose proof (sort_by_perm issueCount fwi) as HP.
  assert (Hlen : length (sort_by byIssueCount fwi) = length fwi)
    by (apply Permutation_length; exact HP).
  repeat split.
  - exact HP.
  - apply (sort_by_sorted issueCount).
  - intros c. apply (sort_by_stable issueCount).
  - unfold s. rewrite mostProblematicFiles_summarize. fold fwi.
    rewrite (firstn_min 5), Hlen. reflexivity.
  - unfold s. rewrite mostProblematicFiles_summarize. fold fwi.
    rewrite length_map, length_firstn, Hlen. reflexivity.
  - unfold s. rewrite mostProblematicFiles_summarize. fold fwi.
    apply Forall_forall. intros o Ho. apply in_map_iff in Ho.
    destruct Ho as (f & <- & Hf). simpl.
    apply firstn_In in Hf.
    apply (Permutation_in _ HP) in Hf. apply withIssues_In in Hf. apply Hf.
  - match goal with H : In _ fwi |- _ => apply withIssues_In in H; apply H end.
  - match goal with H : In _ fwi |- _ => apply withIssues_In in H; apply H end.
  - apply withIssues_In.
  - intros c. rewrite (sort_by_stable issueCount). apply withIssues_with_count.
Qed.

(** Two files with one Issue each around a file with three: the file with
    three comes first, the two others follow in the order of the file
    list, also when the last file is the first to complete. *)
Lemma tied_files_in_scan_order :
  let env := three_files in
  let files := [b_ts; c_ts; d_ts] in
  let s := summarize env files (map (checkFile (readFile env)) files) in
  runValidationCheckerTool env [2; 0; 1] scan_default
  = Some (text_response (JSON_stringify (json_of_summary s)))
  /\ mostProblematicFiles s
     = [{| o_path := js "src/components/c.ts"; o_issueCount := 3 |};
        {| o_path := js "src/components/b.ts"; o_issueCount := 1 |};
        {| o_path := js "src/components/d.ts"; o_issueCount := 1 |}].
Proof. split; vm_compute; reflexivity. Qed.

(* ================================================================== *)
(** ** The Aggregator: files that could not be read *)
(* ================================================================== *)

Lemma withIssues_app (a b : list CheckResult) :
  withIssues (a ++ b) = withIssues a ++ withIssues b.
Proof. unfold withIssues. apply flat_map_app. Qed.

Lemma withIssues_skips_error read before f after e :
  read f = inl e ->
  withIssues (map (checkFile read) (before ++ f :: after))
  = withIssues (map (checkFile read) (before ++ after)).
Proof.
  intros H. rewrite !map_app, !withIssues_app. f_equal.
  simpl. rewrite (checkFile_read_error _ _ _ H). reflexivity.
Qed.

(** A file whose read fails counts in [filesScanned] and in nothing else:
    every other field of the summary, the per-file detail included, is what
    it would be had the file not been in the list. *)
Lemma unreadable_file_only_counted env before f after e :
  readFile env f = inl e ->
  let scan files := summarize env files (map (checkFile (readFile env)) files) in
  let s := scan (before ++ f :: after) in
  let s' := scan (before ++ after) in
  filesScanned s = S (filesScanned s')
  /\ filesWithIssues s = filesWithIssues s'
  /\ totalIssues s = totalIssues s'
  /\ highSeverityIssues s = highSeverityIssues s'
  /\ mostProblematicFiles s = mostProblematicFiles s'
  /\ detail s = detail s'.
Proof.
  intros H scan s s'. unfold s, s', scan, summarize.
  rewrite (withIssues_skips_error _ before f after e H).
  cbn [filesScanned filesWithIssues totalIssues highSeverityIssues
       mostProblematicFiles detail].
  repeat split. rewrite !length_app. simpl. lia.
Qed.

(** C4, on the code. The scan of one file whose read fails: the file is
    counted in [filesScanned] and in nothing else, [checkFile] did build the
    error text, and the report has an empty detail and does not contain that
    text: the filter [result.issueCount > 0] drops the error object, which
    has no [issueCount]. *)
Theorem C4_error_text_not_reported :
  readFile unreadable a_ts = inl EACCES
  /\ checkFile (readFile unreadable) a_ts
     = CheckError a_ts (js "Error checking file: EACCES: permission denied")
  /\ exists text,
       runValidationCheckerTool unreadable [0] (scan_file "src/a.ts")
       = Some (text_response text)
       /\ text = JSON_stringify
                   (json_of_summary
                      {| filesScanned := 1; filesWithIssues := 0;
                         totalIssues := 0; highSeverityIssues := 0;
                         mostProblematicFiles := []; detail := [] |})
       /\ includes text (js "EACCES") = false
       /\ includes text (js "Error checking file") = false.
Proof.
  split; [reflexivity|]. split; [reflexivity|].
  eexists. split; [reflexivity|]. split; [reflexivity|].
  split; vm_compute; reflexivity.
Qed.

(* ================================================================== *)
(** ** The scan does not depend on the order of completion *)
(* ================================================================== *)

Lemma length_update {A} (i : nat) (v : A) (l : list A) :
  length (update i v l) = length l.
Proof.
  revert i. induction l as [|x t IH]; intros [|i]; simpl; auto.
Qed.

Lemma nth_error_update {A} (i j : nat) (v : A) (l : list A) :
  nth_error (update i v l) j
  = if Nat.eqb j i && Nat.ltb i (length l) then Some v else nth_error l j.
Proof.
  revert i j. induction l as [|x t IH]; intros i j.
  - simpl. rewrite andb_false_r. destruct i; reflexivity.
  - destruct i as [|i], j as [|j]; simpl; auto.
Qed.

Lemma length_settle {A} (values : list A) slots i :
  length (settle values slots i) = length slots.
Proof.
  unfold settle. destruct (nth_error values i); auto. apply length_update.
Qed.

Lemma nth_error_settle {A} (values : list A) slots i j :
  length slots = length values ->
  nth_error (settle values slots i) j
  = if Nat.eqb j i then option_map Some (nth_error values j)
    else nth_error slots j.
Proof.
  intros Hlen. unfold settle.
  destruct (Nat.eqb j i) eqn:E.
  - apply Nat.eqb_eq in E. subst j.
    destruct (nth_error values i) as [v|] eqn:Hv.
    + rewrite nth_error_update, Nat.eqb_refl. simpl.
      assert (Hi : i < length values) by (apply nth_error_Some; congruence).
      rewrite Hlen. apply Nat.ltb_lt in Hi. rewrite Hi. reflexivity.
    + simpl. apply nth_error_None. rewrite Hlen. apply nth_error_None. exact Hv.
  - destruct (nth_error values i) as [v|]; auto.
    rewrite nth_error_update, E. reflexivity.
Qed.

Lemma fold_settle {A} (values : list A) order :
  forall slots,
    length slots = length values ->
    let out := fold_left (settle values) order slots in
    length out = length values
    /\ forall j, nth_error out j
                 = if existsb (Nat.eqb j) order
                   then option_map Some (nth_error values j)
                   else nth_error slots j.
Proof.
  induction order as [|i rest IH]; intros slots Hlen; simpl.
  - auto.
  - assert (Hlen' : length (settle values slots i) = length values)
      by (rewrite length_settle; exact Hlen).
    destruct (IH _ Hlen') as [Hl Hn]. split; auto.
    intros j. rewrite Hn, (nth_error_settle values slots i j Hlen).
    destruct (existsb (Nat.eqb j) rest); [rewrite orb_true_r|rewrite orb_false_r];
      reflexivity.
Qed.

Lemma all_settled_map_Some {A} (values : list A) :
  all_settled (map Some values) = Some values.
Proof.
  induction values as [|v t IH]; simpl; auto. rewrite IH. reflexivity.
Qed.

(** Whatever the order in which the promises complete, [Promise.all]
    fulfils with the values in the order of the promises. *)
Lemma Promise_all_complete {A} (values : list A) (order : list nat) :
  complete_order (length values) order ->
  Promise_all order values = Some values.
Proof.
  intros HP. unfold Promise_all.
  destruct (fold_settle values order (repeat None (length values))
              (repeat_length _ _)) as [Hl Hn].
  replace (fold_left (settle values) order (repeat None (length values)))
    with (map Some values); [apply all_settled_map_Some|].
  apply nth_error_ext. intros j. rewrite Hn, nth_error_map.
  destruct (existsb (Nat.eqb j) order) eqn:E; auto.
  destruct (Nat.lt_ge_cases j (length values)) as [Hj|Hj].
  - exfalso. assert (Hin : In j order).
    { apply (Permutation_in _ (Permutation_sym HP)). apply in_seq. lia. }
    assert (Ht : existsb (Nat.eqb j) order = true).
    { apply existsb_exists. exists j. split; auto. apply Nat.eqb_refl. }
    congruence.
  - assert (Hv : nth_error values j = None) by (apply nth_error_None; exact Hj).
    rewrite Hv. simpl. symmetry. apply nth_error_None.
    rewrite repeat_length. exact Hj.
Qed.

(** C6. Two scans of the same tree, whatever the order in which the files
    finish in each, return the same response: the one built from the
    per-file results taken in the order of the file list. *)
Theorem C6_scan_deterministic env args o1 o2 :
  (forall files, scannedFiles env args = Some files ->
                 complete_order (length files) o1) ->
  (forall files, scannedFiles env args = Some files ->
                 complete_order (length files) o2) ->
  exists response,
    runValidationCheckerTool env o1 args = Some response
    /\ runValidationCheckerTool env o2 args = Some response
    /\ forall files,
         scannedFiles env args = Some files ->
         response = text_response
                      (JSON_stringify
                         (json_of_summary
                            (summarize env files
                               (map (checkFile (readFile env)) files)))).
Proof.
  unfold scannedFiles, runValidationCheckerTool. intros H1 H2.
  destruct (selectFiles env (targetOf args)
              (path_join env (projectRoot env) (targetOf args)))
    as [e|[nf|files]].
  - eexists. repeat split. intros files H. discriminate.
  - eexists. repeat split. intros files H. discriminate.
  - specialize (H1 files eq_refl). specialize (H2 files eq_refl).
    rewrite <- (length_map (checkFile (readFile env))) in H1, H2.
    rewrite (Promise_all_complete _ _ H1), (Promise_all_complete _ _ H2).
    eexists. repeat split. intros files' H. injection H as <-. reflexivity.
Qed.

(* ================================================================== *)
(** ** The Rule Engine: what one detector emits *)
(* ================================================================== *)

(** Only the last detector has a capture group that a match can leave
    [undefined]. *)
Lemma detector_groups d :
  In d VALIDATION_ISSUES ->
  d = custom_validation \/ groups_always_set (pattern d) = true.
Proof.
  intros [<-|[<-|[<-|[<-|[<-|[<-|[]]]]]]]; auto.
Qed.

(** C1 as the spec words it fails on a call of [.test] whose argument
    starts on the next line: the detector matches once, so there is one
    distinct matched text, and no Issue is emitted, neither by the detector
    nor in the report of the file. *)
Lemma C1_match_over_two_lines_no_issue :
  In regex_test VALIDATION_ISSUES
  /\ match_first (pattern regex_test) test_over_two_lines
     = Some [Some (js ".test(" ++ [LF] ++ js "  /a/)")]
  /\ distinct_matches (pattern regex_test) test_over_two_lines
     = [js ".test(" ++ [LF] ++ js "  /a/)"]
  /\ detectorIssues test_over_two_lines regex_test = inr []
  /\ exists r,
       checkFile (readFile (one_file test_over_two_lines)) a_ts = Report r
       /\ issues r = [].
Proof.
  split; [right; left; reflexivity|].
  split; [vm_compute; reflexivity|].
  split; [vm_compute; reflexivity|].
  split; [vm_compute; reflexivity|].
  eexists. split; [vm_compute; reflexivity|]. reflexivity.
Qed.

(** Two different calls of [.test]: two distinct matched texts, and one
    Issue, for the first. *)
Lemma two_tests_one_issue :
  distinct_matches (pattern regex_test) two_tests
  = [js ".test(/a/)"; js ".test(/b/)"]
  /\ detectorIssues two_tests regex_test
     = inr [issueAt two_tests false false regex_test (js ".test(/a/)") 0].
Proof. split; vm_compute; reflexivity. Qed.

(** One call of [.trim]: one matched text, and two Issues, the second one
    for the text of the capture group. *)
Lemma one_trim_two_issues :
  distinct_matches (pattern string_manipulation) one_trim = [js ".trim("]
  /\ match_first (pattern string_manipulation) one_trim
     = Some [Some (js ".trim("); Some (js "trim")]
  /\ detectorIssues one_trim string_manipulation
     = inr [issueAt one_trim false false string_manipulation (js ".trim(") 0;
            issueAt one_trim false false string_manipulation (js "trim") 0].
Proof. repeat split; vm_compute; reflexivity. Qed.

(** An arrow function and the word [undefined] somewhere in the file: the
    last detector throws, and the file ends as an error object. *)
Lemma arrow_and_undefined_throws :
  match_first (pattern custom_validation) arrow_and_undefined
  = Some [Some (js "=> {"); None]
  /\ detectorIssues arrow_and_undefined custom_validation = inl undefined_includes
  /\ checkFile (readFile (one_file arrow_and_undefined)) a_ts
     = CheckError a_ts
         (js "Error checking file: Cannot read properties of undefined (reading 'includes')").
Proof. repeat split; vm_compute; reflexivity. Qed.

(* ================================================================== *)
(** ** Scenarios of the spec *)
(* ================================================================== *)

(** C2, on the code. The scan of a file with one [.match(/x/)] and one
    [.trim()] reports three Issues, not two: one for [.match(/x/)], one for
    [.trim(] and one more for [trim], the capture group of the
    string-method pattern. *)
Theorem C2_match_and_trim_three_issues :
  let env := one_file match_and_trim in
  let s := summarize env [a_ts] [checkFile (readFile env) a_ts] in
  runValidationCheckerTool env [0] (scan_file "src/a.ts")
  = Some (text_response (JSON_stringify (json_of_summary s)))
  /\ filesScanned s = 1
  /\ filesWithIssues s = 1
  /\ totalIssues s = 3
  /\ highSeverityIssues s = 1
  /\ mostProblematicFiles s = [{| o_path := js "src/a.ts"; o_issueCount := 3 |}]
  /\ map (fun d => map (fun i => (i_severity i, i_line i)) (d_issues d)) (detail s)
     = [[(high, 1); (low, 2); (low, 2)]]
  /\ match_first (pattern string_manipulation) match_and_trim
     = Some [Some (js ".trim("); Some (js "trim")].
Proof. repeat split; vm_compute; reflexivity. Qed.

(** C8. The scan of [if (x.test(/^[a-z]+$/)) {}] emits one Issue, of
    severity high, whose suggestion names
    [ValidationService.createValidator()] and [@/lib/validation] as the
    alternative to regex tests. *)
Theorem C8_regex_test_scenario :
  let env := one_file one_test in
  let s := summarize env [a_ts] [checkFile (readFile env) a_ts] in
  exists r i,
    checkFile (readFile env) a_ts = Report r
    /\ issues r = [i]
    /\ i_severity i = high
    /\ i_line i = 1
    /\ i_suggestion i
       = js "Use ValidationService.createValidator() or a specific validator from @/lib/validation instead of regex tests"
    /\ includes (i_suggestion i) (js "ValidationService.createValidator") = true
    /\ includes (i_suggestion i) (js "@/lib/validation") = true
    /\ runValidationCheckerTool env [0] (scan_file "src/a.ts")
       = Some (text_response (JSON_stringify (json_of_summary s)))
    /\ totalIssues s = 1
    /\ highSeverityIssues s = 1
    /\ map d_issues (detail s) = [[i]].
Proof.
  intros env s. eexists. eexists.
  split; [vm_compute; reflexivity|].
  split; [reflexivity|].
  repeat split; vm_compute; reflexivity.
Qed.

Lemma C6_scan_deterministic_witness :
  (forall files, scannedFiles two_files scan_default = Some files ->
                 complete_order (length files) [0; 1])
  /\ (forall files, scannedFiles two_files scan_default = Some files ->
                    complete_order (length files) [1; 0])
  /\ exists response,
       runValidationCheckerTool two_files [0; 1] scan_default = Some response
       /\ runValidationCheckerTool two_files [1; 0] scan_default = Some response
       /\ forall files,
            scannedFiles two_files scan_default = Some files ->
            response = text_response
                         (JSON_stringify
                            (json_of_summary
                               (summarize two_files files
                                  (map (checkFile (readFile two_files)) files)))).
Proof.
  assert (H1 : forall files, scannedFiles two_files scan_default = Some files ->
                             complete_order (length files) [0; 1]).
  { intros files H. change (Some [b_ts; c_ts] = Some files) in H.
    injection H as <-. apply Permutation_refl. }
  assert (H2 : forall files, scannedFiles two_files scan_default = Some files ->
                             complete_order (length files) [1; 0]).
  { intros files H. change (Some [b_ts; c_ts] = Some files) in H.
    injection H as <-. apply perm_swap. }
  split; [exact H1|]. split; [exact H2|].
  exact (C6_scan_deterministic two_files scan_default [0; 1] [1; 0] H1 H2).
Defined.

(* ================================================================== *)
(** ** The service-usage flags *)
(* ================================================================== *)

Lemma match_global_test (p : RegExp) (content : jsstring) :
  Nat.ltb 0 (length match match_global p content with
                    | Some l => l
                    | None => []
                    end)
  = JS.test p content.
Proof.
  unfold match_global, matches_g, JS.test. simpl.
  destruct (search p 0 None content); reflexivity.
Qed.

(** C7. In [analyzeValidationUsage] a usage flag is true exactly when the
    import pattern matches the text and the text contains the token of the
    service; without a match of the import pattern both flags are false. *)
Theorem C7_usage_needs_import content :
  let a := Analyzer.analyzeValidationUsage content in
  let imported := JS.test Analyzer.validationImportRegex content in
  Analyzer.usesValidationService a
  = imported && includes content (js "ValidationService")
  /\ Analyzer.usesFormatterService a
     = imported && includes content (js "FormatterService").
Proof.
  cbv zeta. unfold Analyzer.analyzeValidationUsage.
  rewrite match_global_test.
  destruct (JS.test Analyzer.validationImportRegex content); simpl; auto.
Qed.

(** The token without the import: the flags of the analyzer stay false. *)
Lemma analyzer_token_without_import :
  JS.test Analyzer.validationImportRegex token_without_import = false
  /\ includes token_without_import (js "FormatterService") = true
  /\ Analyzer.usesFormatterService
       (Analyzer.analyzeValidationUsage token_without_import) = false.
Proof. repeat split; vm_compute; reflexivity. Qed.

(** C9. In [checkFile] the two flags are the presence of the tokens in the
    raw text, nothing else, and the suggestion of every Issue is
    [getSuggestion] applied to these flags. *)
Theorem C9_checker_flags_by_token read p r :
  checkFile read p = Report r ->
  exists content,
    read p = inr content
    /\ usesValidationService r = includes content (js "ValidationService")
    /\ usesFormatterService r = includes content (js "FormatterService")
    /\ forall i, In i (issues r) ->
         exists d m,
           In d VALIDATION_ISSUES
           /\ getSuggestion (Some m) d
                (includes content (js "ValidationService"))
                (includes content (js "FormatterService"))
              = inr (i_suggestion i).
Proof.
  intros H.
  destruct (checkFile_Report _ _ _ H) as (content & Hr & _ & _ & Hv & Hf & _).
  exists content. repeat split; auto.
  intros i Hi.
  destruct (checkFile_issue_origin _ _ _ _ H Hi)
    as (content' & Hr' & d & ms & Hd & _ & m & k & _ & _ & ->).
  assert (content' = content) as -> by congruence.
  exists d, m. split; auto.
Qed.

(** The theorem at a file that names the formatting service and does not
    import the helper module: the flag is true, and the suggestions leave
    the service out. *)
Lemma C9_checker_flags_by_token_witness :
  exists r,
    checkFile (readFile (one_file token_without_import)) a_ts = Report r
    /\ usesValidationImport r = false
    /\ usesFormatterService r = true
    /\ map i_suggestion (issues r)
       = [js "Consider using the appropriate method from ValidationService or instead";
          js "Consider using the appropriate method from ValidationService or instead"]
    /\ exists content,
         readFile (one_file token_without_import) a_ts = inr content
         /\ usesValidationService r = includes content (js "ValidationService")
         /\ usesFormatterService r = includes content (js "FormatterService")
         /\ forall i, In i (issues r) ->
              exists d m,
                In d VALIDATION_ISSUES
                /\ getSuggestion (Some m) d
                     (includes content (js "ValidationService"))
                     (includes content (js "FormatterService"))
                   = inr (i_suggestion i).
Proof.
  eexists. split; [reflexivity|].
  split; [reflexivity|]. split; [reflexivity|].
  split; [vm_compute; reflexivity|].
  apply (C9_checker_flags_by_token
           (readFile (one_file token_without_import)) a_ts).
  reflexivity.
Defined.

(* ================================================================== *)
(** ** Matches that no line contains *)
(* ================================================================== *)

(** C10. When no line of the file contains the text looked for, the round
    of the inner loop leaves the Issue list as it is and throws nothing;
    and the text behind every Issue of a checked file occurs inside the
    line the Issue reports, a line being free of line feeds. *)
Theorem C10_no_line_no_issue read p content :
  read p = inr content ->
  (forall d uv uf acc mtch,
      (forall line, In line (split_nl content) ->
                    includes line (to_search_string mtch) = false) ->
      checkMatch content uv uf d acc mtch = inr acc)
  /\ (forall r i,
         checkFile read p = Report r -> In i (issues r) ->
         exists d ms m line,
           In d VALIDATION_ISSUES
           /\ match_first (pattern d) content = Some ms /\ In (Some m) ms
           /\ nth_error (split_nl content) (i_line i - 1) = Some line
           /\ includes line m = true
           /\ count_nl line = 0).
Proof.
  intros Hr. split.
  - intros d uv uf acc mtch Hno. unfold checkMatch.
    apply findIndex_None in Hno. rewrite Hno. reflexivity.
  - intros r i H Hi.
    destruct (checkFile_issue_origin _ _ _ _ H Hi)
      as (content' & Hr' & d & ms & Hd & Hm & Hf).
    assert (content' = content) as -> by congruence.
    destruct (from_match_first_line _ _ _ _ _ _ Hf)
      as (m & k & line & Hin & (Hn & Hinc & _) & -> & _).
    exists d, ms, m, line. repeat split; auto.
    + simpl. replace (k + 1 - 1) with k by lia. exact Hn.
    + destruct (split_nl_line_at _ _ _ Hn) as (_ & _ & _ & _ & _ & _ & Hl).
      exact Hl.
Qed.

(** The theorem at the file [test_over_two_lines]: the match of the
    [.test] detector spans the line feed, no line contains it, and the file
    is checked, with no Issue. *)
Lemma C10_no_line_no_issue_witness :
  let content := test_over_two_lines in
  let read := readFile (one_file content) in
  read a_ts = inr content
  /\ match_first (pattern regex_test) content
     = Some [Some (js ".test(" ++ [LF] ++ js "  /a/)")]
  /\ (exists r, checkFile read a_ts = Report r /\ issues r = [])
  /\ (forall d uv uf acc mtch,
         (forall line, In line (split_nl content) ->
                       includes line (to_search_string mtch) = false) ->
         checkMatch content uv uf d acc mtch = inr acc)
  /\ (forall r i,
         checkFile read a_ts = Report r -> In i (issues r) ->
         exists d ms m line,
           In d VALIDATION_ISSUES
           /\ match_first (pattern d) content = Some ms /\ In (Some m) ms
           /\ nth_error (split_nl content) (i_line i - 1) = Some line
           /\ includes line m = true
           /\ count_nl line = 0).
Proof.
  intros content read.
  split; [reflexivity|]. split; [vm_compute; reflexivity|].
  split; [eexists; split; [reflexivity|vm_compute; reflexivity]|].
  apply (C10_no_line_no_issue read a_ts content). reflexivity.
Defined.

(* ================================================================== *)
(** ** More on strings and on the matcher *)
(* ================================================================== *)

Lemma starts_with_app (s b : jsstring) : starts_with s (s ++ b) = true.
Proof.
  induction s as [|c s IH]; simpl; auto. rewrite N.eqb_refl. exact IH.
Qed.

Lemma starts_with_inv (s t : jsstring) :
  starts_with s t = true -> exists b, t = s ++ b.
Proof.
  revert t. induction s as [|c s IH]; intros t H.
  - exists t. reflexivity.
  - destruct t as [|x t]; simpl in H; [discriminate|].
    apply andb_prop in H. destruct H as [E H]. apply N.eqb_eq in E. subst x.
    destruct (IH _ H) as (b & ->). exists b. reflexivity.
Qed.

Lemma includes_unfold (hay needle : jsstring) :
  includes hay needle
  = starts_with needle hay
    || match hay with
       | [] => false
       | _ :: hay' => includes hay' needle
       end.
Proof. destruct hay; reflexivity. Qed.

(** [t.includes(s)] holds exactly when [s] occurs in [t]. *)
Lemma includes_substring (t s : jsstring) :
  includes t s = true <-> substring s t.
Proof.
  split.
  - induction t as [|x t IH]; rewrite includes_unfold; intros H.
    + rewrite orb_false_r in H. destruct (starts_with_inv _ _ H) as (b & E).
      exists [], b. exact E.
    + apply orb_prop in H. destruct H as [H|H].
      * destruct (starts_with_inv _ _ H) as (b & E). exists [], b. exact E.
      * destruct (IH H) as (a & b & ->). exists (x :: a), b. reflexivity.
  - intros (a & b & ->). induction a as [|x a IH].
    + simpl app. rewrite includes_unfold, starts_with_app. reflexivity.
    + change ((x :: a) ++ s ++ b) with (x :: (a ++ s ++ b)).
      rewrite includes_unfold, IH. apply orb_true_r.
Qed.

Lemma substring_refl (s : jsstring) : substring s s.
Proof. exists [], []. rewrite app_nil_r. reflexivity. Qed.

Lemma substring_trans (s t u : jsstring) :
  substring s t -> substring t u -> substring s u.
Proof.
  intros (a & b & ->) (a' & b' & ->). exists (a' ++ a), (b ++ b').
  rewrite <- !app_assoc. reflexivity.
Qed.

Lemma substring_app_l (s t a : jsstring) : substring s t -> substring s (a ++ t).
Proof. intros H. apply (substring_trans _ _ _ H). exists a, []. rewrite app_nil_r. reflexivity. Qed.

Lemma substring_app_r (s t b : jsstring) : substring s t -> substring s (t ++ b).
Proof. intros H. apply (substring_trans _ _ _ H). exists [], b. reflexivity. Qed.

Lemma includes_false_substring (t s u : jsstring) :
  includes t s = false -> substring s u -> includes t u = false.
Proof.
  intros H Hs. destruct (includes t u) eqn:E; auto.
  apply includes_substring in E.
  assert (Hst : substring s t) by (eapply substring_trans; eauto).
  apply includes_substring in Hst. congruence.
Qed.

Section Trace.
Context {R : Type}.
Variable ic : bool.

Lemma cmatch_not_lf c x :
  cmatch ic c LF = false -> cmatch ic c x = true -> N.eqb LF x = false.
Proof.
  intros H1 H2. destruct (N.eqb LF x) eqn:E; auto.
  apply N.eqb_eq in E. subst x. congruence.
Qed.

Lemma star_greedy_trace c (k : @cont R) rest :
  forall prev cs res,
    star_greedy ic c k prev rest cs = Some res ->
    exists prev' rest' pre,
      k prev' rest' cs = Some res /\ rest = pre ++ rest'
      /\ (cmatch ic c LF = false -> count_nl pre = 0).
Proof.
  induction rest as [|x xs IH]; simpl; intros prev cs res H.
  - exists prev, [], []. auto.
  - destruct (cmatch ic c x) eqn:Hx.
    + unfold orElse in H.
      destruct (star_greedy ic c k (Some x) xs cs) eqn:E.
      * injection H as <-. destruct (IH _ _ _ E) as (p' & t' & pre & Hk & -> & Hl).
        exists p', t', (x :: pre). repeat split; auto.
        intros Hc. rewrite count_nl_cons, (cmatch_not_lf _ _ Hc Hx). auto.
      * exists prev, (x :: xs), []. auto.
    + exists prev, (x :: xs), []. auto.
Qed.

Lemma star_lazy_trace c (k : @cont R) rest :
  forall prev cs res,
    star_lazy ic c k prev rest cs = Some res ->
    exists prev' rest' pre,
      k prev' rest' cs = Some res /\ rest = pre ++ rest'
      /\ (cmatch ic c LF = false -> count_nl pre = 0).
Proof.
  induction rest as [|x xs IH]; simpl; intros prev cs res H;
    unfold orElse in H; destruct (k prev _ cs) eqn:E.
  - injection H as <-. exists prev, [], []. auto.
  - discriminate.
  - injection H as <-. exists prev, (x :: xs), []. auto.
  - destruct (cmatch ic c x) eqn:Hx; [|discriminate].
    destruct (IH _ _ _ H) as (p' & t' & pre & Hk & -> & Hl).
    exists p', t', (x :: pre). repeat split; auto.
    intros Hc. rewrite count_nl_cons, (cmatch_not_lf _ _ Hc Hx). auto.
Qed.

(** A successful run of the matcher enters its continuation after it has
    consumed a prefix [pre] of the input; [pre] has no line feed when the
    pattern accepts none, and every capture made on the way is a piece of
    [pre]. *)
Lemma matcher_trace (r : regex) :
  forall (k : @cont R) prev rest cs res,
    matcher ic r k prev rest cs = Some res ->
    exists prev' rest' cs' pre,
      k prev' rest' cs' = Some res
      /\ rest = pre ++ rest'
      /\ (lf_free ic r = true -> count_nl pre = 0)
      /\ (forall n s, capture n cs' = Some s ->
                      capture n cs = Some s \/ substring s pre).
Proof.
  induction r as [|c|r1 IH1 r2 IH2|r1 IH1 r2 IH2|c|c|c|g r1 IH1|];
    intros k prev rest cs res H; simpl in H.
  - exists prev, rest, cs, []. auto.
  - destruct rest as [|x xs]; [discriminate|].
    destruct (cmatch ic c x) eqn:Hx; [|discriminate].
    exists (Some x), xs, cs, [x]. repeat split; auto.
    simpl. intros Hc. apply negb_true_iff in Hc.
    rewrite count_nl_cons, (cmatch_not_lf _ _ Hc Hx). reflexivity.
  - destruct (IH1 _ _ _ _ _ H) as (p1 & t1 & c1 & pre1 & H1 & -> & L1 & C1).
    destruct (IH2 _ _ _ _ _ H1) as (p2 & t2 & c2 & pre2 & H2 & -> & L2 & C2).
    exists p2, t2, c2, (pre1 ++ pre2). repeat split; auto.
    + rewrite app_assoc. reflexivity.
    + simpl. intros Hl. apply andb_prop in Hl. destruct Hl as [Ha Hb].
      rewrite count_nl_app, L1, L2; auto.
    + intros n s Hs. destruct (C2 n s Hs) as [Hc|Hc].
      * destruct (C1 n s Hc) as [Hd|Hd]; auto.
        right. apply substring_app_r. exact Hd.
      * right. apply substring_app_l. exact Hc.
  - unfold orElse in H. destruct (matcher ic r1 k prev rest cs) eqn:E.
    + injection H as <-.
      destruct (IH1 _ _ _ _ _ E) as (p1 & t1 & c1 & pre1 & H1 & -> & L1 & C1).
      exists p1, t1, c1, pre1. repeat split; auto.
      simpl. intros Hl. apply andb_prop in Hl. apply L1. apply Hl.
    + destruct (IH2 _ _ _ _ _ H) as (p2 & t2 & c2 & pre2 & H2 & -> & L2 & C2).
      exists p2, t2, c2, pre2. repeat split; auto.
      simpl. intros Hl. apply andb_prop in Hl. apply L2. apply Hl.
  - destruct (star_greedy_trace _ _ _ _ _ _ H) as (p' & t' & pre & Hk & -> & Hl).
    exists p', t', cs, pre. repeat split; auto.
    simpl. intros Hc. apply Hl. apply negb_true_iff. exact Hc.
  - destruct (star_lazy_trace _ _ _ _ _ _ H) as (p' & t' & pre & Hk & -> & Hl).
    exists p', t', cs, pre. repeat split; auto.
    simpl. intros Hc. apply Hl. apply negb_true_iff. exact Hc.
  - destruct rest as [|x xs]; [discriminate|].
    destruct (cmatch ic c x) eqn:Hx; [|discriminate].
    destruct (star_greedy_trace _ _ _ _ _ _ H) as (p' & t' & pre & Hk & -> & Hl).
    exists p', t', cs, (x :: pre). repeat split; auto.
    simpl. intros Hc. apply negb_true_iff in Hc.
    rewrite count_nl_cons, (cmatch_not_lf _ _ Hc Hx). simpl. auto.
  - destruct (IH1 _ _ _ _ _ H) as (p1 & t1 & c1 & pre & H1 & -> & L1 & C1).
    exists p1, t1, ((g, pre) :: c1), pre. repeat split; auto.
    + rewrite <- H1. f_equal. f_equal. f_equal.
      rewrite length_app, Nat.add_sub. rewrite firstn_app, Nat.sub_diag.
      simpl. rewrite firstn_all, app_nil_r. reflexivity.
    + intros n s Hs. simpl in Hs. destruct (Nat.eqb g n).
      * injection Hs as <-. right. apply substring_refl.
      * auto.
  - destruct (xorb _ _); [|discriminate].
    exists prev, rest, cs, []. auto.
Qed.

End Trace.

Lemma count_nl_substring (s m : jsstring) :
  substring s m -> count_nl m = 0 -> count_nl s = 0.
Proof.
  intros (a & b & ->). rewrite !count_nl_app. lia.
Qed.

(** What a match found at a given position looks like. *)
Lemma match_here_trace p idx prev rest r :
  match_here p idx prev rest = Some r ->
  rest = m_text r ++ m_rest r
  /\ m_index r = idx
  /\ length (m_groups r) = ngroups (re p)
  /\ (one_line p = true -> count_nl (m_text r) = 0)
  /\ (forall s, In (Some s) (m_groups r) -> substring s (m_text r)).
Proof.
  unfold match_here. intros H.
  destruct (matcher_trace _ _ _ _ _ _ _ H) as (p' & t' & c' & pre & Hk & -> & L & C).
  injection Hk as <-. simpl.
  assert (E : firstn (length (pre ++ t') - length t') (pre ++ t') = pre).
  { rewrite length_app, Nat.add_sub, firstn_app, Nat.sub_diag. simpl.
    rewrite firstn_all, app_nil_r. reflexivity. }
  rewrite E. repeat split; auto.
  - rewrite length_map, length_seq. reflexivity.
  - intros s Hs. apply in_map_iff in Hs. destruct Hs as (n & Hn & _).
    destruct (C n s Hn) as [Hc|Hc]; [discriminate|exact Hc].
Qed.

Lemma search_trace p rest :
  forall idx prev r,
    search p idx prev rest = Some r ->
    exists pre,
      rest = pre ++ m_text r ++ m_rest r
      /\ m_index r = idx + length pre
      /\ length (m_groups r) = ngroups (re p)
      /\ (one_line p = true -> count_nl (m_text r) = 0)
      /\ (forall s, In (Some s) (m_groups r) -> substring s (m_text r)).
Proof.
  induction rest as [|x xs IH]; simpl; intros idx prev r H.
  - destruct (match_here p idx prev []) eqn:E; [|discriminate].
    injection H as <-. destruct (match_here_trace _ _ _ _ _ E) as (E1 & E2 & E3 & E4 & E5).
    exists []. simpl. rewrite Nat.add_0_r. auto.
  - destruct (match_here p idx prev (x :: xs)) eqn:E.
    + injection H as <-.
      destruct (match_here_trace _ _ _ _ _ E) as (E1 & E2 & E3 & E4 & E5).
      exists []. simpl. rewrite Nat.add_0_r. auto.
    + destruct (IH _ _ _ H) as (pre & E1 & E2 & E3 & E4 & E5).
      exists (x :: pre). simpl. repeat split; auto.
      * f_equal. exact E1.
      * rewrite E2. lia.
Qed.

(** The text of a match occurs in the text searched. *)
Lemma search_substring p content r :
  search p 0 None content = Some r -> substring (m_text r) content.
Proof.
  intros H. destruct (search_trace _ _ _ _ _ H) as (pre & E & _).
  exists pre, (m_rest r). exact E.
Qed.

Lemma split_nl_first (m post : jsstring) :
  count_nl m = 0 ->
  exists tl, split_nl (m ++ post) = (m ++ hd [] (split_nl post)) :: tl.
Proof.
  induction m as [|c m IH]; intros H.
  - simpl. destruct (split_nl post) as [|l ls] eqn:E.
    + exfalso. apply (split_nl_nonempty post). exact E.
    + exists ls. reflexivity.
  - rewrite count_nl_cons in H. destruct (N.eqb LF c) eqn:Hc; [discriminate|].
    destruct (IH H) as (tl & E). simpl. rewrite N.eqb_sym, Hc, E.
    exists tl. reflexivity.
Qed.

(** A text without line feed that occurs in a file occurs in one of its
    lines. *)
Lemma line_with_substring (content m : jsstring) :
  substring m content -> count_nl m = 0 ->
  exists line, In line (split_nl content) /\ includes line m = true.
Proof.
  intros (a & b & ->) Hm. induction a as [|c a IH].
  - simpl app. destruct (split_nl_first m b Hm) as (tl & E).
    rewrite E. eexists. split; [left; reflexivity|].
    apply includes_substring. exists [], (hd [] (split_nl b)). reflexivity.
  - destruct IH as (line & Hin & Hinc). simpl.
    destruct (N.eqb c LF).
    + exists line. split; auto. right. exact Hin.
    + destruct (split_nl (a ++ m ++ b)) as [|l ls] eqn:E; [destruct Hin|].
      destruct Hin as [<-|Hin].
      * exists (c :: l). split; [left; reflexivity|].
        rewrite includes_unfold, Hinc. apply orb_true_r.
      * exists line. split; auto. right. exact Hin.
Qed.

(** Conversely every line of a file occurs in the file. *)
Lemma line_substring (content line : jsstring) :
  In line (split_nl content) -> substring line content.
Proof.
  intros H. apply In_nth_error in H. destruct H as (k & Hk).
  destruct (split_nl_line_at _ _ _ Hk) as (pre & post & E & _).
  exists pre, post. exact E.
Qed.

(** [findIndex] finds a line for a text exactly when the text, free of
    line feeds, occurs in the file. *)
Lemma findIndex_line_iff (content m : jsstring) :
  count_nl m = 0 ->
  (findIndex (fun line => includes line m) (split_nl content) <> None
   <-> includes content m = true).
Proof.
  intros Hm. split.
  - intros H. destruct (findIndex _ (split_nl content)) as [k|] eqn:E;
      [|congruence].
    destruct (findIndex_Some _ _ _ E) as (line & Hn & Hinc & _).
    apply includes_substring. apply includes_substring in Hinc.
    apply (substring_trans _ _ _ Hinc). apply line_substring.
    eapply nth_error_In. exact Hn.
  - intros H E. apply includes_substring in H.
    destruct (line_with_substring _ _ H Hm) as (line & Hin & Hinc).
    rewrite findIndex_None in E. rewrite (E line Hin) in Hinc. discriminate.
Qed.

(* ================================================================== *)
(** ** The Rule Engine: the Issues of a report, entry by entry *)
(* ================================================================== *)

Lemma dropWhile_dropped {A} (p : A -> bool) (l : list A) :
  exists a, l = a ++ dropWhile p l /\ Forall (fun x => p x = true) a.
Proof.
  induction l as [|x t (a & E & Ha)]; simpl.
  - exists []. auto.
  - destruct (p x) eqn:Hx.
    + exists (x :: a). split; [simpl; f_equal; exact E|]. constructor; auto.
    + exists []. auto.
Qed.

Lemma dropWhile_stops {A} (p : A -> bool) (l : list A) (x : A) (t : list A) :
  dropWhile p l = x :: t -> p x = false.
Proof.
  induction l as [|y l IH]; simpl; [discriminate|].
  destruct (p y) eqn:Hy; auto. intros H. injection H as -> _. exact Hy.
Qed.

Lemma Forall_rev_of {A} (P : A -> Prop) (l : list A) :
  Forall P l -> Forall P (rev l).
Proof.
  intros H. apply Forall_forall. intros x Hx. apply in_rev in Hx.
  rewrite Forall_forall in H. auto.
Qed.

(** [trim] removes white space at both ends, and nothing else. *)
Lemma trim_spec (line : jsstring) : trim_of line (trim line).
Proof.
  unfold trim.
  destruct (dropWhile_dropped isSpace line) as (a & Ea & Ha).
  set (s1 := dropWhile isSpace line) in *.
  destruct (dropWhile_dropped isSpace (rev s1)) as (b & Eb & Hb).
  set (s2 := dropWhile isSpace (rev s1)) in *.
  assert (E1 : s1 = rev s2 ++ rev b).
  { rewrite <- (rev_involutive s1), Eb, rev_app_distr. reflexivity. }
  exists a, (rev b). repeat split.
  - rewrite Ea at 1. rewrite E1. reflexivity.
  - exact Ha.
  - apply Forall_rev_of. exact Hb.
  - unfold trimmed. destruct (rev s2) as [|c t] eqn:Et; auto.
    split.
    + apply (dropWhile_stops isSpace line c (t ++ rev b)).
      fold s1. rewrite E1. reflexivity.
    + destruct s2 as [|y s2'] eqn:Es2; [discriminate|].
      rewrite <- Et. simpl rev. rewrite last_last.
      apply (dropWhile_stops isSpace (rev s1) y s2'). exact Es2.
Qed.

Lemma split_nl_skip (pre rest : jsstring) (j : nat) :
  nth_error (split_nl (pre ++ LF :: rest)) (count_nl pre + 1 + j)
  = nth_error (split_nl rest) j.
Proof.
  induction pre as [|c pre IH].
  - reflexivity.
  - rewrite count_nl_cons. cbn [app split_nl].
    destruct (N.eqb c LF) eqn:Hc.
    + rewrite N.eqb_sym, Hc. exact IH.
    + rewrite N.eqb_sym, Hc.
      destruct (split_nl (pre ++ LF :: rest)) as [|l ls] eqn:E.
      * exfalso. apply (split_nl_nonempty _ E).
      * replace (0 + count_nl pre + 1 + j) with (S (count_nl pre + j)) by lia.
        replace (count_nl pre + 1 + j) with (S (count_nl pre + j)) in IH by lia.
        exact IH.
Qed.

Lemma split_nl_head (line post : jsstring) :
  count_nl line = 0 -> (post = [] \/ exists post', post = LF :: post') ->
  nth_error (split_nl (line ++ post)) 0 = Some line.
Proof.
  intros Hl Hp. destruct (split_nl_first line post Hl) as (tl & E).
  rewrite E. simpl. f_equal.
  destruct Hp as [->|(post' & ->)]; simpl; apply app_nil_r.
Qed.

(** A line of a text is the element of [split('\n')] at its index. *)
Lemma line_at_nth_error (content : jsstring) (k : nat) (line : jsstring) :
  line_at content k line -> nth_error (split_nl content) k = Some line.
Proof.
  intros (pre & post & -> & Hk & Hpre & Hpost & Hl).
  destruct Hpre as [->|(pre' & ->)].
  - simpl in *. subst k. apply split_nl_head; auto.
  - rewrite count_nl_app in Hk. change (count_nl [LF]) with 1 in Hk.
    rewrite <- app_assoc. simpl app.
    replace k with (count_nl pre' + 1 + 0) by lia.
    rewrite split_nl_skip. apply split_nl_head; auto.
Qed.

(** What [findIndex] returns for a text, in terms of the lines of the
    file and of the occurrences of the text. *)
Lemma findIndex_first_line (content m : jsstring) (k : nat) :
  findIndex (fun line => includes line m) (split_nl content) = Some k ->
  first_line_containing content m k (nth k (split_nl content) []).
Proof.
  intros H. destruct (findIndex_Some _ _ _ H) as (line & Hn & Hinc & Hlt).
  rewrite (nth_error_nth _ _ _ Hn). repeat split.
  - apply split_nl_line_at. exact Hn.
  - apply includes_substring. exact Hinc.
  - intros j l Hj Hl Hs. apply line_at_nth_error in Hl.
    apply includes_substring in Hs. rewrite (Hlt j l Hj Hl) in Hs. discriminate.
Qed.

Lemma findIndex_no_line (content m : jsstring) :
  findIndex (fun line => includes line m) (split_nl content) = None ->
  no_line_contains content m.
Proof.
  intros H j l Hl Hs. rewrite findIndex_None in H.
  apply line_at_nth_error in Hl. apply nth_error_In in Hl.
  apply includes_substring in Hs. rewrite (H l Hl) in Hs. discriminate.
Qed.

Lemma issueAt_issue_for content uv uf d m k :
  findIndex (fun line => includes line m) (split_nl content) = Some k ->
  issue_for content uv uf d m (issueAt content uv uf d m k).
Proof.
  intros H. exists k, (nth k (split_nl content) []).
  split; [apply findIndex_first_line; exact H|].
  repeat split. apply trim_spec.
Qed.

Lemma emitted_app content uv uf es1 is1 es2 is2 :
  emitted content uv uf es1 is1 -> emitted content uv uf es2 is2 ->
  emitted content uv uf (es1 ++ es2) (is1 ++ is2).
Proof.
  induction 1; intros H2; simpl; auto.
  - apply emitted_issue; auto.
  - apply emitted_none; auto.
Qed.

Lemma emitted_length content uv uf es is_ :
  emitted content uv uf es is_ -> length is_ <= length es.
Proof. induction 1; simpl; lia. Qed.

(** The loop over a match array. *)
Lemma forOf_checkMatch_emitted content uv uf d ms :
  forall acc out,
    forOf (checkMatch content uv uf d) ms acc = inr out ->
    exists added, out = acc ++ added
                  /\ emitted content uv uf (map (pair d) ms) added.
Proof.
  induction ms as [|x ms IH]; simpl; intros acc out H.
  - injection H as <-. exists []. rewrite app_nil_r. split; [auto|constructor].
  - destruct (checkMatch content uv uf d acc x) as [e|acc'] eqn:Hx;
      simpl in H; [discriminate|].
    destruct (IH _ _ H) as (added & -> & Hem).
    unfold checkMatch in Hx.
    destruct (findIndex _ (split_nl content)) as [k|] eqn:Hk.
    + destruct x as [m|]; simpl in Hx; [|discriminate].
      injection Hx as <-. eexists. rewrite <- app_assoc. split; [reflexivity|].
      simpl. apply emitted_issue; auto. apply issueAt_issue_for. exact Hk.
    + injection Hx as <-. exists added. split; auto.
      apply emitted_none; auto. apply findIndex_no_line. exact Hk.
Qed.

Lemma checkDetector_emitted content uv uf d acc out :
  checkDetector content uv uf acc d = inr out ->
  exists part, out = acc ++ part
               /\ emitted content uv uf (detector_entries content d) part.
Proof.
  unfold checkDetector, detector_entries.
  destruct (match_first (pattern d) content) as [ms|].
  - apply forOf_checkMatch_emitted.
  - intros H. injection H as <-. exists []. rewrite app_nil_r.
    split; [auto|constructor].
Qed.

Lemma forOf_checkDetector_emitted content uv uf ds :
  forall acc out,
    forOf (checkDetector content uv uf) ds acc = inr out ->
    exists parts,
      out = acc ++ concat parts
      /\ Forall2 (fun d part =>
                    emitted content uv uf (detector_entries content d) part)
           ds parts.
Proof.
  induction ds as [|d ds IH]; simpl; intros acc out H.
  - injection H as <-. exists []. rewrite app_nil_r. split; [auto|constructor].
  - destruct (checkDetector content uv uf acc d) as [e|acc'] eqn:Hd;
      simpl in H; [discriminate|].
    destruct (checkDetector_emitted _ _ _ _ _ _ Hd) as (part & -> & Hp).
    destruct (IH _ _ H) as (parts & -> & Hps).
    exists (part :: parts). simpl. rewrite app_assoc. split; auto.
Qed.

(** The Issues of a report, detector by detector. *)
Lemma checkFile_emitted read p r :
  checkFile read p = Report r ->
  exists content parts,
    read p = inr content
    /\ issues r = concat parts
    /\ Forall2 (fun d part =>
                  emitted content (usesValidationService r)
                    (usesFormatterService r) (detector_entries content d) part)
         VALIDATION_ISSUES parts.
Proof.
  intros H.
  destruct (checkFile_Report _ _ _ H) as (content & Hr & _ & _ & _ & _ & _ & Hl).
  destruct (forOf_checkDetector_emitted _ _ _ _ _ _ Hl) as (parts & E & Hp).
  exists content, parts. auto.
Qed.

Lemma emitted_concat content uv uf (ds : list Detector) parts :
  Forall2 (fun d part => emitted content uv uf (detector_entries content d) part)
    ds parts ->
  emitted content uv uf (flat_map (detector_entries content) ds) (concat parts).
Proof.
  induction 1; simpl; [constructor|]. apply emitted_app; auto.
Qed.

Lemma emitted_In content uv uf es is_ i :
  emitted content uv uf es is_ -> In i is_ ->
  exists d m, In (d, Some m) es /\ issue_for content uv uf d m i.
Proof.
  induction 1 as [|d m es i' is_ Hi Hem IH|d o es is_ Hno Hem IH]; intros Hin.
  - destruct Hin.
  - destruct Hin as [<-|Hin].
    + exists d, m. split; [left; reflexivity|exact Hi].
    + destruct (IH Hin) as (d' & m' & H1 & H2). exists d', m'.
      split; [right|]; auto.
  - destruct (IH Hin) as (d' & m' & H1 & H2). exists d', m'.
    split; [right|]; auto.
Qed.

Lemma match_entries_In content d (o : option jsstring) :
  In (d, o) (match_entries content) ->
  In d VALIDATION_ISSUES
  /\ exists ms, match_first (pattern d) content = Some ms /\ In o ms.
Proof.
  unfold match_entries. rewrite in_flat_map. intros (d' & Hd & Hin).
  unfold detector_entries in Hin.
  destruct (match_first (pattern d') content) as [ms|] eqn:E; [|destruct Hin].
  apply in_map_iff in Hin. destruct Hin as (o' & Heq & Ho).
  injection Heq as -> ->. split; auto. exists ms. auto.
Qed.

Lemma emitted_single content uv uf d m first :
  emitted content uv uf [(d, Some m)] first ->
  (no_line_contains content m /\ first = [])
  \/ (exists i, issue_for content uv uf d m i /\ first = [i]).
Proof.
  intros H. inversion H as [|d' m' es i is_ Hi Hem|d' o es is_ Hno Hem]; subst.
  - inversion Hem; subst. right. exists i. auto.
  - inversion Hem; subst. left. auto.
Qed.

Lemma emitted_cons_inv content uv uf e es part :
  emitted content uv uf (e :: es) part ->
  exists first rest, part = first ++ rest
                     /\ emitted content uv uf [e] first
                     /\ emitted content uv uf es rest.
Proof.
  intros H. inversion H as [|d m es' i is_ Hi Hem|d o es' is_ Hno Hem]; subst.
  - exists [i], is_. repeat split; auto. apply emitted_issue; [auto|constructor].
  - exists [], part. repeat split; auto. apply emitted_none; [auto|constructor].
Qed.

(** The leftmost match is one of the distinct matched texts. *)
Lemma leftmost_is_distinct p content mr :
  search p 0 None content = Some mr ->
  In (m_text mr) (distinct_matches p content).
Proof.
  intros H. unfold distinct_matches, all_matches, matches_g.
  apply nodup_In. cbn [exec_all]. rewrite H. left. reflexivity.
Qed.

(** C1, as the code has it. In the report of a file the Issues come
    detector by detector, in the order of the six detectors.  A detector
    whose pattern does not match contributes nothing.  When it matches, the
    text of the leftmost match - one of the distinct matched texts - gives
    exactly one Issue, the first of the detector's, reported on the first
    line that contains this text, when some line contains it, and no Issue
    when no line does.  The Issues [rest] that follow it come from the
    capture groups of that match, one at most for each.  So a detector
    without capture group contributes nothing else: when all the matches of
    its pattern have the same text [m], there is exactly one Issue for [m],
    however many times it occurs, or none when no line contains it. *)
Theorem C1_leftmost_match_issue read p r :
  checkFile read p = Report r ->
  exists content parts,
    read p = inr content
    /\ issues r = concat parts
    /\ Forall2
         (fun d part =>
            match search (pattern d) 0 None content with
            | None => part = []
            | Some mr =>
                In (m_text mr) (distinct_matches (pattern d) content)
                /\ (exists first rest,
                       part = first ++ rest
                       /\ ((no_line_contains content (m_text mr) /\ first = [])
                           \/ (exists i,
                                  issue_for content (usesValidationService r)
                                    (usesFormatterService r) d (m_text mr) i
                                  /\ first = [i]))
                       /\ emitted content (usesValidationService r)
                            (usesFormatterService r)
                            (map (pair d) (m_groups mr)) rest
                       /\ length rest <= ngroups (re (pattern d)))
                /\ (ngroups (re (pattern d)) = 0 ->
                    forall m, distinct_matches (pattern d) content = [m] ->
                      (no_line_contains content m /\ part = [])
                      \/ (exists i,
                             issue_for content (usesValidationService r)
                               (usesFormatterService r) d m i
                             /\ part = [i]))
            end)
         VALIDATION_ISSUES parts.
Proof.
  intros H.
  destruct (checkFile_emitted _ _ _ H) as (content & parts & Hr & E & Hp).
  exists content, parts. split; [exact Hr|]. split; [exact E|].
  eapply Forall2_impl; [|exact Hp]. intros d part Hem.
  unfold detector_entries, match_first in Hem.
  destruct (search (pattern d) 0 None content) as [mr|] eqn:Hs.
  - pose proof (leftmost_is_distinct _ _ _ Hs) as Hin.
    simpl in Hem. destruct (emitted_cons_inv _ _ _ _ _ _ Hem)
      as (first & rest & -> & Hfirst & Hrest).
    apply emitted_single in Hfirst.
    assert (Hlen : length rest <= ngroups (re (pattern d))).
    { apply emitted_length in Hrest. rewrite length_map in Hrest.
      destruct (search_trace _ _ _ _ _ Hs) as (_ & _ & _ & Hn & _).
      rewrite <- Hn. exact Hrest. }
    split; [exact Hin|]. split.
    + exists first, rest. auto.
    + intros Hg m Hm. rewrite Hm in Hin. destruct Hin as [Heq|[]]. subst m.
      rewrite Hg in Hlen. destruct rest; [|simpl in Hlen; lia].
      rewrite app_nil_r. exact Hfirst.
  - inversion Hem. reflexivity.
Qed.

(** The theorem at the file [same_test_twice]: the pattern of the [.test]
    detector, which has no capture group, matches twice, with the same
    text, and the report has one Issue, on line 1. *)
Lemma C1_leftmost_match_issue_witness :
  exists r,
    checkFile (readFile (one_file same_test_twice)) a_ts = Report r
    /\ all_matches (pattern regex_test) same_test_twice
       = [js ".test(/x/)"; js ".test(/x/)"]
    /\ distinct_matches (pattern regex_test) same_test_twice = [js ".test(/x/)"]
    /\ ngroups (re (pattern regex_test)) = 0
    /\ map i_line (issues r) = [1]
    /\ exists content parts,
         readFile (one_file same_test_twice) a_ts = inr content
         /\ issues r = concat parts
         /\ Forall2
              (fun d part =>
                 match search (pattern d) 0 None content with
                 | None => part = []
                 | Some mr =>
                     In (m_text mr) (distinct_matches (pattern d) content)
                     /\ (exists first rest,
                            part = first ++ rest
                            /\ ((no_line_contains content (m_text mr)
                                 /\ first = [])
                                \/ (exists i,
                                       issue_for content (usesValidationService r)
                                         (usesFormatterService r) d (m_text mr) i
                                       /\ first = [i]))
                            /\ emitted content (usesValidationService r)
                                 (usesFormatterService r)
                                 (map (pair d) (m_groups mr)) rest
                            /\ length rest <= ngroups (re (pattern d)))
                     /\ (ngroups (re (pattern d)) = 0 ->
                         forall m, distinct_matches (pattern d) content = [m] ->
                           (no_line_contains content m /\ part = [])
                           \/ (exists i,
                                  issue_for content (usesValidationService r)
                                    (usesFormatterService r) d m i
                                  /\ part = [i]))
                 end)
              VALIDATION_ISSUES parts.
Proof.
  eexists. split; [vm_compute; reflexivity|].
  split; [vm_compute; reflexivity|]. split; [vm_compute; reflexivity|].
  split; [reflexivity|]. split; [vm_compute; reflexivity|].
  apply (C1_leftmost_match_issue (readFile (one_file same_test_twice)) a_ts).
  vm_compute. reflexivity.
Defined.

(** C3. The Issues of a report are, in order, those of the entries of the
    match arrays that some line contains, one for each such entry [m] (the
    value of the loop variable [match]): its line number is [k + 1] where
    [k] is the index of the first line in which [m] occurs - whether or not
    the match itself lies on that line -, exactly [k] line feeds precede
    that line in the file, and its content is that line without the white
    space at its two ends. *)
Theorem C3_first_line_reported read p r :
  checkFile read p = Report r ->
  exists content,
    read p = inr content
    /\ emitted content (usesValidationService r) (usesFormatterService r)
         (match_entries content) (issues r)
    /\ forall i, In i (issues r) ->
         exists d ms m k line,
           In d VALIDATION_ISSUES
           /\ match_first (pattern d) content = Some ms /\ In (Some m) ms
           /\ first_line_containing content m k line
           /\ i_line i = k + 1
           /\ trim_of line (i_content i).
Proof.
  intros H.
  destruct (checkFile_emitted _ _ _ H) as (content & parts & Hr & E & Hp).
  exists content. split; [exact Hr|].
  assert (Hem : emitted content (usesValidationService r) (usesFormatterService r)
                  (match_entries content) (issues r)).
  { rewrite E. apply emitted_concat. exact Hp. }
  split; [exact Hem|]. intros i Hi.
  destruct (emitted_In _ _ _ _ _ _ Hem Hi)
    as (d & m & Hin & k & line & Hf & Hl & Ht & _).
  destruct (match_entries_In _ _ _ Hin) as (Hd & ms & Hm & Hms).
  exists d, ms, m, k, line. auto 10.
Qed.

(** The theorem at the file [earlier_line]: the field-name detector matches
    on the third line, at index 30 of the text, and the three Issues report
    line 2, which contains the matched text too, by its trimmed text. *)
Lemma C3_first_line_reported_witness :
  exists r,
    checkFile (readFile (one_file earlier_line)) a_ts = Report r
    /\ map (fun i => (i_line i, i_content i)) (issues r)
       = [(2, js "// myemail valid"); (2, js "// myemail valid");
          (2, js "// myemail valid")]
    /\ nth_error (split_nl earlier_line) 1 = Some (js "  // myemail valid  ")
    /\ match_first (pattern field_validation) earlier_line
       = Some [Some (js "email valid"); Some (js "email"); Some (js "valid")]
    /\ m_index_of_first earlier_line = Some 30
    /\ exists content,
         readFile (one_file earlier_line) a_ts = inr content
         /\ emitted content (usesValidationService r) (usesFormatterService r)
              (match_entries content) (issues r)
         /\ forall i, In i (issues r) ->
              exists d ms m k line,
                In d VALIDATION_ISSUES
                /\ match_first (pattern d) content = Some ms /\ In (Some m) ms
                /\ first_line_containing content m k line
                /\ i_line i = k + 1
                /\ trim_of line (i_content i).
Proof.
  eexists. split; [vm_compute; reflexivity|].
  split; [vm_compute; reflexivity|]. split; [vm_compute; reflexivity|].
  split; [vm_compute; reflexivity|]. split; [vm_compute; reflexivity|].
  apply (C3_first_line_reported (readFile (one_file earlier_line)) a_ts).
  vm_compute. reflexivity.
Defined.

(* ================================================================== *)
(** ** The Rule Engine: how many Issues a detector adds *)
(* ================================================================== *)

Lemma forOf_checkMatch_found content uv uf d ms :
  Forall (fun x => exists s, x = Some s /\ includes content s = true
                             /\ count_nl s = 0) ms ->
  forall acc,
  exists added,
    forOf (checkMatch content uv uf d) ms acc = inr (acc ++ added)
    /\ length added = length ms.
Proof.
  induction 1 as [|x ms (s & -> & Hinc & Hnl) Hms IH]; intros acc; simpl.
  - exists []. rewrite app_nil_r. auto.
  - rewrite checkMatch_defined. simpl.
    destruct (findIndex (fun line => includes line s) (split_nl content))
      as [k|] eqn:E.
    + destruct (IH (acc ++ [issueAt content uv uf d s k])) as (added & -> & Hl).
      exists (issueAt content uv uf d s k :: added).
      rewrite <- app_assoc. simpl. auto.
    + exfalso. apply (findIndex_line_iff content s Hnl); auto.
Qed.

Lemma match_entries_found p content r :
  search p 0 None content = Some r ->
  one_line p = true -> groups_always_set p = true ->
  Forall (fun x => exists s, x = Some s /\ includes content s = true
                             /\ count_nl s = 0)
    (Some (m_text r) :: m_groups r).
Proof.
  intros H Hl Hg.
  destruct (search_trace _ _ _ _ _ H) as (pre & E & _ & _ & Hnl & Hsub).
  specialize (Hnl Hl).
  assert (Hm : substring (m_text r) content) by (exists pre, (m_rest r); exact E).
  constructor.
  - exists (m_text r). repeat split; auto. apply includes_substring. exact Hm.
  - pose proof (search_groups _ _ _ _ _ Hg H) as Hd.
    rewrite Forall_forall in *. intros x Hx. specialize (Hd x Hx).
    destruct x as [s|]; [|exfalso; apply Hd; reflexivity].
    exists s. repeat split.
    + apply includes_substring. eapply substring_trans; [apply Hsub; exact Hx|exact Hm].
    + eapply count_nl_substring; [apply Hsub; exact Hx|exact Hnl].
Qed.

(** A detector whose pattern accepts no line feed and always sets its
    capture groups never throws, and adds as many Issues as the array of
    [match] has entries - one for the match and one for each capture
    group - when it matches, none when it does not. *)
Theorem one_line_detector_issues content uv uf d acc :
  one_line (pattern d) = true ->
  groups_always_set (pattern d) = true ->
  exists added,
    checkDetector content uv uf acc d = inr (acc ++ added)
    /\ length added = if JS.test (pattern d) content
                      then match_array_length (pattern d) else 0.
Proof.
  intros Hl Hg. unfold checkDetector, match_first, JS.test.
  destruct (search (pattern d) 0 None content) as [r|] eqn:Hs.
  - destruct (forOf_checkMatch_found content uv uf d _
                (match_entries_found _ _ _ Hs Hl Hg) acc) as (added & E & Hlen).
    exists added. split; auto. rewrite Hlen. simpl.
    destruct (search_trace _ _ _ _ _ Hs) as (_ & _ & _ & Hn & _).
    unfold match_array_length. rewrite Hn. reflexivity.
  - exists []. rewrite app_nil_r. auto.
Qed.

(** The theorem at the string-method detector and a file with one [.trim()]
    call; the field-name and [new RegExp] detectors are the two others it
    applies to, with arrays of three and of one entry. *)
Lemma one_line_detector_issues_witness :
  one_line (pattern string_manipulation) = true
  /\ groups_always_set (pattern string_manipulation) = true
  /\ map (fun d => (one_line (pattern d), groups_always_set (pattern d),
                    match_array_length (pattern d))) VALIDATION_ISSUES
     = [(true, true, 3); (false, true, 1); (false, true, 1);
        (true, true, 1); (true, true, 2); (false, false, 2)]
  /\ exists added,
       checkDetector one_trim false false [] string_manipulation
       = inr ([] ++ added)
       /\ length added = if JS.test (pattern string_manipulation) one_trim
                         then match_array_length (pattern string_manipulation)
                         else 0.
Proof.
  assert (H1 : one_line (pattern string_manipulation) = true)
    by (vm_compute; reflexivity).
  assert (H2 : groups_always_set (pattern string_manipulation) = true)
    by (vm_compute; reflexivity).
  split; [exact H1|]. split; [exact H2|]. split; [vm_compute; reflexivity|].
  exact (one_line_detector_issues one_trim false false string_manipulation []
           H1 H2).
Defined.

Lemma checkDetector_bound content uv uf d acc out :
  checkDetector content uv uf acc d = inr out ->
  length out <= length acc + match_array_length (pattern d).
Proof.
  unfold checkDetector, match_first.
  destruct (search (pattern d) 0 None content) as [r|] eqn:Hs.
  - intros H. destruct (forOf_checkMatch _ _ _ _ _ _ _ H) as (added & -> & Hl & _).
    destruct (search_trace _ _ _ _ _ Hs) as (_ & _ & _ & Hn & _).
    rewrite length_app. simpl in Hl. unfold match_array_length. lia.
  - intros H. injection H as <-. lia.
Qed.

Lemma forOf_checkDetector_bound content uv uf ds :
  forall acc out,
    forOf (checkDetector content uv uf) ds acc = inr out ->
    length out
    <= length acc + list_sum (map (fun d => match_array_length (pattern d)) ds).
Proof.
  induction ds as [|d ds IH]; simpl; intros acc out H.
  - injection H as <-. lia.
  - destruct (checkDetector content uv uf acc d) as [e|acc'] eqn:Hd;
      simpl in H; [discriminate|].
    apply checkDetector_bound in Hd. apply IH in H.
    unfold match_array_length in *. lia.
Qed.

(** No file has more than ten Issues, however many violations it holds:
    each detector looks at its leftmost match only, and the six match
    arrays have 3, 1, 1, 1, 2 and 2 entries. *)
Theorem issueCount_at_most_ten read p r :
  checkFile read p = Report r ->
  issueCount r <= 10 /\ length (issues r) <= 10.
Proof.
  intros H.
  destruct (checkFile_Report _ _ _ H) as (content & _ & _ & _ & _ & _ & Hc & Hl).
  apply forOf_checkDetector_bound in Hl.
  assert (E : list_sum (map (fun d => match_array_length (pattern d))
                          VALIDATION_ISSUES) = 10) by reflexivity.
  rewrite E in Hl. simpl length in Hl. rewrite Hc. lia.
Qed.

(** The bound is reached. *)
Lemma issueCount_at_most_ten_witness :
  exists r,
    checkFile (readFile (one_file every_detector)) a_ts = Report r
    /\ issueCount r = 10
    /\ (issueCount r <= 10 /\ length (issues r) <= 10).
Proof.
  eexists. split; [vm_compute; reflexivity|]. split; [reflexivity|].
  eapply (issueCount_at_most_ten (readFile (one_file every_detector)) a_ts).
  vm_compute. reflexivity.
Defined.

(* ================================================================== *)
(** ** When [checkFile] gives up on a file it could read *)
(* ================================================================== *)

Lemma forOf_app {A S} (body : S -> A -> result S) (l1 l2 : list A) :
  forall s, forOf body (l1 ++ l2) s = bind (forOf body l1 s) (forOf body l2).
Proof.
  induction l1 as [|x l1 IH]; intros s; simpl; auto.
  destruct (body s x); simpl; auto.
Qed.

Lemma checkDetector_total content uv uf d acc :
  groups_always_set (pattern d) = true ->
  exists out, checkDetector content uv uf acc d = inr out.
Proof.
  intros Hg. unfold checkDetector.
  destruct (match_first (pattern d) content) as [ms|] eqn:Hm; eauto.
  apply forOf_checkMatch_total. eapply match_first_defined; eauto.
Qed.

Lemma forOf_checkDetector_total content uv uf ds :
  Forall (fun d => groups_always_set (pattern d) = true) ds ->
  forall acc, exists out, forOf (checkDetector content uv uf) ds acc = inr out.
Proof.
  induction 1 as [|d ds Hd Hds IH]; intros acc; simpl; eauto.
  destruct (checkDetector_total content uv uf d acc Hd) as (out & ->).
  simpl. apply IH.
Qed.

(** The round of the last detector throws exactly when its capture group
    is [undefined] and the word [undefined] is in the file: the loop then
    looks for the text "undefined", finds a line, and calls
    [getSuggestion] on [undefined]. *)
Lemma custom_validation_round content uv uf acc :
  if arrow_and_undefined_word content
  then checkDetector content uv uf acc custom_validation = inl undefined_includes
  else exists out, checkDetector content uv uf acc custom_validation = inr out.
Proof.
  unfold arrow_and_undefined_word, checkDetector, match_first.
  destruct (search (pattern custom_validation) 0 None content) as [r|] eqn:Hs;
    [|eauto].
  destruct (search_trace _ _ _ _ _ Hs) as (_ & _ & _ & Hn & _).
  change (ngroups (re (pattern custom_validation))) with 1 in Hn.
  destruct (m_groups r) as [|g [|g' gs]]; try discriminate.
  simpl forOf. rewrite checkMatch_defined. cbn [bind].
  destruct g as [s|].
  - rewrite checkMatch_defined. cbn [bind]. eauto.
  - unfold checkMatch. cbn [to_search_string].
    pose proof (findIndex_line_iff content (js "undefined") eq_refl) as Hiff.
    destruct (findIndex (fun line => includes line (js "undefined"))
                (split_nl content)) as [k|] eqn:E.
    + assert (Hi : includes content (js "undefined") = true)
        by (apply Hiff; discriminate).
      rewrite Hi. reflexivity.
    + destruct (includes content (js "undefined")) eqn:Hi.
      * exfalso. apply Hiff; auto.
      * cbn [bind]. eauto.
Qed.

(** A file that was read ends as an error object in exactly one case: the
    last detector matched an arrow [=> {] and the word [undefined] occurs
    somewhere in the text.  In every other case [checkFile] returns a
    report. *)
Theorem checkFile_error_iff read p content :
  read p = inr content ->
  if arrow_and_undefined_word content
  then checkFile read p = CheckError p undefined_match_error
  else exists r, checkFile read p = Report r.
Proof.
  intros Hr. unfold checkFile. rewrite Hr. cbn [bind]. unfold checkContent.
  change VALIDATION_ISSUES
    with ([field_validation; regex_test; regex_match; new_regexp;
           string_manipulation] ++ [custom_validation]).
  rewrite forOf_app.
  set (uv := includes content (js "ValidationService")).
  set (uf := includes content (js "FormatterService")).
  destruct (forOf_checkDetector_total content uv uf
              [field_validation; regex_test; regex_match; new_regexp;
               string_manipulation]) with (acc := @nil Issue) as (acc5 & ->).
  { repeat constructor. }
  cbn [bind forOf].
  pose proof (custom_validation_round content uv uf acc5) as H.
  destruct (arrow_and_undefined_word content).
  - rewrite H. reflexivity.
  - destruct H as (out & ->). cbn [bind]. eauto.
Qed.

Lemma checkFile_error_iff_witness :
  readFile (one_file arrow_and_undefined) a_ts = inr arrow_and_undefined
  /\ arrow_and_undefined_word arrow_and_undefined = true
  /\ if arrow_and_undefined_word arrow_and_undefined
     then checkFile (readFile (one_file arrow_and_undefined)) a_ts
          = CheckError a_ts undefined_match_error
     else exists r,
         checkFile (readFile (one_file arrow_and_undefined)) a_ts = Report r.
Proof.
  assert (H : readFile (one_file arrow_and_undefined) a_ts
              = inr arrow_and_undefined) by (vm_compute; reflexivity).
  split; [exact H|]. split; [vm_compute; reflexivity|].
  exact (checkFile_error_iff _ a_ts arrow_and_undefined H).
Defined.

(* ================================================================== *)
(** ** The Aggregator: the numbers of a report agree *)
(* ================================================================== *)

Lemma fold_left_sum {A} (g : A -> nat) (l : list A) :
  forall a, fold_left (fun t x => t + g x) l a = a + list_sum (map g l).
Proof.
  induction l as [|x l IH]; intros a; simpl; [lia|]. rewrite IH. lia.
Qed.

Lemma list_sum_perm {A} (g : A -> nat) (l l' : list A) :
  Permutation l l' -> list_sum (map g l) = list_sum (map g l').
Proof. induction 1; simpl; lia. Qed.

Lemma list_sum_ext_in {A} (g h : A -> nat) (l : list A) :
  (forall x, In x l -> g x = h x) -> list_sum (map g l) = list_sum (map h l).
Proof.
  induction l as [|x l IH]; intros H; simpl; auto.
  rewrite (H x) by (left; reflexivity). rewrite IH; auto.
  intros y Hy. apply H. right. exact Hy.
Qed.

Lemma list_sum_le {A} (g h : A -> nat) (l : list A) :
  (forall x, In x l -> g x <= h x) -> list_sum (map g l) <= list_sum (map h l).
Proof.
  induction l as [|x l IH]; intros H; simpl; auto.
  assert (g x <= h x) by (apply H; left; reflexivity).
  assert (list_sum (map g l) <= list_sum (map h l))
    by (apply IH; intros y Hy; apply H; right; exact Hy).
  lia.
Qed.

Lemma length_withIssues (results : list CheckResult) :
  length (withIssues results) <= length results.
Proof.
  induction results as [|[f|q e] t IH]; simpl; auto; try lia.
  destruct (Nat.ltb 0 (issueCount f)); simpl; lia.
Qed.

(** A file with issues of a scan is the report of a file of the list that
    could be read. *)
Lemma withIssues_origin read files f :
  In f (withIssues (map (checkFile read) files)) ->
  exists file content,
    In file files /\ read file = inr content
    /\ checkFile read file = Report f
    /\ path f = file
    /\ 0 < issueCount f /\ issueCount f = length (issues f).
Proof.
  intros H. apply withIssues_In in H. destruct H as [Hin Hpos].
  apply in_map_iff in Hin. destruct Hin as (file & Hc & Hfile).
  destruct (checkFile_Report _ _ _ Hc) as (content & Hr & Hp & _ & _ & _ & Hn & _).
  exists file, content. repeat split; auto.
Qed.

Lemma sorted_withIssues read files f :
  In f (sort_by byIssueCount (withIssues (map (checkFile read) files))) ->
  In f (withIssues (map (checkFile read) files)).
Proof. apply Permutation_in. apply (sort_by_perm issueCount). Qed.

Lemma detail_summarize env files results :
  detail (summarize env files results)
  = map (fun file => {| d_path := path_relative env (projectRoot env) (path file);
                        d_issues := issues file;
                        d_suggestedFix := suggestedFix file |})
      (sort_by byIssueCount (withIssues results)).
Proof. reflexivity. Qed.

(** The numbers of a report fit together: the files with issues are the
    entries of the detail and are at most the files scanned; the total is
    the number of Issues listed in the detail; the high-severity count is
    the number of those of severity high, so at most the total; and every
    entry of the detail has at least one Issue. *)
Theorem report_counts_agree env files :
  let s := summarize env files (map (checkFile (readFile env)) files) in
  filesScanned s = length files
  /\ filesWithIssues s = length (detail s)
  /\ filesWithIssues s <= filesScanned s
  /\ totalIssues s = list_sum (map (fun d => length (d_issues d)) (detail s))
  /\ highSeverityIssues s
     = list_sum (map (fun d => length (filter isHigh (d_issues d))) (detail s))
  /\ highSeverityIssues s <= totalIssues s
  /\ filesWithIssues s <= totalIssues s
  /\ Forall (fun d => 0 < length (d_issues d)) (detail s).
Proof.
  intros s.
  set (results := map (checkFile (readFile env)) files).
  set (fwi := withIssues results).
  set (sorted := sort_by byIssueCount fwi).
  assert (HP : Permutation sorted fwi) by apply (sort_by_perm issueCount).
  assert (Hor : forall f, In f sorted ->
                          0 < issueCount f /\ issueCount f = length (issues f)).
  { intros f Hf. apply sorted_withIssues in Hf.
    destruct (withIssues_origin _ _ _ Hf) as (_ & _ & _ & _ & _ & _ & H1 & H2).
    auto. }
  assert (Hd : detail s
               = map (fun file => {| d_path := path_relative env (projectRoot env) (path file);
                                     d_issues := issues file;
                                     d_suggestedFix := suggestedFix file |}) sorted)
    by reflexivity.
  assert (Hfw : filesWithIssues s = length sorted) by reflexivity.
  assert (Htot : totalIssues s = list_sum (map (fun f => length (issues f)) sorted)).
  { change (totalIssues s)
      with (fold_left (fun total file => total + issueCount file) fwi 0).
    rewrite fold_left_sum. simpl.
    rewrite <- (list_sum_perm _ _ _ HP). apply list_sum_ext_in.
    intros f Hf. apply Hor. exact Hf. }
  assert (Hhi : highSeverityIssues s
                = list_sum (map (fun f => length (filter isHigh (issues f))) sorted)).
  { change (highSeverityIssues s)
      with (fold_left (fun count file =>
                         count + length (filter isHigh (issues file))) sorted 0).
    rewrite fold_left_sum. reflexivity. }
  repeat split.
  - rewrite Hfw, Hd, length_map. reflexivity.
  - rewrite Hfw, (Permutation_length HP).
    change (filesScanned s) with (length files).
    rewrite <- (length_map (checkFile (readFile env)) files).
    apply length_withIssues.
  - rewrite Htot, Hd, map_map. reflexivity.
  - rewrite Hhi, Hd, map_map. reflexivity.
  - rewrite Hhi, Htot. apply list_sum_le. intros f _. apply filter_length_le.
  - rewrite Hfw, Htot. clear - Hor.
    induction sorted as [|f t IH]; simpl; auto.
    assert (0 < length (issues f)).
    { destruct (Hor f) as [H1 H2]; [left; reflexivity|]. lia. }
    assert (length t <= list_sum (map (fun f => length (issues f)) t))
      by (apply IH; intros g Hg; apply Hor; right; exact Hg).
    lia.
  - rewrite Hd. apply Forall_forall. intros d Hdin.
    apply in_map_iff in Hdin. destruct Hdin as (f & <- & Hf). simpl.
    destruct (Hor f Hf) as [H1 H2]. lia.
Qed.

Lemma StronglySorted_map {A B} (g : A -> B) (R : B -> B -> Prop) (l : list A) :
  StronglySorted (fun a b => R (g a) (g b)) l -> StronglySorted R (map g l).
Proof.
  induction 1 as [|a l Hl IH Ha]; simpl; constructor; auto.
  apply Forall_forall. intros b Hb. apply in_map_iff in Hb.
  destruct Hb as (x & <- & Hx). rewrite Forall_forall in Ha. auto.
Qed.

Lemma StronglySorted_impl_in {A} (R R' : A -> A -> Prop) (l : list A) :
  (forall a b, In a l -> In b l -> R a b -> R' a b) ->
  StronglySorted R l -> StronglySorted R' l.
Proof.
  intros H HS. induction HS as [|a l Hl IH Ha]; constructor.
  - apply IH. intros x y Hx Hy. apply H; right; assumption.
  - rewrite Forall_forall in *. intros b Hb.
    apply H; [left; reflexivity|right; exact Hb|apply Ha; exact Hb].
Qed.

(** The detail lists the files by decreasing number of Issues, and the
    five most problematic files are its first five entries, each reduced
    to its path and to the number of its Issues. *)
Theorem detail_order env files :
  let s := summarize env files (map (checkFile (readFile env)) files) in
  StronglySorted (fun a b => length (d_issues b) <= length (d_issues a)) (detail s)
  /\ mostProblematicFiles s
     = map (fun d => {| o_path := d_path d; o_issueCount := length (d_issues d) |})
         (firstn 5 (detail s)).
Proof.
  intros s.
  set (sorted := sort_by byIssueCount
                   (withIssues (map (checkFile (readFile env)) files))).
  assert (Hor : forall f, In f sorted -> issueCount f = length (issues f)).
  { intros f Hf. apply sorted_withIssues in Hf.
    destruct (withIssues_origin _ _ _ Hf) as (_ & _ & _ & _ & _ & _ & _ & H2).
    exact H2. }
  unfold s. rewrite detail_summarize, mostProblematicFiles_summarize.
  fold sorted. split.
  - apply (StronglySorted_map _ (fun a b => length (d_issues b) <= length (d_issues a))).
    simpl.
    apply (StronglySorted_impl_in (fun a b => issueCount b <= issueCount a)).
    + intros a b Ha Hb Hab. rewrite <- (Hor a Ha), <- (Hor b Hb). exact Hab.
    + apply (sort_by_sorted issueCount).
  - rewrite firstn_map, map_map.
    apply map_ext_in. intros f Hf. simpl. apply firstn_In in Hf.
    rewrite (Hor f Hf). reflexivity.
Qed.

Lemma checkFile_suggestedFix read p r content :
  read p = inr content -> checkFile read p = Report r ->
  suggestedFix r
  = if Nat.ltb 0 (length (issues r))
       && negb (includes content (js "@/lib/validation"))
    then Some suggested_import else None.
Proof.
  unfold checkFile. intros ->. cbn [bind]. unfold checkContent.
  destruct (forOf _ VALIDATION_ISSUES []) as [e|l]; cbn [bind]; [discriminate|].
  intros H. injection H as <-. reflexivity.
Qed.

(** Every entry of the detail is the report of a file of the list that was
    read and has at least one Issue; its [suggestedFix] is the import line
    of the helper module unless the text of the file contains
    [@/lib/validation] somewhere. *)
Theorem detail_entries env files d :
  In d (detail (summarize env files (map (checkFile (readFile env)) files))) ->
  exists file content r,
    In file files /\ readFile env file = inr content
    /\ checkFile (readFile env) file = Report r
    /\ d_path d = path_relative env (projectRoot env) file
    /\ d_issues d = issues r /\ issues r <> []
    /\ d_suggestedFix d
       = if includes content (js "@/lib/validation")
         then None else Some suggested_import.
Proof.
  rewrite detail_summarize. intros Hd.
  apply in_map_iff in Hd. destruct Hd as (f & <- & Hf).
  apply sorted_withIssues in Hf.
  destruct (withIssues_origin _ _ _ Hf)
    as (file & content & Hin & Hr & Hc & Hp & Hpos & Hn).
  exists file, content, f. simpl. rewrite Hp. repeat split; auto.
  - intros E. rewrite E in Hn. simpl in Hn. lia.
  - rewrite (checkFile_suggestedFix _ _ _ _ Hr Hc).
    rewrite <- Hn. apply Nat.ltb_lt in Hpos. rewrite Hpos. simpl.
    destruct (includes content (js "@/lib/validation")); reflexivity.
Qed.

Lemma detail_entries_witness :
  let env := two_files in
  let files := [b_ts; c_ts] in
  exists d,
    hd_error (detail (summarize env files (map (checkFile (readFile env)) files)))
    = Some d
    /\ In d (detail (summarize env files (map (checkFile (readFile env)) files)))
    /\ d_suggestedFix d = Some suggested_import
    /\ exists file content r,
         In file files /\ readFile env file = inr content
         /\ checkFile (readFile env) file = Report r
         /\ d_path d = path_relative env (projectRoot env) file
         /\ d_issues d = issues r /\ issues r <> []
         /\ d_suggestedFix d
            = if includes content (js "@/lib/validation")
              then None else Some suggested_import.
Proof.
  intros env files. eexists.
  split; [vm_compute; reflexivity|].
  assert (H : forall (d : Detail) l, hd_error l = Some d -> In d l)
    by (intros d [|x l] E; [discriminate|injection E as <-; left; reflexivity]).
  match goal with
  | |- In ?d ?l /\ _ =>
      assert (Hin : In d l) by (apply H; vm_compute; reflexivity)
  end.
  split; [exact Hin|]. split; [reflexivity|].
  exact (detail_entries env files _ Hin).
Defined.

(** Conversely every file of the list that was read and has at least one
    Issue has its entry in the detail. *)
Theorem detail_complete env files file r :
  In file files -> checkFile (readFile env) file = Report r -> issues r <> [] ->
  In {| d_path := path_relative env (projectRoot env) file;
        d_issues := issues r;
        d_suggestedFix := suggestedFix r |}
    (detail (summarize env files (map (checkFile (readFile env)) files))).
Proof.
  rewrite detail_summarize. intros Hin Hc Hne.
  destruct (checkFile_Report _ _ _ Hc) as (content & _ & Hp & _ & _ & _ & Hn & _).
  rewrite <- Hp.
  apply (in_map (fun f => {| d_path := path_relative env (projectRoot env) (path f);
                             d_issues := issues f;
                             d_suggestedFix := suggestedFix f |})).
  apply (Permutation_in _ (Permutation_sym (sort_by_perm issueCount _))).
  apply withIssues_In. split.
  - apply in_map_iff. exists file. auto.
  - rewrite Hn. destruct (issues r); [congruence|simpl; lia].
Qed.

Lemma detail_complete_witness :
  let env := two_files in
  let files := [b_ts; c_ts] in
  exists r,
    In c_ts files /\ checkFile (readFile env) c_ts = Report r /\ issues r <> []
    /\ In {| d_path := path_relative env (projectRoot env) c_ts;
             d_issues := issues r;
             d_suggestedFix := suggestedFix r |}
         (detail (summarize env files (map (checkFile (readFile env)) files))).
Proof.
  intros env files. eexists.
  assert (H1 : In c_ts files) by (right; left; reflexivity).
  split; [exact H1|].
  split; [vm_compute; reflexivity|].
  match goal with
  | |- ?P /\ _ => assert (H3 : P) by (vm_compute; discriminate)
  end.
  split; [exact H3|].
  eapply (detail_complete env files c_ts); [exact H1| |exact H3].
  vm_compute. reflexivity.
Defined.

(* ================================================================== *)
(** ** The scan: targets that give no report *)
(* ================================================================== *)

(** A target that does not exist: the call answers
    [Target not found: <target>], whatever the order of completion, and
    the answer is the same for any other outcome of [statSync], of
    [globSync] and of [readFile]: it depends on none of them. *)
Theorem target_not_found env order args :
  existsSync env (path_join env (projectRoot env) (targetOf args)) = false ->
  runValidationCheckerTool env order args
  = Some (text_response (js "Target not found: " ++ targetOf args))
  /\ forall stat glob read,
       runValidationCheckerTool (with_files env stat glob read) order args
       = runValidationCheckerTool env order args.
Proof.
  intros H.
  assert (E : forall e, existsSync e (path_join e (projectRoot e) (targetOf args))
                        = false ->
              runValidationCheckerTool e order args
              = Some (text_response (js "Target not found: " ++ targetOf args))).
  { intros e He. unfold runValidationCheckerTool, selectFiles. rewrite He.
    reflexivity. }
  split; [apply E; exact H|].
  intros stat glob read. rewrite (E env H). apply E. exact H.
Qed.

(** The theorem at a file that is not in the project; a call without
    target, or with the empty string, is about [src/components]. *)
Lemma target_not_found_witness :
  existsSync (one_file one_test)
    (path_join (one_file one_test) (projectRoot (one_file one_test))
       (targetOf (scan_file "src/missing.ts"))) = false
  /\ targetOf scan_default = js "src/components"
  /\ targetOf {| target := Some []; fix_ := None |} = js "src/components"
  /\ runValidationCheckerTool (one_file one_test) [] (scan_file "src/missing.ts")
     = Some (text_response (js "Target not found: "
                            ++ targetOf (scan_file "src/missing.ts")))
  /\ forall stat glob read,
       runValidationCheckerTool (with_files (one_file one_test) stat glob read)
         [] (scan_file "src/missing.ts")
       = runValidationCheckerTool (one_file one_test) [] (scan_file "src/missing.ts").
Proof.
  assert (H : existsSync (one_file one_test)
                (path_join (one_file one_test) (projectRoot (one_file one_test))
                   (targetOf (scan_file "src/missing.ts"))) = false)
    by (vm_compute; reflexivity).
  split; [exact H|]. split; [reflexivity|]. split; [reflexivity|].
  exact (target_not_found (one_file one_test) [] (scan_file "src/missing.ts") H).
Defined.

(** A directory in which the glob finds no file: the report is the one
    with zero everywhere and empty lists, whatever the order given. *)
Theorem empty_directory_report env order args :
  existsSync env (path_join env (projectRoot env) (targetOf args)) = true ->
  statIsDirectory env (path_join env (projectRoot env) (targetOf args)) = inr true ->
  globSync env (path_join env (projectRoot env) (targetOf args)
                ++ js "/**/*.{tsx,jsx,ts,js}") = inr [] ->
  runValidationCheckerTool env order args
  = Some (text_response
            (JSON_stringify
               (json_of_summary
                  {| filesScanned := 0; filesWithIssues := 0; totalIssues := 0;
                     highSeverityIssues := 0; mostProblematicFiles := [];
                     detail := [] |}))).
Proof.
  intros H1 H2 H3. unfold runValidationCheckerTool, selectFiles.
  rewrite H1, H2. cbn [bind]. rewrite H3. cbn [bind].
  unfold Promise_all. simpl.
  assert (E : fold_left (settle (@nil CheckResult)) order [] = []).
  { assert (Hs : forall i, settle (@nil CheckResult) [] i = [])
      by (intros i; unfold settle; destruct i; reflexivity).
    induction order as [|i t IH]; simpl; auto. rewrite Hs. exact IH. }
  rewrite E. reflexivity.
Qed.

Lemma empty_directory_report_witness :
  let env := env_of [] in
  existsSync env (path_join env (projectRoot env) (targetOf scan_default)) = true
  /\ statIsDirectory env (path_join env (projectRoot env) (targetOf scan_default))
     = inr true
  /\ globSync env (path_join env (projectRoot env) (targetOf scan_default)
                   ++ js "/**/*.{tsx,jsx,ts,js}") = inr []
  /\ runValidationCheckerTool env [3; 1] scan_default
     = Some (text_response
               (JSON_stringify
                  (json_of_summary
                     {| filesScanned := 0; filesWithIssues := 0; totalIssues := 0;
                        highSeverityIssues := 0; mostProblematicFiles := [];
                        detail := [] |}))).
Proof.
  intros env.
  assert (H1 : existsSync env (path_join env (projectRoot env)
                                 (targetOf scan_default)) = true)
    by (vm_compute; reflexivity).
  assert (H2 : statIsDirectory env (path_join env (projectRoot env)
                                      (targetOf scan_default)) = inr true)
    by (vm_compute; reflexivity).
  assert (H3 : globSync env (path_join env (projectRoot env) (targetOf scan_default)
                             ++ js "/**/*.{tsx,jsx,ts,js}") = inr [])
    by reflexivity.
  split; [exact H1|]. split; [exact H2|]. split; [exact H3|].
  exact (empty_directory_report env [3; 1] scan_default H1 H2 H3).
Defined.

(* ================================================================== *)
(** ** Patterns that start with a literal *)
(* ================================================================== *)

Lemma matcher_lit {R} (s : jsstring) :
  forall (k : @cont R) prev rest cs res,
    matcher false (RLit s) k prev rest cs = Some res ->
    exists prev' rest', rest = s ++ rest' /\ k prev' rest' cs = Some res.
Proof.
  induction s as [|c t IH]; intros k prev rest cs res H.
  - exists prev, rest. auto.
  - destruct t as [|c' t'].
    + simpl in H. destruct rest as [|x xs]; [discriminate|].
      destruct (N.eqb c x) eqn:E; [|discriminate].
      apply N.eqb_eq in E. subst x. exists (Some c), xs. auto.
    + change (RLit (c :: c' :: t'))
        with (RSeq (RChar (CChar c)) (RLit (c' :: t'))) in H.
      cbn [matcher] in H. destruct rest as [|x xs]; [discriminate|].
      cbn [cmatch] in H. destruct (N.eqb c x) eqn:E; [|discriminate].
      apply N.eqb_eq in E. subst x.
      destruct (IH _ _ _ _ _ H) as (p' & r' & -> & Hk).
      exists p', r'. auto.
Qed.

Lemma match_here_literal_head p s r2 idx prev rest r :
  re p = RSeq (RLit s) r2 -> ignoreCase p = false ->
  match_here p idx prev rest = Some r -> starts_with s (m_text r) = true.
Proof.
  unfold match_here. intros -> ->. cbn [matcher]. intros H.
  destruct (matcher_lit _ _ _ _ _ _ H) as (p1 & t1 & -> & H1).
  destruct (matcher_trace _ _ _ _ _ _ _ H1) as (p2 & t2 & c2 & pre & Hk & -> & _).
  injection Hk as <-. simpl.
  replace (length (s ++ pre ++ t2) - length t2) with (length (s ++ pre))
    by (rewrite !length_app; lia).
  rewrite app_assoc, firstn_app, Nat.sub_diag, firstn_all. simpl.
  rewrite app_nil_r. apply starts_with_app.
Qed.

Lemma search_literal_head p s r2 :
  re p = RSeq (RLit s) r2 -> ignoreCase p = false ->
  forall rest idx prev r,
    search p idx prev rest = Some r -> starts_with s (m_text r) = true.
Proof.
  intros Hre Hic. induction rest as [|x xs IH]; simpl; intros idx prev r H.
  - destruct (match_here p idx prev []) eqn:E; [|discriminate].
    injection H as <-. eapply match_here_literal_head; eauto.
  - destruct (match_here p idx prev (x :: xs)) eqn:E.
    + injection H as <-. eapply match_here_literal_head; eauto.
    + eapply IH; eauto.
Qed.

(** A pattern that starts with a literal matches nothing in a text that
    does not contain the literal. *)
Lemma no_literal_no_match p s r2 content :
  re p = RSeq (RLit s) r2 -> ignoreCase p = false ->
  includes content s = false -> search p 0 None content = None.
Proof.
  intros Hre Hic Hno.
  destruct (search p 0 None content) as [r|] eqn:E; auto. exfalso.
  pose proof (search_literal_head _ _ _ Hre Hic _ _ _ _ E) as Hs.
  destruct (starts_with_inv _ _ Hs) as (b & Hb).
  assert (Hsub : substring s content).
  { apply (substring_trans _ (m_text r)).
    - exists [], b. exact Hb.
    - eapply search_substring. exact E. }
  apply includes_substring in Hsub. congruence.
Qed.

Lemma matches_g_none p content :
  search p 0 None content = None -> matches_g p content = [].
Proof. unfold matches_g. simpl. intros ->. reflexivity. Qed.

Lemma matches_g_nonempty p content :
  matches_g p content <> [] <-> JS.test p content = true.
Proof.
  unfold matches_g, JS.test. simpl.
  destruct (search p 0 None content); split; intros H; congruence.
Qed.

(* ================================================================== *)
(** ** The Rule Engine: the detector of direct [.test()] calls *)
(* ================================================================== *)

(** The detector of direct [.test()] calls never throws and adds at most
    one Issue to a file; that Issue has severity high and the suggestion of
    validators in place of regex tests, whatever the usage flags.  A file
    that does not contain [.test(] gets none. *)
Theorem direct_test_issue content uv uf acc :
  exists added,
    checkDetector content uv uf acc regex_test = inr (acc ++ added)
    /\ length added <= 1
    /\ Forall (fun i =>
                 i_severity i = high
                 /\ i_suggestion i
                    = js "Use ValidationService.createValidator() or a specific validator from @/lib/validation instead of regex tests")
         added
    /\ (if includes content (js ".test(") then True else added = []).
Proof.
  unfold checkDetector, match_first.
  destruct (search (pattern regex_test) 0 None content) as [r|] eqn:Hs.
  - destruct (search_trace _ _ _ _ _ Hs) as (_ & _ & _ & Hn & _).
    change (ngroups (re (pattern regex_test))) with 0 in Hn.
    destruct (m_groups r); [|discriminate].
    simpl forOf. rewrite checkMatch_defined. cbn [bind].
    eexists. split; [reflexivity|].
    assert (Hh : starts_with (js ".test(") (m_text r) = true).
    { eapply (search_literal_head (pattern regex_test)); [reflexivity|reflexivity|exact Hs]. }
    assert (Hi : includes (m_text r) (js ".test(") = true).
    { apply includes_substring. destruct (starts_with_inv _ _ Hh) as (b & ->).
      exists [], b. reflexivity. }
    destruct (findIndex _ (split_nl content)) as [k|] eqn:Hk.
    + split; [simpl; lia|]. split.
      * constructor; [|constructor]. split; [reflexivity|].
        change (i_suggestion (issueAt content uv uf regex_test (m_text r) k))
          with (suggestionFor (m_text r) uv uf).
        unfold suggestionFor. rewrite Hi. reflexivity.
      * destruct (includes content (js ".test(")) eqn:Hno; [exact I|]. exfalso.
        assert (search (pattern regex_test) 0 None content = None).
        { eapply no_literal_no_match; [reflexivity|reflexivity|exact Hno]. }
        congruence.
    + split; [simpl; lia|]. split; [constructor|].
      destruct (includes content (js ".test(")); auto.
  - exists []. rewrite app_nil_r. repeat split; auto.
    destruct (includes content (js ".test(")); auto.
Qed.

(* ================================================================== *)
(** ** Literal texts a match must contain *)
(* ================================================================== *)

Lemma lit_exact {R} (r : regex) :
  forall s (k : @cont R) prev rest cs res,
    lit_of r = Some s ->
    matcher false r k prev rest cs = Some res ->
    exists prev' rest', rest = s ++ rest' /\ k prev' rest' cs = Some res.
Proof.
  induction r as [|c|r1 IH1 r2 IH2|r1 IH1 r2 IH2|c|c|c|g r1 IH1|];
    intros s k prev rest cs res L H; simpl in L; try discriminate.
  - injection L as <-. exists prev, rest. auto.
  - destruct c; try discriminate. injection L as <-.
    simpl in H. destruct rest as [|x xs]; [discriminate|].
    destruct (N.eqb c x) eqn:E; [|discriminate].
    apply N.eqb_eq in E. subst x. exists (Some c), xs. auto.
  - destruct (lit_of r1) as [s1|]; [|discriminate].
    destruct (lit_of r2) as [s2|]; [|discriminate]. injection L as <-.
    simpl in H.
    destruct (IH1 _ _ _ _ _ _ eq_refl H) as (p1 & t1 & -> & H1).
    destruct (IH2 _ _ _ _ _ _ eq_refl H1) as (p2 & t2 & -> & H2).
    exists p2, t2. rewrite <- app_assoc. auto.
Qed.

Lemma must_contain_unfold (r : regex) :
  must_contain r
  = match lit_of r with
    | Some s => [s]
    | None =>
        match r with
        | RSeq a b => must_contain a ++ must_contain b
        | RGroup _ a => must_contain a
        | _ => []
        end
    end.
Proof. destruct r; reflexivity. Qed.

Lemma must_trace {R} (r : regex) :
  forall (k : @cont R) prev rest cs res,
    matcher false r k prev rest cs = Some res ->
    exists prev' rest' cs' pre,
      k prev' rest' cs' = Some res
      /\ rest = pre ++ rest'
      /\ Forall (fun s => substring s pre) (must_contain r).
Proof.
  induction r as [|c|r1 IH1 r2 IH2|r1 IH1 r2 IH2|c|c|c|g r1 IH1|];
    intros k prev rest cs res H; rewrite must_contain_unfold;
    match goal with
    | |- context [lit_of ?r] => destruct (lit_of r) as [s|] eqn:L
    end;
    try (destruct (lit_exact _ _ _ _ _ _ _ L H) as (p' & t' & -> & Hk);
         exists p', t', cs, s; repeat split; auto;
         constructor; [apply substring_refl|constructor]);
    try (destruct (matcher_trace _ _ _ _ _ _ _ H)
           as (p' & t' & c' & pre & Hk & -> & _);
         exists p', t', c', pre; repeat split; auto; constructor; fail).
  - simpl in H.
    destruct (IH1 _ _ _ _ _ H) as (p1 & t1 & c1 & pre1 & H1 & -> & F1).
    destruct (IH2 _ _ _ _ _ H1) as (p2 & t2 & c2 & pre2 & H2 & -> & F2).
    exists p2, t2, c2, (pre1 ++ pre2). repeat split; auto.
    + rewrite app_assoc. reflexivity.
    + apply Forall_app. split.
      * eapply Forall_impl; [|exact F1]. intros s. apply substring_app_r.
      * eapply Forall_impl; [|exact F2]. intros s. apply substring_app_l.
  - simpl in H.
    destruct (IH1 _ _ _ _ _ H) as (p1 & t1 & c1 & pre & H1 & -> & F1).
    eexists p1, t1, _, pre. repeat split; eauto.
Qed.

Lemma match_here_must p idx prev rest r :
  ignoreCase p = false ->
  match_here p idx prev rest = Some r ->
  Forall (fun s => substring s (m_text r)) (must_contain (re p)).
Proof.
  unfold match_here. intros -> H.
  destruct (must_trace _ _ _ _ _ _ H) as (p' & t' & c' & pre & Hk & -> & F).
  injection Hk as <-. simpl.
  rewrite length_app, Nat.add_sub, firstn_app, Nat.sub_diag, firstn_all.
  simpl. rewrite app_nil_r. exact F.
Qed.

Lemma search_must p rest :
  ignoreCase p = false ->
  forall idx prev r,
    search p idx prev rest = Some r ->
    Forall (fun s => substring s (m_text r)) (must_contain (re p)).
Proof.
  intros Hic. induction rest as [|x xs IH]; simpl; intros idx prev r H.
  - destruct (match_here p idx prev []) eqn:E; [|discriminate].
    injection H as <-. eapply match_here_must; eauto.
  - destruct (match_here p idx prev (x :: xs)) eqn:E.
    + injection H as <-. eapply match_here_must; eauto.
    + eapply IH; eauto.
Qed.

(** A pattern without the [i] flag matches nothing in a text that lacks
    one of the literal texts of the pattern. *)
Lemma missing_literal p s content :
  ignoreCase p = false -> In s (must_contain (re p)) ->
  includes content s = false -> search p 0 None content = None.
Proof.
  intros Hic Hin Hno.
  destruct (search p 0 None content) as [r|] eqn:E; auto. exfalso.
  pose proof (search_must _ _ Hic _ _ _ E) as F.
  rewrite Forall_forall in F. specialize (F s Hin).
  assert (Hsub : substring s content)
    by (eapply substring_trans; [exact F|eapply search_substring; exact E]).
  apply includes_substring in Hsub. congruence.
Qed.

(* ================================================================== *)
(** ** The Structural Extractor *)
(* ================================================================== *)

Lemma str_eqb_refl (s : jsstring) : str_eqb s s = true.
Proof. induction s as [|c s IH]; simpl; auto. rewrite N.eqb_refl. exact IH. Qed.

Lemma opt_eqb_refl (x : option jsstring) : Analyzer.opt_eqb x x = true.
Proof. destruct x; simpl; auto. apply str_eqb_refl. Qed.

Lemma collectMethods_NoDup p content : NoDup (Analyzer.collectMethods p content).
Proof.
  unfold Analyzer.collectMethods.
  assert (H : forall l acc, NoDup acc ->
            NoDup (fold_left
                     (fun methods m =>
                        let m1 := nth 0 (m_groups m) None in
                        if existsb (Analyzer.opt_eqb m1) methods
                        then methods else methods ++ [m1]) l acc)).
  { induction l as [|m l IH]; intros acc Hacc; simpl; auto.
    apply IH.
    destruct (existsb (Analyzer.opt_eqb (nth 0 (m_groups m) None)) acc) eqn:E; auto.
    apply NoDup_app; auto.
    - constructor; [intros []|constructor].
    - intros x Hx [Ex|[]]. rewrite <- Ex in Hx.
      assert (Ht : existsb (Analyzer.opt_eqb (nth 0 (m_groups m) None)) acc = true).
      { apply existsb_exists. eexists. split; [exact Hx|]. apply opt_eqb_refl. }
      congruence. }
  apply H. constructor.
Qed.

(** The method lists of [analyzeValidationUsage] hold each name once, and
    there is at most one potential issue. *)
Theorem usage_lists content :
  let a := Analyzer.analyzeValidationUsage content in
  NoDup (Analyzer.validationMethods a)
  /\ NoDup (Analyzer.formatterMethods a)
  /\ length (Analyzer.potentialIssues a) <= 1.
Proof.
  cbv zeta. unfold Analyzer.analyzeValidationUsage.
  destruct (Nat.ltb 0 _); cbn [Analyzer.validationMethods
    Analyzer.formatterMethods Analyzer.potentialIssues].
  - repeat split.
    + destruct (includes content (js "ValidationService"));
        [apply collectMethods_NoDup|constructor].
    + destruct (includes content (js "FormatterService"));
        [apply collectMethods_NoDup|constructor].
    + destruct (existsb _ Analyzer.inlineValidationPatterns); simpl; lia.
  - repeat split; try constructor. simpl. lia.
Qed.

(** The import pattern of the helper module matches nothing in a text
    that lacks one of its three literal texts. *)
Lemma import_pattern_needs content s :
  In s [js "import"; js "from"; js "@/lib/validation"] ->
  includes content s = false ->
  search Analyzer.validationImportRegex 0 None content = None.
Proof.
  intros Hin Hno.
  assert (E : must_contain (re Analyzer.validationImportRegex)
              = [js "import"; js "from"; js "@/lib/validation"])
    by (vm_compute; reflexivity).
  apply (missing_literal _ s); [reflexivity|rewrite E; exact Hin|exact Hno].
Qed.

(** A text that lacks [import], [from] or [@/lib/validation] gets the
    analysis with both flags false and every list empty, whatever else it
    contains - calls of the two services included. *)
Theorem usage_needs_module content s :
  In s [js "import"; js "from"; js "@/lib/validation"] ->
  includes content s = false ->
  Analyzer.analyzeValidationUsage content = no_usage.
Proof.
  intros Hin Hno.
  pose proof (import_pattern_needs content s Hin Hno) as Hs.
  unfold Analyzer.analyzeValidationUsage.
  rewrite match_global_test.
  unfold JS.test. rewrite Hs.
  reflexivity.
Qed.

Lemma usage_needs_module_witness :
  In (js "@/lib/validation") [js "import"; js "from"; js "@/lib/validation"]
  /\ includes token_without_import (js "@/lib/validation") = false
  /\ includes token_without_import (js "FormatterService.pad") = true
  /\ Analyzer.analyzeValidationUsage token_without_import = no_usage.
Proof.
  assert (H1 : In (js "@/lib/validation")
                 [js "import"; js "from"; js "@/lib/validation"])
    by (right; right; left; reflexivity).
  assert (H2 : includes token_without_import (js "@/lib/validation") = false)
    by (vm_compute; reflexivity).
  split; [exact H1|]. split; [exact H2|]. split; [vm_compute; reflexivity|].
  exact (usage_needs_module token_without_import _ H1 H2).
Defined.

(** A text that lacks [import] or [from] has no import at all. *)
Theorem imports_need_keywords content s :
  In s [js "import"; js "from"] ->
  includes content s = false ->
  Analyzer.analyzeImports content = [].
Proof.
  intros Hin Hno. unfold Analyzer.analyzeImports.
  rewrite (matches_g_none Analyzer.importRegex),
          (matches_g_none Analyzer.defaultImportRegex); auto.
  - assert (E : must_contain (re Analyzer.defaultImportRegex)
                = [js "import"; js "from"]) by (vm_compute; reflexivity).
    apply (missing_literal _ s); [reflexivity|rewrite E; exact Hin|exact Hno].
  - assert (E : must_contain (re Analyzer.importRegex)
                = [js "import"; js "{"; js "}"; js "from"])
      by (vm_compute; reflexivity).
    apply (missing_literal _ s); [reflexivity| |exact Hno].
    rewrite E. destruct Hin as [<-|[<-|[]]]; simpl; auto.
Qed.

Lemma imports_need_keywords_witness :
  In (js "from") [js "import"; js "from"]
  /\ includes (js "import './side-effect'") (js "from") = false
  /\ Analyzer.analyzeImports (js "import './side-effect'") = [].
Proof.
  assert (H1 : In (js "from") [js "import"; js "from"])
    by (right; left; reflexivity).
  assert (H2 : includes (js "import './side-effect'") (js "from") = false)
    by (vm_compute; reflexivity).
  split; [exact H1|]. split; [exact H2|].
  exact (imports_need_keywords _ _ H1 H2).
Defined.

(** A text that lacks [export] has no export and no default export. *)
Theorem exports_need_keyword content :
  includes content (js "export") = false ->
  Analyzer.analyzeExports content
  = {| Analyzer.exports := []; Analyzer.defaultExport := None |}.
Proof.
  intros Hno. unfold Analyzer.analyzeExports, match_first.
  rewrite (matches_g_none Analyzer.exportRegex),
          (matches_g_none Analyzer.exportFromPatternRegex).
  - rewrite (missing_literal Analyzer.defaultExportRegex (js "export"));
      [reflexivity|reflexivity|left; reflexivity|exact Hno].
  - apply (missing_literal _ (js "export"));
      [reflexivity|left; reflexivity|exact Hno].
  - apply (missing_literal _ (js "export"));
      [reflexivity|left; reflexivity|exact Hno].
Qed.

Lemma exports_need_keyword_witness :
  includes (js "module.exports = { a: 1 }") (js "export ") = false
  /\ includes (js "const a = 1") (js "export") = false
  /\ Analyzer.analyzeExports (js "const a = 1")
     = {| Analyzer.exports := []; Analyzer.defaultExport := None |}.
Proof.
  split; [vm_compute; reflexivity|].
  assert (H : includes (js "const a = 1") (js "export") = false)
    by (vm_compute; reflexivity).
  split; [exact H|]. exact (exports_need_keyword _ H).
Defined.

(** The name of a default export is never empty, and it is only reported
    for a text that contains [export] and [default]. *)
Theorem default_export_name content name :
  Analyzer.defaultExport (Analyzer.analyzeExports content) = Some name ->
  0 < length name
  /\ includes content (js "export") = true
  /\ includes content (js "default") = true.
Proof.
  unfold Analyzer.analyzeExports, match_first. cbn [Analyzer.defaultExport].
  destruct (search Analyzer.defaultExportRegex 0 None content) as [r|] eqn:Hs;
    [|discriminate].
  intros H. injection H as <-. split.
  - unfold Analyzer.nameOrAnonymous.
    change (nth 1 (Some (m_text r) :: m_groups r) None)
      with (nth 0 (m_groups r) None).
    destruct (nth 0 (m_groups r) None) as [[|c t]|]; simpl; lia.
  - pose proof (search_must Analyzer.defaultExportRegex _ eq_refl _ _ _ Hs) as F.
    pose proof (search_substring _ _ _ Hs) as Hsub.
    assert (E : must_contain (re Analyzer.defaultExportRegex)
                = [js "export"; js "default"]) by (vm_compute; reflexivity).
    rewrite E in F. inversion F as [|? ? F1 F']. inversion F' as [|? ? F2 _].
    split; apply includes_substring; eapply substring_trans; eauto.
Qed.

Lemma default_export_name_witness :
  let content := js "export default function () {}" in
  Analyzer.defaultExport (Analyzer.analyzeExports content) = Some (js "anonymous")
  /\ 0 < length (js "anonymous")
  /\ includes content (js "export") = true
  /\ includes content (js "default") = true.
Proof.
  intros content.
  assert (H : Analyzer.defaultExport (Analyzer.analyzeExports content)
              = Some (js "anonymous")) by (vm_compute; reflexivity).
  split; [exact H|]. exact (default_export_name content _ H).
Defined.

Lemma dropWhile_hd {A} (p : A -> bool) (l : list A) :
  dropWhile p l = [] \/ exists x t, dropWhile p l = x :: t /\ p x = false.
Proof.
  induction l as [|a l IH]; simpl; auto.
  destruct (p a) eqn:E; auto. right. exists a, l. auto.
Qed.

Lemma dropWhile_split {A} (p : A -> bool) (l : list A) :
  exists pre, l = pre ++ dropWhile p l.
Proof.
  induction l as [|a l (pre & IH)]; simpl.
  - exists []. reflexivity.
  - destruct (p a).
    + exists (a :: pre). simpl. f_equal. exact IH.
    + exists []. reflexivity.
Qed.

Lemma In_dropWhile {A} (p : A -> bool) (l : list A) (x : A) :
  In x (dropWhile p l) -> In x l.
Proof.
  destruct (dropWhile_split p l) as (pre & E). intros H.
  rewrite E. apply in_or_app. right. exact H.
Qed.

Lemma In_trim (t : jsstring) (c : char) : In c (trim t) -> In c t.
Proof.
  unfold trim. intros H. apply in_rev in H. apply In_dropWhile in H.
  apply in_rev in H. apply In_dropWhile in H. exact H.
Qed.

(** [trim] leaves no white space at either end. *)
Lemma trim_trimmed (t : jsstring) : trimmed (trim t).
Proof.
  unfold trim. set (u := dropWhile isSpace t).
  destruct (dropWhile_hd isSpace (rev u)) as [E|(x & v & E & Hx)].
  - rewrite E. exact I.
  - rewrite E. simpl rev.
    destruct (rev v ++ [x]) as [|c w] eqn:Ew.
    + destruct (rev v); discriminate.
    + simpl. split.
      * destruct (dropWhile_split isSpace (rev u)) as (pre & Hp).
        rewrite E in Hp.
        assert (Hu : u = (c :: w) ++ rev pre).
        { rewrite <- (rev_involutive u), Hp, rev_app_distr. simpl rev.
          rewrite Ew. reflexivity. }
        destruct (dropWhile_hd isSpace t) as [E0|(y & z & E0 & Hy)];
          fold u in E0; rewrite Hu in E0; [discriminate|].
        injection E0 as -> _. exact Hy.
      * change (isSpace (last (c :: w) c) = false).
        rewrite <- Ew, last_last. exact Hx.
Qed.

Lemma split_on_nonempty sep (s : jsstring) : split_on sep s <> [].
Proof.
  destruct s as [|c t]; simpl; [discriminate|].
  destruct (N.eqb c sep); [discriminate|].
  destruct (split_on sep t); discriminate.
Qed.

Lemma split_on_no_sep sep (s piece : jsstring) :
  In piece (split_on sep s) -> ~ In sep piece.
Proof.
  revert piece. induction s as [|c t IH]; simpl; intros piece H.
  - destruct H as [<-|[]]. intros [].
  - destruct (N.eqb c sep) eqn:E.
    + destruct H as [<-|H]; [intros []|auto].
    + destruct (split_on sep t) as [|l ls] eqn:Es.
      * destruct H as [<-|[]]. intros [->|[]]. rewrite N.eqb_refl in E. discriminate.
      * destruct H as [<-|H].
        -- intros [->|Hin]; [rewrite N.eqb_refl in E; discriminate|].
           apply (IH l); auto. left. reflexivity.
        -- apply IH. right. exact H.
Qed.

Lemma splitList_shape (str : jsstring) :
  Forall (fun t => 0 < length t /\ trimmed t /\ ~ In 44%N t)
    (Analyzer.splitList str).
Proof.
  unfold Analyzer.splitList. apply Forall_forall. intros t Ht.
  apply filter_In in Ht. destruct Ht as [Hin Hne].
  apply in_map_iff in Hin. destruct Hin as (piece & <- & Hp).
  repeat split.
  - destruct (trim piece); simpl in *; [discriminate|lia].
  - apply trim_trimmed.
  - intros Hc. apply In_trim in Hc. exact (split_on_no_sep _ _ _ Hp Hc).
Qed.

(** Every entry of [analyzeImports] is either a default import, with the
    single specifier [name (default)], or a grouped import whose
    specifiers are non-empty, without white space at either end and
    without comma. *)
Theorem imports_shape content e :
  In e (Analyzer.analyzeImports content) ->
  (exists name, Analyzer.imp_specifiers e = [name ++ js " (default)"])
  \/ Forall (fun t => 0 < length t /\ trimmed t /\ ~ In 44%N t)
       (Analyzer.imp_specifiers e).
Proof.
  unfold Analyzer.analyzeImports. intros H. apply in_app_or in H.
  destruct H as [H|H]; apply in_map_iff in H; destruct H as (m & <- & _).
  - right. apply splitList_shape.
  - left. eexists. reflexivity.
Qed.

Lemma imports_shape_witness :
  exists e,
    hd_error (Analyzer.analyzeImports grouped_import) = Some e
    /\ In e (Analyzer.analyzeImports grouped_import)
    /\ Analyzer.imp_specifiers e = [js "a"; js "b as c"]
    /\ ((exists name, Analyzer.imp_specifiers e = [name ++ js " (default)"])
        \/ Forall (fun t => 0 < length t /\ trimmed t /\ ~ In 44%N t)
             (Analyzer.imp_specifiers e)).
Proof.
  eexists. split; [vm_compute; reflexivity|].
  match goal with
  | |- In ?e ?l /\ _ =>
      assert (Hin : In e l) by (vm_compute; left; reflexivity)
  end.
  split; [exact Hin|]. split; [reflexivity|].
  exact (imports_shape grouped_import _ Hin).
Defined.

(* ================================================================== *)
(** ** [runFileAnalyzerTool]: size, lines and preview *)
(* ================================================================== *)

Lemma length_split_nl (s : jsstring) : length (split_nl s) = count_nl s + 1.
Proof.
  induction s as [|c t IH]; [reflexivity|].
  rewrite count_nl_cons. cbn [split_nl]. rewrite (N.eqb_sym LF c).
  destruct (N.eqb c LF).
  - cbn [length]. rewrite IH. lia.
  - destruct (split_nl t); cbn [length] in *; lia.
Qed.

(** Whatever the kind of analysis, [size] is the length of the text and
    [lines] is the number of its line feeds plus one: an empty file has one
    line, and a final line feed counts for a line more. *)
Theorem analysis_size_and_lines lib args content :
  let r := Analyzer.analyzeContent lib args content in
  Analyzer.r_filePath r = Analyzer.filePath args
  /\ Analyzer.r_size r = length content
  /\ Analyzer.r_lines r = count_nl content + 1.
Proof.
  cbv zeta. unfold Analyzer.analyzeContent.
  destruct (Analyzer.analysis args) as [[]|];
    cbn [Analyzer.r_filePath Analyzer.r_size Analyzer.r_lines];
    rewrite length_split_nl; auto.
Qed.

Lemma join_with_cons (sep x : jsstring) (l : list jsstring) :
  l <> [] -> join_with sep (x :: l) = x ++ sep ++ join_with sep l.
Proof. destruct l; [congruence|reflexivity]. Qed.

Lemma join_with_push (c : char) (x : jsstring) (l : list jsstring) :
  join_with [LF] ((c :: x) :: l) = c :: join_with [LF] (x :: l).
Proof. destruct l; reflexivity. Qed.

(** The first [n + 1] lines, joined again, are a prefix of the text, with
    [n] line feeds or all of them; what follows is empty or starts with a
    line feed. *)
Lemma join_firstn_prefix (s : jsstring) :
  forall n,
  exists rest,
    s = join_with [LF] (firstn (S n) (split_nl s)) ++ rest
    /\ count_nl (join_with [LF] (firstn (S n) (split_nl s)))
       = Nat.min n (count_nl s)
    /\ (count_nl s <= n -> rest = [])
    /\ (n < count_nl s -> exists rest', rest = LF :: rest').
Proof.
  induction s as [|c t IH]; intros n.
  - exists []. cbn [split_nl firstn]. rewrite firstn_nil. cbn.
    rewrite Nat.min_0_r. repeat split; auto. intros H. inversion H.
  - rewrite count_nl_cons. cbn [split_nl]. rewrite (N.eqb_sym LF c).
    destruct (N.eqb c LF) eqn:Hc.
    + apply N.eqb_eq in Hc. subst c. destruct n as [|n].
      * exists (LF :: t). cbn [firstn join_with app]. repeat split; auto.
        -- intros H. lia.
        -- intros _. eauto.
      * destruct (IH n) as (rest & E & Hn & Hr & Hl).
        rewrite firstn_cons.
        assert (Hne : firstn (S n) (split_nl t) <> []).
        { destruct (split_nl t) eqn:Es; [|discriminate].
          exfalso. apply (split_nl_nonempty t). exact Es. }
        rewrite (join_with_cons _ _ _ Hne). exists rest. cbn [app].
        repeat split.
        -- f_equal. exact E.
        -- rewrite count_nl_cons, N.eqb_refl, Hn. lia.
        -- intros H. apply Hr. lia.
        -- intros H. apply Hl. lia.
    + destruct (split_nl t) as [|l ls] eqn:Es.
      * exfalso. apply (split_nl_nonempty t). exact Es.
      * destruct (IH n) as (rest & E & Hn & Hr & Hl).
        rewrite firstn_cons, join_with_push. rewrite firstn_cons in E, Hn.
        exists rest. repeat split.
        -- cbn [app]. f_equal. exact E.
        -- rewrite count_nl_cons. rewrite (N.eqb_sym LF c). rewrite Hc.
           cbn [Nat.add]. exact Hn.
        -- intros H. apply Hr. lia.
        -- intros H. apply Hl. lia.
Qed.

(** Joining all the lines gives the text back. *)
Lemma join_split_nl (s : jsstring) : join_with [LF] (split_nl s) = s.
Proof.
  destruct (join_firstn_prefix s (count_nl s)) as (rest & E & _ & Hr & _).
  rewrite (Hr (le_n _)), app_nil_r in E.
  rewrite firstn_all2 in E by (rewrite length_split_nl; lia).
  symmetry. exact E.
Qed.

(** In the basic analysis the preview is a prefix of the text: the whole
    text when it has at most twenty lines, otherwise its first twenty
    lines, up to the line feed that ends the twentieth. *)
Theorem preview_is_prefix lib args content :
  Analyzer.analysis args = None \/ Analyzer.analysis args = Some Analyzer.basic ->
  exists pv rest,
    Analyzer.r_preview (Analyzer.analyzeContent lib args content) = Some pv
    /\ content = pv ++ rest
    /\ count_nl pv = Nat.min 19 (count_nl content)
    /\ (if Nat.leb (count_nl content) 19 then pv = content
        else starts_with [LF] rest = true).
Proof.
  intros Hk.
  assert (E : Analyzer.r_preview (Analyzer.analyzeContent lib args content)
              = Some (join_with [LF] (firstn 20 (split_nl content)))).
  { unfold Analyzer.analyzeContent.
    destruct Hk as [-> | ->]; cbn [Analyzer.r_preview];
      rewrite <- (firstn_min 20); reflexivity. }
  destruct (join_firstn_prefix content 19) as (rest & Hc & Hn & Hr & Hl).
  exists (join_with [LF] (firstn 20 (split_nl content))), rest.
  repeat split; auto.
  destruct (Nat.leb (count_nl content) 19) eqn:El.
  - apply Nat.leb_le in El. rewrite (Hr El), app_nil_r in Hc. auto.
  - apply Nat.leb_gt in El. destruct (Hl El) as (rest' & ->).
    reflexivity.
Qed.

Lemma preview_is_prefix_witness :
  (Analyzer.analysis (analyze_basic "src/Button.tsx") = None
   \/ Analyzer.analysis (analyze_basic "src/Button.tsx") = Some Analyzer.basic)
  /\ exists pv rest,
       Analyzer.r_preview
         (Analyzer.analyzeContent sample_paths (analyze_basic "src/Button.tsx")
            button_tsx) = Some pv
       /\ button_tsx = pv ++ rest
       /\ count_nl pv = Nat.min 19 (count_nl button_tsx)
       /\ (if Nat.leb (count_nl button_tsx) 19 then pv = button_tsx
           else starts_with [LF] rest = true).
Proof.
  assert (H : Analyzer.analysis (analyze_basic "src/Button.tsx") = None
              \/ Analyzer.analysis (analyze_basic "src/Button.tsx")
                 = Some Analyzer.basic) by (left; reflexivity).
  split; [exact H|].
  exact (preview_is_prefix sample_paths (analyze_basic "src/Button.tsx")
           button_tsx H).
Defined.

(** In the basic analysis a file that names one of the two services without
    containing [@/lib/validation] is reported with [usesValidation] true
    and, inside [validation], both usage flags false and every list
    empty. *)
Theorem basic_usage_without_import lib args content :
  Analyzer.analysis args = None \/ Analyzer.analysis args = Some Analyzer.basic ->
  includes content (js "ValidationService")
  || includes content (js "FormatterService") = true ->
  includes content (js "@/lib/validation") = false ->
  Analyzer.r_usesValidation (Analyzer.analyzeContent lib args content) = Some true
  /\ Analyzer.r_validation (Analyzer.analyzeContent lib args content)
     = Some no_usage.
Proof.
  intros Hk Ht Hno.
  assert (E : Analyzer.analyzeValidationUsage content = no_usage).
  { assert (Hs : search Analyzer.validationImportRegex 0 None content = None).
    { apply (import_pattern_needs content (js "@/lib/validation")); auto.
      right. right. left. reflexivity. }
    unfold Analyzer.analyzeValidationUsage. rewrite match_global_test.
    unfold JS.test. rewrite Hs. reflexivity. }
  unfold Analyzer.analyzeContent.
  destruct Hk as [-> | ->];
    cbn [Analyzer.r_usesValidation Analyzer.r_validation];
    rewrite Ht, E; auto.
Qed.

Lemma basic_usage_without_import_witness :
  (Analyzer.analysis (analyze_basic "src/Button.tsx") = None
   \/ Analyzer.analysis (analyze_basic "src/Button.tsx") = Some Analyzer.basic)
  /\ includes button_tsx (js "ValidationService")
     || includes button_tsx (js "FormatterService") = true
  /\ includes button_tsx (js "@/lib/validation") = false
  /\ Analyzer.r_usesValidation
       (Analyzer.analyzeContent sample_paths (analyze_basic "src/Button.tsx")
          button_tsx) = Some true
  /\ Analyzer.r_validation
       (Analyzer.analyzeContent sample_paths (analyze_basic "src/Button.tsx")
          button_tsx) = Some no_usage.
Proof.
  assert (H1 : Analyzer.analysis (analyze_basic "src/Button.tsx") = None
               \/ Analyzer.analysis (analyze_basic "src/Button.tsx")
                  = Some Analyzer.basic) by (left; reflexivity).
  assert (H2 : includes button_tsx (js "ValidationService")
               || includes button_tsx (js "FormatterService") = true)
    by (vm_compute; reflexivity).
  assert (H3 : includes button_tsx (js "@/lib/validation") = false)
    by (vm_compute; reflexivity).
  split; [exact H1|]. split; [exact H2|]. split; [exact H3|].
  exact (basic_usage_without_import sample_paths
           (analyze_basic "src/Button.tsx") button_tsx H1 H2 H3).
Defined.

(** A file name matches the pattern of component files only as a name
    followed by [.ts] or [.tsx], and the capture group is that name. *)
Lemma match_whole_component (base : jsstring) m :
  match_whole Analyzer.componentFileRegex base = Some m ->
  exists name,
    m = [Some base; Some name]
    /\ (base = name ++ js ".ts" \/ base = name ++ js ".tsx").
Proof.
  unfold match_whole.
  change (ignoreCase Analyzer.componentFileRegex) with false.
  change (ngroups (re Analyzer.componentFileRegex)) with 1.
  change (re Analyzer.componentFileRegex)
    with (RSeq (RGroup 1 (RSeq (RChar (COneOf Analyzer.upper))
                               (RStar (COneOf Analyzer.alnum))))
               (RSeq (RLit (js ".ts")) (RAlt (RChar (CChar 120%N)) REmpty))).
  remember (RSeq (RChar (COneOf Analyzer.upper)) (RStar (COneOf Analyzer.alnum)))
    as G.
  cbn [matcher]. intros H.
  destruct (matcher_trace _ _ _ _ _ _ _ H) as (p1 & t1 & c1 & pre & Hk & -> & _).
  rewrite length_app, Nat.add_sub, firstn_app, Nat.sub_diag, firstn_all in Hk.
  cbn [firstn] in Hk. rewrite app_nil_r in Hk.
  destruct (matcher_lit _ _ _ _ _ _ Hk) as (p2 & t2 & -> & H2).
  cbn [matcher orElse cmatch] in H2. unfold orElse in H2.
  exists pre.
  destruct t2 as [|y ys].
  - injection H2 as <-. split.
    + rewrite app_nil_r. reflexivity.
    + left. rewrite app_nil_r. reflexivity.
  - destruct (N.eqb 120 y) eqn:Ey.
    + destruct ys as [|z zs]; [|discriminate].
      apply N.eqb_eq in Ey. subst y. injection H2 as <-. split.
      * reflexivity.
      * right. reflexivity.
    + discriminate.
Qed.

(** When the basic analysis reports a component name, the file name is
    that name followed by [.ts] or [.tsx], the file is marked as a React
    component, and its text contains [import React] or [from 'react']. *)
Theorem component_name_is_file_name lib args content name :
  Analyzer.r_componentName (Analyzer.analyzeContent lib args content)
  = Some (Some name) ->
  (Analyzer.path_basename lib (Analyzer.filePath args) = name ++ js ".ts"
   \/ Analyzer.path_basename lib (Analyzer.filePath args) = name ++ js ".tsx")
  /\ Analyzer.r_isReactComponent (Analyzer.analyzeContent lib args content)
     = Some true
  /\ includes content (js "import React")
     || includes content (js "from 'react'") = true.
Proof.
  unfold Analyzer.analyzeContent.
  destruct (Analyzer.analysis args) as [[]|];
    cbn [Analyzer.r_componentName Analyzer.r_isReactComponent option_map];
    try discriminate.
  - destruct (includes content (js "import React")
              || includes content (js "from 'react'")); [|discriminate].
    destruct (match_whole Analyzer.componentFileRegex _) as [m|] eqn:Hm;
      [|discriminate].
    destruct (match_whole_component _ _ Hm) as (n & -> & Hb).
    cbn [option_map fst nth]. intros H. injection H as <-. auto.
  - destruct (includes content (js "import React")
              || includes content (js "from 'react'")); [|discriminate].
    destruct (match_whole Analyzer.componentFileRegex _) as [m|] eqn:Hm;
      [|discriminate].
    destruct (match_whole_component _ _ Hm) as (n & -> & Hb).
    cbn [option_map fst nth]. intros H. injection H as <-. auto.
Qed.

Lemma component_name_is_file_name_witness :
  let r := Analyzer.analyzeContent sample_paths (analyze_basic "src/Button.tsx")
             button_tsx in
  Analyzer.r_componentName r = Some (Some (js "Button"))
  /\ Analyzer.r_propsInterface r = Some (Some (js "ButtonProps"))
  /\ (Analyzer.path_basename sample_paths
        (Analyzer.filePath (analyze_basic "src/Button.tsx"))
      = js "Button" ++ js ".ts"
      \/ Analyzer.path_basename sample_paths
           (Analyzer.filePath (analyze_basic "src/Button.tsx"))
         = js "Button" ++ js ".tsx")
  /\ Analyzer.r_isReactComponent r = Some true
  /\ includes button_tsx (js "import React")
     || includes button_tsx (js "from 'react'") = true.
Proof.
  intros r.
  assert (H : Analyzer.r_componentName r = Some (Some (js "Button")))
    by (vm_compute; reflexivity).
  split; [exact H|]. split; [vm_compute; reflexivity|].
  exact (component_name_is_file_name sample_paths
           (analyze_basic "src/Button.tsx") button_tsx (js "Button") H).
Defined.

(* ================================================================== *)
(** ** The Rule Engine: the detector of string methods *)
(* ================================================================== *)

Lemma matcher_alts_lit {R} (ss : list jsstring) :
  ss <> [] ->
  forall (k : @cont R) prev rest cs res,
    matcher false (RAlts (map RLit ss)) k prev rest cs = Some res ->
    exists s prev' rest',
      In s ss /\ rest = s ++ rest' /\ k prev' rest' cs = Some res.
Proof.
  induction ss as [|s ss IH]; intros Hne k prev rest cs res H; [congruence|].
  destruct ss as [|s' ss'].
  - cbn [map RAlts] in H.
    destruct (matcher_lit _ _ _ _ _ _ H) as (p' & t' & -> & Hk).
    exists s, p', t'. repeat split; auto. left. reflexivity.
  - change (RAlts (map RLit (s :: s' :: ss')))
      with (RAlt (RLit s) (RAlts (map RLit (s' :: ss')))) in H.
    cbn [matcher] in H. unfold orElse in H.
    destruct (matcher false (RLit s) k prev rest cs) eqn:E.
    + injection H as <-.
      destruct (matcher_lit _ _ _ _ _ _ E) as (p' & t' & -> & Hk).
      exists s, p', t'. repeat split; auto. left. reflexivity.
    + destruct (IH ltac:(discriminate) _ _ _ _ _ H)
        as (x & p' & t' & Hin & -> & Hk).
      exists x, p', t'. repeat split; auto. right. exact Hin.
Qed.

Lemma ngroups_RLit (s : jsstring) : ngroups (RLit s) = 0.
Proof.
  induction s as [|c t IH]; [reflexivity|].
  destruct t; [reflexivity|].
  change (RLit (c :: c0 :: t)) with (RSeq (RChar (CChar c)) (RLit (c0 :: t))).
  cbn [ngroups]. exact IH.
Qed.

Lemma ngroups_alts_lit (ss : list jsstring) : ngroups (RAlts (map RLit ss)) = 0.
Proof.
  induction ss as [|s ss IH]; [reflexivity|].
  destruct ss as [|s' ss'].
  - cbn [map RAlts]. apply ngroups_RLit.
  - change (RAlts (map RLit (s :: s' :: ss')))
      with (RAlt (RLit s) (RAlts (map RLit (s' :: ss')))).
    cbn [ngroups]. rewrite ngroups_RLit, IH. reflexivity.
Qed.

(** A match of a pattern made of a literal, a group of literal
    alternatives and a literal. *)
Lemma match_here_lit_alts_lit p a ss b idx prev rest r :
  re p = RSeq (RLit a) (RSeq (RGroup 1 (RAlts (map RLit ss))) (RLit b)) ->
  ignoreCase p = false -> ss <> [] ->
  match_here p idx prev rest = Some r ->
  exists name,
    In name ss /\ m_text r = a ++ name ++ b /\ m_groups r = [Some name].
Proof.
  unfold match_here. intros -> -> Hne.
  cbn [ngroups]. rewrite !ngroups_RLit, ngroups_alts_lit.
  cbn [matcher Nat.add seq map]. intros H.
  destruct (matcher_lit _ _ _ _ _ _ H) as (p1 & t1 & -> & H1).
  destruct (matcher_alts_lit ss Hne _ _ _ _ _ H1)
    as (name & p2 & t2 & Hin & -> & H2).
  destruct (matcher_lit _ _ _ _ _ _ H2) as (p3 & t3 & -> & H3).
  injection H3 as <-. exists name. cbn [m_text m_groups]. repeat split; auto.
  - replace (length (a ++ name ++ b ++ t3) - length t3)
      with (length (a ++ name ++ b)) by (rewrite !length_app; lia).
    replace (a ++ name ++ b ++ t3) with ((a ++ name ++ b) ++ t3)
      by (rewrite <- !app_assoc; reflexivity).
    rewrite firstn_app, Nat.sub_diag, firstn_all. cbn [firstn].
    apply app_nil_r.
  - cbn [capture Nat.eqb]. do 2 f_equal.
    replace (length (name ++ b ++ t3) - length (b ++ t3))
      with (length name) by (rewrite !length_app; lia).
    rewrite firstn_app, Nat.sub_diag, firstn_all. cbn [firstn].
    apply app_nil_r.
Qed.

(** A match of the string-method pattern is a dot, one of the ten method
    names and an opening parenthesis; the capture group is the name. *)
Lemma string_method_match idx prev rest r :
  match_here (pattern string_manipulation) idx prev rest = Some r ->
  exists name,
    In name string_method_names
    /\ m_text r = js "." ++ name ++ js "("
    /\ m_groups r = [Some name].
Proof.
  apply (match_here_lit_alts_lit (pattern string_manipulation)
           (js ".") string_method_names (js "(")); try reflexivity.
  discriminate.
Qed.

(** What holds of a match at any position holds of the match [search]
    returns. *)
Lemma search_match_here p (P : MatchResult -> Prop) :
  (forall idx prev rest r, match_here p idx prev rest = Some r -> P r) ->
  forall rest idx prev r, search p idx prev rest = Some r -> P r.
Proof.
  intros HP. induction rest as [|x xs IH]; simpl; intros idx prev r H.
  - destruct (match_here p idx prev []) eqn:E; [|discriminate].
    injection H as <-. eapply HP; eauto.
  - destruct (match_here p idx prev (x :: xs)) eqn:E.
    + injection H as <-. eapply HP; eauto.
    + eapply IH; eauto.
Qed.

Lemma string_method_search rest idx prev r :
  search (pattern string_manipulation) idx prev rest = Some r ->
  exists name,
    In name string_method_names
    /\ m_text r = js "." ++ name ++ js "("
    /\ m_groups r = [Some name].
Proof.
  revert rest idx prev r.
  apply (search_match_here (pattern string_manipulation)
           (fun r => exists name,
                In name string_method_names
                /\ m_text r = js "." ++ name ++ js "("
                /\ m_groups r = [Some name])).
  apply string_method_match.
Qed.

Lemma findIndex_mono {A} (p q : A -> bool) (l : list A) k1 :
  (forall x, p x = true -> q x = true) ->
  findIndex p l = Some k1 ->
  exists k2, findIndex q l = Some k2 /\ k2 <= k1.
Proof.
  intros Hpq. revert k1. induction l as [|a l IH]; simpl; intros k1 H.
  - discriminate.
  - destruct (q a) eqn:Hq.
    + exists 0. split; auto. lia.
    + destruct (p a) eqn:Hp; [rewrite (Hpq a Hp) in Hq; discriminate|].
      destruct (findIndex p l) as [i|]; [|discriminate].
      injection H as <-. destruct (IH i eq_refl) as (k2 & -> & Hle).
      exists (S k2). split; auto. lia.
Qed.

(** The string-method detector adds no Issue or two: one for the matched
    text, a dot, a method name and a parenthesis, and one more for the
    name alone.  The second is reported on the same line or on an earlier
    one, and both carry the same suggestion: the formatting service for
    [substring], [trim], [replace] and [replaceAll], the general advice
    for the six other methods. *)
Theorem string_method_issues content uv uf acc :
  exists added,
    checkDetector content uv uf acc string_manipulation = inr (acc ++ added)
    /\ (added = []
        \/ exists name k1 k2,
             In name string_method_names
             /\ added = [issueAt content uv uf string_manipulation
                           (js "." ++ name ++ js "(") k1;
                         issueAt content uv uf string_manipulation name k2]
             /\ k2 <= k1
             /\ suggestionFor (js "." ++ name ++ js "(") uv uf
                = suggestionFor name uv uf
             /\ suggestionFor name uv uf
                = if existsb (str_eqb name) formatter_names
                  then js "Consider using FormatterService.formatValue() for consistent string formatting"
                  else js "Consider using the appropriate method from "
                       ++ (if uv then [] else js "ValidationService or ")
                       ++ (if uf then [] else js "FormatterService ")
                       ++ js "instead").
Proof.
  unfold checkDetector, match_first.
  destruct (search (pattern string_manipulation) 0 None content) as [r|] eqn:Hs.
  - destruct (string_method_search _ _ _ _ Hs) as (name & Hin & Ht & Hg).
    destruct (search_trace _ _ _ _ _ Hs) as (pre & E & _ & _ & Hnl & _).
    specialize (Hnl eq_refl).
    assert (Hsub : substring (m_text r) content)
      by (exists pre, (m_rest r); exact E).
    rewrite Ht in *. rewrite Hg. clear Ht Hg.
    set (m := js "." ++ name ++ js "(") in *.
    assert (Hf : findIndex (fun line => includes line m) (split_nl content)
                 <> None).
    { apply findIndex_line_iff; auto. apply includes_substring. exact Hsub. }
    destruct (findIndex (fun line => includes line m) (split_nl content))
      as [k1|] eqn:Hk1; [clear Hf|congruence].
    destruct (findIndex_mono (fun line => includes line m)
                (fun line => includes line name) (split_nl content) k1)
      as (k2 & Hk2 & Hle); auto.
    { intros line Hl. apply includes_substring.
      apply includes_substring in Hl.
      apply (substring_trans _ m); auto. exists (js "."), (js "("). reflexivity. }
    simpl forOf. rewrite !checkMatch_defined. cbn [bind].
    rewrite Hk1. rewrite checkMatch_defined. rewrite Hk2.
    eexists. split; [rewrite <- app_assoc; reflexivity|].
    right. exists name, k1, k2. repeat split; auto.
    + unfold m. clear - Hin.
      repeat (destruct Hin as [<-|Hin]; [vm_compute; reflexivity|]).
      destruct Hin.
    + clear - Hin.
      repeat (destruct Hin as [<-|Hin];
              [destruct uv, uf; vm_compute; reflexivity|]).
      destruct Hin.
  - exists []. rewrite app_nil_r. auto.
Qed.

(* ================================================================== *)
(** ** The documentation search: snippets *)
(* ================================================================== *)

Lemma snippetAt_length lines i : length (Docs.snippetAt lines i) <= 200.
Proof.
  unfold Docs.snippetAt, Docs.maxSnippetLength. cbv zeta.
  destruct (Nat.ltb 200 _) eqn:E.
  - rewrite length_app, length_firstn. change (length (js "...")) with 3. lia.
  - apply Nat.ltb_ge in E. exact E.
Qed.

Lemma snippetLoop_spec toLowerCase lines terms :
  forall fuel i,
    let out := Docs.snippetLoop fuel toLowerCase lines terms i in
    2 * length out <= (length lines - i) + 1
    /\ Forall (fun s => exists j,
                   i <= j < length lines /\ s = Docs.snippetAt lines j
                   /\ existsb (fun term => includes (toLowerCase (nth j lines [])) term)
                        terms = true) out.
Proof.
  induction fuel as [|fuel IH]; intros i; cbn [Docs.snippetLoop].
  - cbv zeta. simpl. split; [lia|constructor].
  - cbv zeta. destruct (Nat.ltb i (length lines)) eqn:Ei.
    + apply Nat.ltb_lt in Ei.
      destruct (existsb _ terms) eqn:Et.
      * destruct (IH (i + 1 + 1)) as [Hc Hf]. cbv zeta in Hc, Hf.
        split; [cbn [length]; lia|].
        constructor.
        -- exists i. repeat split; auto.
        -- eapply Forall_impl; [|exact Hf]. intros s (j & Hj & Hs).
           exists j. split; [lia|exact Hs].
      * destruct (IH (i + 1)) as [Hc Hf]. cbv zeta in Hc, Hf.
        split; [lia|].
        eapply Forall_impl; [|exact Hf]. intros s (j & Hj & Hs).
        exists j. split; [lia|exact Hs].
    + simpl. split; [lia|constructor].
Qed.

Lemma snippetLoop_fuel toLowerCase lines terms :
  forall fuel1 fuel2 i,
    length lines - i <= fuel1 -> length lines - i <= fuel2 ->
    Docs.snippetLoop fuel1 toLowerCase lines terms i
    = Docs.snippetLoop fuel2 toLowerCase lines terms i.
Proof.
  induction fuel1 as [|f1 IH]; intros fuel2 i H1 H2.
  - destruct fuel2 as [|f2]; [reflexivity|]. cbn [Docs.snippetLoop].
    assert (E : Nat.ltb i (length lines) = false) by (apply Nat.ltb_ge; lia).
    rewrite E. reflexivity.
  - cbn [Docs.snippetLoop].
    destruct (Nat.ltb i (length lines)) eqn:Ei.
    + apply Nat.ltb_lt in Ei. destruct fuel2 as [|f2]; [lia|].
      cbn [Docs.snippetLoop]. apply Nat.ltb_lt in Ei. rewrite Ei.
      apply Nat.ltb_lt in Ei.
      rewrite (IH f2 (i + 1 + 1)), (IH f2 (i + 1)) by lia. reflexivity.
    + destruct fuel2 as [|f2]; [reflexivity|]. cbn [Docs.snippetLoop].
      rewrite Ei. reflexivity.
Qed.

Lemma snippetLoop_no_terms toLowerCase lines :
  forall fuel i, Docs.snippetLoop fuel toLowerCase lines [] i = [].
Proof.
  induction fuel as [|fuel IH]; intros i; cbn [Docs.snippetLoop existsb]; auto.
  destruct (Nat.ltb i (length lines)); auto.
Qed.

(** [extractSnippet] returns snippets of at most 200 code units, each
    built around a line that contains one of the terms once in lower case,
    and at most one snippet for two lines of the text; more rounds of the
    loop would add nothing; and without terms there is no snippet. *)
Theorem snippets_bounded toLowerCase content terms :
  let lines := split_nl content in
  let out := Docs.extractSnippet toLowerCase content terms in
  Forall (fun s => length s <= 200) out
  /\ 2 * length out <= count_nl content + 2
  /\ Forall (fun s => exists j,
                 j <= count_nl content /\ s = Docs.snippetAt lines j
                 /\ existsb (fun term => includes (toLowerCase (nth j lines [])) term)
                      terms = true) out
  /\ Docs.snippetLoop (length lines + 1) toLowerCase lines terms 0 = out
  /\ Docs.extractSnippet toLowerCase content [] = [].
Proof.
  cbv zeta. unfold Docs.extractSnippet. cbv zeta.
  destruct (snippetLoop_spec toLowerCase (split_nl content) terms
              (length (split_nl content)) 0) as [Hc Hf]. cbv zeta in Hc, Hf.
  pose proof (length_split_nl content) as Hl.
  repeat split.
  - eapply Forall_impl; [|exact Hf]. intros s (j & _ & -> & _).
    apply snippetAt_length.
  - lia.
  - eapply Forall_impl; [|exact Hf]. intros s (j & Hj & Hs).
    exists j. split; [lia|exact Hs].
  - apply snippetLoop_fuel; lia.
  - apply snippetLoop_no_terms.
Qed.
